(** * A shallow embedding of the document-ingestion and hybrid-retrieval core

    The development follows the Python sources:
    - [mcp_server.py]  : [MCPServer] (content store, sliding-window chunker,
                         [ingest_file]);
    - [vector_utils.py]: [VectorIndex] (embedding store used by the server);
    - [mcp_ollama.py]  : [MCPWrapperOllama] (index/chunk-list pair, retrieval,
                         prompt construction, [query]);
    - [app.py]         : start-up rebuild and the incremental synchronisation
                         performed at the head of [send_message].

    Python values are modelled as the code has them: [str] as [string]
    (characters are code points below 256), [int] as [Z], [list] as [list],
    the insertion-ordered [dict] of file records as an association list, the
    [set] of known ids as a [gset string], similarity scores (finite floats)
    as rationals.  Calls that leave the program (file system, embedding model,
    vector search, text generation) are fields of interface classes. *)

From Stdlib Require Import ZArith QArith String Ascii List Lia Bool DecimalString.
From stdpp Require Import base gmap strings list.

Open Scope string_scope.
Open Scope list_scope.
Open Scope Z_scope.

(* ===================================================================== *)
(** * Python primitives *)
(* ===================================================================== *)

Module Py.

(** Exceptions carry their class name and their message ([str(e)]). *)
Record exn := Exn { exn_type : string; exn_msg : string }.

(** Outcome of running a statement: normal completion, a raised exception,
    or a loop that has not finished within the fuel it was given or that
    does not end. *)
Inductive outcome (A : Type) : Type :=
| Ok (a : A)
| Raise (e : exn)
| Hang.
Arguments Ok {A} a.
Arguments Raise {A} e.
Arguments Hang {A}.

(** Computations over a mutable object graph [S].  The state reached when an
    exception is raised is kept: Python does not roll back mutations. *)
Definition M (S A : Type) : Type := S -> S * outcome A.

Definition ret {S A} (a : A) : M S A := fun s => (s, Ok a).
Definition raise {S A} (e : exn) : M S A := fun s => (s, Raise e).
Definition bind {S A B} (m : M S A) (k : A -> M S B) : M S B :=
  fun s =>
    match m s with
    | (s', Ok a) => k a s'
    | (s', Raise e) => (s', Raise e)
    | (s', Hang) => (s', Hang)
    end.
Definition get {S} : M S S := fun s => (s, Ok s).
Definition modify {S} (f : S -> S) : M S unit := fun s => (f s, Ok tt).

(** What a call into a library or a service gives back: a value or an
    exception. *)
Inductive result (A : Type) : Type :=
| Returned (a : A)
| Failed (e : exn).
Arguments Returned {A} a.
Arguments Failed {A} e.

Definition call {S A} (r : result A) : M S A :=
  fun s => match r with
           | Returned a => (s, Ok a)
           | Failed e => (s, Raise e)
           end.

(** A loop run with fuel: [None] is a loop that has not finished. *)
Definition run_loop {S A} (o : option A) : M S A :=
  fun s => match o with
           | Some a => (s, Ok a)
           | None => (s, Hang)
           end.

(** [try: m except Exception as e: h e].  A loop that does not finish is not
    an exception and is not caught. *)
Definition try_except {S A} (m : M S A) (h : exn -> M S A) : M S A :=
  fun s =>
    match m s with
    | (s', Raise e) => h e s'
    | r => r
    end.

(** [keeps P m]: whatever the outcome of [m], a state with [P] is left in a
    state with [P]. *)
Definition keeps {S A} (P : S -> Prop) (m : M S A) : Prop :=
  forall s, P s -> P (fst (m s)).

(** [returns Q m]: from every state, [m] completes or raises (its loops
    finish), and a value it returns satisfies [Q]. *)
Definition returns {S A} (Q : A -> Prop) (m : M S A) : Prop :=
  forall s, match snd (m s) with
            | Ok a => Q a
            | Raise _ => True
            | Hang => False
            end.

(** [ensures Q m]: when [m] returns, the state it leaves and the value it
    returns satisfy [Q]. *)
Definition ensures {S A} (Q : S -> A -> Prop) (m : M S A) : Prop :=
  forall s s' a, m s = (s', Ok a) -> Q s' a.

(** Run a computation on a component of a larger object graph. *)
Definition zoom {S T A} (proj : T -> S) (inj : S -> T -> T) (m : M S A)
  : M T A :=
  fun t => let '(s', o) := m (proj t) in (inj s' t, o).

Notation "'do' x <- m ;; k" := (bind m (fun x => k))
  (at level 10, x name, m at level 99, k at level 200, only parsing).
Notation "'run' m ;; k" := (bind m (fun _ => k))
  (at level 10, m at level 99, k at level 200, only parsing).

(** [for x in xs: acc = body acc x], the loop carrying its local variable. *)
Fixpoint for_fold {S A B} (xs : list A) (acc : B) (body : B -> A -> M S B)
  : M S B :=
  match xs with
  | [] => ret acc
  | x :: xs' => do acc' <- body acc x ;; for_fold xs' acc' body
  end.

(** [str.isspace] on code points below 256: TAB..CR, FS..US, SPACE, NEL and
    NBSP. *)
Definition is_space (c : ascii) : bool :=
  let n := N_of_ascii c in
  (((9 <=? n) && (n <=? 13)) || ((28 <=? n) && (n <=? 32))
   || (n =? 133) || (n =? 160))%N.

(** [s.split()]: maximal runs of non-whitespace characters, in order. *)
Fixpoint split_from (cur : string) (s : string) : list string :=
  match s with
  | EmptyString => if String.eqb cur "" then [] else [cur]
  | String c s' =>
      if is_space c
      then (if String.eqb cur "" then split_from "" s'
            else cur :: split_from "" s')
      else split_from (cur +:+ String c "") s'
  end.
Definition split (s : string) : list string := split_from "" s.

(** [sep.join(xs)] *)
Definition join (sep : string) (xs : list string) : string :=
  String.concat sep xs.

(** [s.startswith(p)] *)
Definition startswith (s p : string) : bool := String.prefix p s.

(** Truthiness of a [str]. *)
Definition truthy (s : string) : bool := negb (String.eqb s "").

(** Bound of a slice: negative indices count from the end, and the result is
    clamped to [0, n]. *)
Definition slice_bound (n i : Z) : Z :=
  if i <? 0 then Z.max 0 (i + n) else Z.min i n.

(** [xs[i:j]] *)
Definition slice {A} (xs : list A) (i j : Z) : list A :=
  let n := Z.of_nat (length xs) in
  let lo := slice_bound n i in
  let hi := slice_bound n j in
  take (Z.to_nat (hi - lo)) (drop (Z.to_nat lo) xs).

(** [xs[i]]: negative indices count from the end, anything outside raises
    [IndexError]. *)
Definition IndexError : exn := Exn "IndexError" "list index out of range".
Definition index {A} (xs : list A) (i : Z) : result A :=
  let n := Z.of_nat (length xs) in
  let j := if i <? 0 then i + n else i in
  if (j <? 0) || (n <=? j)
  then Failed IndexError
  else match xs !! Z.to_nat j with
       | Some x => Returned x
       | None => Failed IndexError
       end.

(** The line feed of the Python literals. *)
Definition nl : string := String (ascii_of_N 10) "".

(** An insertion-ordered [dict] with [str] keys. *)
Definition dict (V : Type) : Type := list (string * V).
Definition dict_mem {V} (k : string) (d : dict V) : bool :=
  existsb (fun kv => String.eqb (fst kv) k) d.
Fixpoint dict_get {V} (k : string) (d : dict V) : option V :=
  match d with
  | [] => None
  | (k', v) :: d' => if String.eqb k' k then Some v else dict_get k d'
  end.
(** [d[k] = v]: an existing key keeps its position, a new one goes last. *)
Fixpoint dict_set {V} (k : string) (v : V) (d : dict V) : dict V :=
  match d with
  | [] => [(k, v)]
  | (k', v') :: d' =>
      if String.eqb k' k then (k, v) :: d' else (k', v') :: dict_set k v d'
  end.

(** Values of the result dictionaries. *)
Inductive pyval :=
| PStr (s : string)
| PInt (z : Z).

(** [range(0, n, step)] for a length [n]; a zero step raises [ValueError],
    a negative one gives the empty range. *)
Definition range0 (n : nat) (step : Z) : result (list nat) :=
  if step =? 0 then Failed (Exn "ValueError" "range() arg 3 must not be zero")
  else if step <? 0 then Returned []
  else
    let st := Z.to_nat step in
    Returned (map (fun k => (k * st)%nat) (seq 0 ((n + st - 1) / st)%nat)).

(** [s.lower()] on code points below 256. *)
Definition lower_char (c : ascii) : ascii :=
  let n := N_of_ascii c in
  if (((65 <=? n) && (n <=? 90))
      || ((192 <=? n) && (n <=? 222) && negb (n =? 215)))%N
  then ascii_of_N (n + 32) else c.
Fixpoint lower (s : string) : string :=
  match s with
  | EmptyString => EmptyString
  | String c s' => String (lower_char c) (lower s')
  end.

(** [str(n)] for an [int]. *)
Definition str_of_int (z : Z) : string :=
  NilZero.string_of_int (Z.to_int z).

End Py.

Import Py.

(* ===================================================================== *)
(** * Python text primitives of [get_snippet] *)
(* ===================================================================== *)

Module PyText.

(** [s.find(sub)], scanned from position [i]: the lowest index at which
    [sub] occurs, [-1] when it does not. *)
Fixpoint find_from (s sub : string) (i : Z) : Z :=
  if String.prefix sub s then i
  else match s with
       | EmptyString => -1
       | String _ s' => find_from s' sub (i + 1)
       end.
Definition find (s sub : string) : Z := find_from s sub 0.

(** [len(s)] *)
Definition len (s : string) : Z := Z.of_nat (String.length s).

(** [s[i:j]] on a [str]. *)
Definition str_slice (s : string) (i j : Z) : string :=
  string_of_list_ascii (slice (list_ascii_of_string s) i j).

(** A text without whitespace. *)
Fixpoint no_space (s : string) : bool :=
  match s with
  | EmptyString => true
  | String c s' => negb (is_space c) && no_space s'
  end.

End PyText.

(* ===================================================================== *)
(** * External collaborators *)
(* ===================================================================== *)

(** The sentence-embedding model.  A batch call either fails as a whole or
    yields one vector per text, the vector of a text being a function of the
    text.  Failures of the numeric library on the batch are part of
    [encode_error]. *)
Class EmbeddingGateway := {
  vec : Type;
  embed : string -> vec;
  normalize_L2 : vec -> vec;
  encode_error : list string -> option exn
}.

Definition encode `{EmbeddingGateway} (texts : list string)
  : result (list vec) :=
  match encode_error texts with
  | Some e => Failed e
  | None => Returned (map embed texts)
  end.

(** Nearest-neighbour search of a flat index holding the given vectors:
    for one query vector and [k], the row of scores and the row of positions
    ([-1] where there is no neighbour).  [search_ip] is the inner-product
    index of [MCPWrapperOllama], [search_l2] the distance index of
    [VectorIndex]. *)
Class SimilarityIndex `{EmbeddingGateway} := {
  search_ip : list vec -> vec -> Z -> list Q * list Z;
  search_l2 : list vec -> vec -> Z -> list Q * list Z
}.

(** [ollama.generate(model=..., prompt=..., options={"num_ctx": n})["response"]] *)
Class GenerationGateway := {
  generate : string -> string -> Z -> result string
}.

(** Result of [open(path, 'r', encoding=enc).read()]. *)
Inductive text_read :=
| ReadOk (s : string)
| ReadUnicodeDecodeError
| ReadError (e : exn).

(** One stored file record, the value type of [ingested_files]. *)
Record file_info := FileInfo {
  fi_id : string;
  fi_name : string;
  fi_path : string;
  fi_size : Z;
  fi_type : string;
  fi_content : string;
  fi_ingested_at : string;
  fi_metadata : list (string * string)
}.

(** What the successive calls [f.read(4096)] give on a file opened in
    binary mode: a block of bytes followed by the later calls, an exception,
    the end of the file (this call and the later ones return [b""]), or a
    device without end such as [/dev/zero], where this call and every later
    one return the same block. *)
Inductive reads :=
| ReadBlock (chunk : list Byte.byte) (rest : reads)
| ReadRaises (e : exn)
| ReadEnd
| ReadForever (chunk : list Byte.byte).

(** The file system, [hashlib], [mimetypes], [pathlib], [PyPDF2], the clock
    and the JSON file behind [save_files_db].  [open_rb] is
    [open(path, "rb")]: an exception, or the file with the reads it will
    answer. *)
Class FileSystem := {
  path_exists : string -> bool;
  open_rb : string -> result reads;
  sha256_hexdigest : list Byte.byte -> string;
  stat_st_size : string -> result Z;
  guess_type : string -> option string;
  path_str : string -> string;
  path_name : string -> string;
  path_suffix : string -> string;
  path_absolute : string -> string;
  pdf_pages : string -> result (list (option string));
  open_read : string -> string -> text_read;
  now_isoformat : string;
  dump_error : dict file_info -> option exn
}.

(* ===================================================================== *)
(** * vector_utils.py: [VectorIndex] *)
(* ===================================================================== *)

Module VectorIndex.
Section Defs.
Context `{EG : EmbeddingGateway} `{SI : !SimilarityIndex}.

(** The flat index is the list of the vectors added so far; [None] is the
    Python [None]. *)
Record t := Mk {
  index : option (list vec);
  text_chunks : list string;
  embeddings : option (list vec)
}.

Definition init : t := Mk None [] None.

Definition set_index (ix : option (list vec)) (s : t) : t :=
  Mk ix (text_chunks s) (embeddings s).
Definition set_text_chunks (cs : list string) (s : t) : t :=
  Mk (index s) cs (embeddings s).
Definition set_embeddings (es : option (list vec)) (s : t) : t :=
  Mk (index s) (text_chunks s) es.

(** [vectors.shape[1]]: the array that the embedder returns for an empty
    batch has one axis only, so that the subscript raises; the dimension
    itself is not modelled. *)
Definition shape_1 (vectors : list vec) : result unit :=
  match vectors with
  | [] => Failed (Exn "IndexError" "tuple index out of range")
  | _ :: _ => Returned tt
  end.

(** [np.vstack([self.embeddings, vectors])]: the one-axis array of an empty
    batch does not stack under the stored rows. *)
Definition vstack (es : option (list vec)) (vectors : list vec)
  : result (list vec) :=
  match es with
  | Some e =>
      match vectors with
      | [] => Failed (Exn "ValueError" "all the input array dimensions except for the concatenation axis must match exactly")
      | _ :: _ => Returned (e ++ vectors)
      end
  | None => Failed (Exn "ValueError" "all the input arrays must have same number of dimensions")
  end.

(** [self.index.add(vectors)] *)
Definition index_add (vectors : list vec) (s : t) : t :=
  set_index (option_map (fun ix => ix ++ vectors) (index s)) s.

Definition add_documents (docs : list string) : M t unit :=
  do vectors <- call (encode docs) ;;
  do self <- get ;;
  run (match index self with
       | None =>
           run call (shape_1 vectors) ;;
           run modify (set_index (Some [])) ;;
           modify (set_embeddings (Some vectors))
       | Some _ =>
           do es <- call (vstack (embeddings self) vectors) ;;
           modify (set_embeddings (Some es))
       end) ;;
  run modify (index_add vectors) ;;
  modify (fun s => set_text_chunks (text_chunks s ++ docs) s).

(** The comprehension of [search]: rows [D[0]] and [I[0]] walked together,
    positions below [len(text_chunks)] kept ([-1] included, which Python
    reads from the end). *)
Fixpoint search_rows (chunks : list string) (dists : list Q) (ids : list Z)
         (idx : Z) : result (list (string * Q)) :=
  match ids with
  | [] => Returned []
  | i :: ids' =>
      if i <? Z.of_nat (length chunks) then
        match Py.index chunks i, Py.index dists idx with
        | Returned c, Returned d =>
            match search_rows chunks dists ids' (idx + 1) with
            | Returned r => Returned ((c, d) :: r)
            | Failed e => Failed e
            end
        | Failed e, _ => Failed e
        | _, Failed e => Failed e
        end
      else search_rows chunks dists ids' (idx + 1)
  end.

Definition search (query : string) (top_k : Z) : M t (list (string * Q)) :=
  do q_vec <- call (encode [query]) ;;
  do self <- get ;;
  match index self, q_vec with
  | Some ix, q :: _ =>
      let '(dists, ids) := search_l2 ix q top_k in
      call (search_rows (text_chunks self) dists ids 0)
  | None, _ =>
      raise (Exn "AttributeError" "'NoneType' object has no attribute 'search'")
  | _, [] => raise IndexError
  end.

(** [self.index.ntotal], an index that is [None] holding nothing. *)
Definition vectors (s : t) : list vec :=
  match index s with
  | Some ix => ix
  | None => []
  end.
Definition ntotal (s : t) : nat := length (vectors s).

(** Positional correspondence of the index and the chunk list. *)
Definition aligned (s : t) : Prop := vectors s = map embed (text_chunks s).

End Defs.
End VectorIndex.

(* ===================================================================== *)
(** * mcp_server.py: [MCPServer] *)
(* ===================================================================== *)

Module MCPServer.

(** One chunk with its lineage, the [chunk_info] dictionary. *)
Record chunk_info := ChunkInfo {
  text : string;
  file_id : option string;
  file_name : option string;
  file_type : option string
}.

(** The [while i < len(words)] loop of [chunk_text], [i] and [chunks] being
    its two variables.  Python integers are unbounded, so [i] is a [Z]. *)
Fixpoint chunk_loop (fuel : nat) (words : list string)
         (chunk_size overlap : Z) (fid fname ftype : option string)
         (i : Z) (chunks : list chunk_info) : option (list chunk_info) :=
  match fuel with
  | O => None
  | S fuel' =>
      if i <? Z.of_nat (length words) then
        let chunk := slice words i (i + chunk_size) in
        let chunk_text := join " " chunk in
        let chunk_info := ChunkInfo chunk_text fid fname ftype in
        chunk_loop fuel' words chunk_size overlap fid fname ftype
                   (i + (chunk_size - overlap)) (chunks ++ [chunk_info])
      else Some chunks
  end.

Definition chunk_text (fuel : nat) (text : string) (chunk_size overlap : Z)
           (fid fname ftype : option string) : option (list chunk_info) :=
  let words := split text in
  chunk_loop fuel words chunk_size overlap fid fname ftype 0 [].

(** The defaults of [chunk_text]. *)
Definition default_chunk_size : Z := 512.
Definition default_overlap : Z := 64.

Section Defs.
Context `{EG : EmbeddingGateway} `{SI : !SimilarityIndex} `{FS : FileSystem}.

(** The server object.  [chunk_metadata] is created on first use
    ([hasattr]); the JSON file written by [save_files_db] is outside the
    model, only the failure of the write is. *)
Record t := Mk {
  ingested_files : dict file_info;
  vector_index : VectorIndex.t;
  chunk_metadata : option (list chunk_info)
}.

Definition set_ingested_files (d : dict file_info) (s : t) : t :=
  Mk d (vector_index s) (chunk_metadata s).
Definition set_vector_index (v : VectorIndex.t) (s : t) : t :=
  Mk (ingested_files s) v (chunk_metadata s).
Definition set_chunk_metadata (m : option (list chunk_info)) (s : t) : t :=
  Mk (ingested_files s) (vector_index s) m.

(** [__init__], [load_files_db] having produced [db]. *)
Definition init (db : dict file_info) : t := Mk db VectorIndex.init None.

Definition save_files_db : M t unit :=
  try_except
    (do self <- get ;;
     match dump_error (ingested_files self) with
     | Some e => raise e
     | None => ret tt
     end)
    (fun _ => ret tt).

(** The loop [for chunk in iter(lambda: f.read(4096), b""):
    hash_sha256.update(chunk)], [acc] being the bytes the hash has been fed:
    it ends at the first read that returns [b""], and on a file whose reads
    never do it does not end. *)
Fixpoint hash_loop (r : reads) (acc : list Byte.byte)
  : outcome (list Byte.byte) :=
  match r with
  | ReadBlock [] _ => Ok acc
  | ReadBlock chunk rest => hash_loop rest (acc ++ chunk)
  | ReadRaises e => Raise e
  | ReadEnd => Ok acc
  | ReadForever [] => Ok acc
  | ReadForever (_ :: _) => Hang
  end.

(** The [with open(file_path, "rb")] block of [get_file_hash]: the bytes
    that were hashed, the exception of [open] or of a read, or a loop that
    does not end. *)
Definition hashed_bytes (file_path : string) : outcome (list Byte.byte) :=
  match open_rb file_path with
  | Returned r => hash_loop r []
  | Failed e => Raise e
  end.

(** [get_file_hash]: the digest, [""] when an exception was caught, [None]
    when the read loop does not end. *)
Definition get_file_hash (file_path : string) : option string :=
  match hashed_bytes file_path with
  | Ok b => Some (sha256_hexdigest b)
  | Raise _ => Some ""
  | Hang => None
  end.

Definition encodings : list string := ["utf-8"; "utf-16"; "latin-1"; "cp1252"].

(** The [for encoding in encodings] loop of [read_text_file]: [Some] is the
    [return] inside the loop, [None] its end or its [break]. *)
Fixpoint read_text_loop (file_path : string) (encs : list string)
  : option string :=
  match encs with
  | [] => None
  | encoding :: encs' =>
      match open_read file_path encoding with
      | ReadOk s => Some s
      | ReadUnicodeDecodeError => read_text_loop file_path encs'
      | ReadError _ => None
      end
  end.

Definition read_text_file (file_path : string) : string :=
  match read_text_loop file_path encodings with
  | Some s => s
  | None => "[Error: Could not decode file " +:+ path_str file_path +:+ "]"
  end.

Definition text_suffixes : list string :=
  [".txt"; ".md"; ".py"; ".js"; ".html"; ".css"; ".json"; ".xml"; ".yml";
   ".yaml"].

(** [mimetypes.guess_type(str(path))[0] or 'unknown'] *)
Definition file_type_of (file_path : string) : string :=
  match guess_type (path_str file_path) with
  | Some ty => if truthy ty then ty else "unknown"
  | None => "unknown"
  end.

(** The extraction of [content] by file kind. *)
Definition extract_content (file_path : string) (ftype : string)
           (file_size : Z) : M t string :=
  if String.eqb (lower (path_suffix file_path)) ".pdf" then
    try_except
      (do pages <- call (pdf_pages file_path) ;;
       ret (join nl (map (fun p => match p with
                                   | Some s => s
                                   | None => ""
                                   end) pages)))
      (fun e => ret ("[Error reading PDF: " +:+ exn_msg e +:+ "]"))
  else if truthy ftype && startswith ftype "text/" then
    ret (read_text_file file_path)
  else if existsb (String.eqb (lower (path_suffix file_path))) text_suffixes
  then ret (read_text_file file_path)
  else ret ("[Binary file: " +:+ path_name file_path +:+ ", size: "
            +:+ str_of_int file_size +:+ " bytes]").

Definition on_vector_index {A} (m : M VectorIndex.t A) : M t A :=
  zoom vector_index set_vector_index m.

(** The body of the [try] of [ingest_file]. *)
Definition ingest_file_body (file_path : string)
           (metadata : option (dict string)) : M t (dict pyval) :=
  if negb (path_exists file_path) then
    ret [("error", PStr ("File not found: " +:+ file_path))]
  else
    do file_hash <- run_loop (get_file_hash file_path) ;;
    do file_size <- call (stat_st_size file_path) ;;
    let ftype := file_type_of file_path in
    do self <- get ;;
    if dict_mem file_hash (ingested_files self) then
      ret [("status", PStr "already_exists"); ("file_id", PStr file_hash);
           ("message", PStr ("File already ingested: "
                             +:+ path_name file_path))]
    else
      do content <- extract_content file_path ftype file_size ;;
      run (if truthy content && negb (startswith content "[Binary file")
              && negb (startswith content "[Error")
           then
             do chunks <- run_loop
                  (chunk_text (S (length (split content))) content
                     default_chunk_size default_overlap (Some file_hash)
                     (Some (path_name file_path)) (Some ftype)) ;;
             run on_vector_index
                   (VectorIndex.add_documents (map text chunks)) ;;
             modify (fun s =>
               set_chunk_metadata
                 (Some (match chunk_metadata s with
                        | Some cm => cm
                        | None => []
                        end ++ chunks)) s)
           else ret tt) ;;
      let info :=
        FileInfo file_hash (path_name file_path) (path_absolute file_path)
                 file_size ftype content now_isoformat
                 (match metadata with Some m => m | None => [] end) in
      run modify (fun s =>
            set_ingested_files (dict_set file_hash info (ingested_files s)) s) ;;
      run save_files_db ;;
      ret [("status", PStr "success"); ("file_id", PStr file_hash);
           ("name", PStr (path_name file_path)); ("size", PInt file_size);
           ("type", PStr ftype)].

Definition ingest_file (file_path : string) (metadata : option (dict string))
  : M t (dict pyval) :=
  try_except (ingest_file_body file_path metadata)
    (fun e => ret [("error", PStr ("Error ingesting file: " +:+ exn_msg e))]).

(** The result shapes of the ingestion entry point: a ["status"] that is
    ["success"] or ["already_exists"], or an ["error"] with its message. *)
Definition is_result (d : dict pyval) : Prop :=
  dict_get "status" d = Some (PStr "success")
  \/ dict_get "status" d = Some (PStr "already_exists")
  \/ exists message, dict_get "error" d = Some (PStr message).

(** The dictionary returned for a file that is already stored. *)
Definition already_exists (file_path file_hash : string) : dict pyval :=
  [("status", PStr "already_exists");
   ("file_id", PStr file_hash);
   ("message", PStr ("File already ingested: " +:+ path_name file_path))].

(** [get_file]: the record, or the error dictionary. *)
Definition get_file (self : t) (fid : string) : file_info + dict pyval :=
  match dict_get fid (ingested_files self) with
  | Some f => inl f
  | None => inr [("error", PStr ("File not found: " +:+ fid))]
  end.

(** One entry of [list_files]. *)
Record file_summary := Summary {
  sm_id : string;
  sm_name : string;
  sm_size : Z;
  sm_type : string;
  sm_ingested_at : string
}.

Definition list_files (self : t) : list file_summary :=
  map (fun kv => let f := snd kv in
                 Summary (fi_id f) (fi_name f) (fi_size f) (fi_type f)
                         (fi_ingested_at f))
      (ingested_files self).

(** The test of [ingest_file] on the extracted content: only content that is
    not empty and is neither placeholder nor error marker is chunked. *)
Definition indexable (content : string) : bool :=
  truthy content && negb (startswith content "[Binary file")
  && negb (startswith content "[Error").

(** The record [ingest_file] stores, and the dictionary it returns then. *)
Definition stored_record (file_path file_hash : string)
           (metadata : option (dict string))
           (file_size : Z) (content : string) : file_info :=
  FileInfo file_hash (path_name file_path)
           (path_absolute file_path) file_size (file_type_of file_path)
           content now_isoformat
           (match metadata with Some m => m | None => [] end).

Definition success (file_path file_hash : string) (file_size : Z)
  : dict pyval :=
  [("status", PStr "success"); ("file_id", PStr file_hash);
   ("name", PStr (path_name file_path)); ("size", PInt file_size);
   ("type", PStr (file_type_of file_path))].

(** The chunks [ingest_file] makes of a content. *)
Definition chunks_of (file_path file_hash : string) (content : string)
  : option (list chunk_info) :=
  chunk_text (S (length (split content))) content default_chunk_size
             default_overlap (Some file_hash)
             (Some (path_name file_path)) (Some (file_type_of file_path)).

(** [self.chunk_metadata], a list not yet created holding nothing. *)
Definition metadata_list (s : t) : list chunk_info :=
  match chunk_metadata s with
  | Some cm => cm
  | None => []
  end.

(** The files whose content is a placeholder or an error marker: a PDF that
    cannot be read, a file that is neither PDF nor text-like, a file that
    no encoding decodes. *)
Definition placeholder_kind (file_path : string) : Prop :=
  (String.eqb (lower (path_suffix file_path)) ".pdf" = true
   /\ exists e, pdf_pages file_path = Failed e)
  \/ (String.eqb (lower (path_suffix file_path)) ".pdf" = false
      /\ startswith (file_type_of file_path) "text/" = false
      /\ existsb (String.eqb (lower (path_suffix file_path)))
                 text_suffixes = false)
  \/ (String.eqb (lower (path_suffix file_path)) ".pdf" = false
      /\ read_text_loop file_path encodings = None).

(** A store as [ingest_file] builds it: every record sits under its own id
    and no id occurs twice. *)
Definition well_keyed (d : dict file_info) : Prop :=
  Forall (fun kv => fi_id (snd kv) = fst kv) d /\ NoDup (map fst d).

(** The chunk metadata is in step with the texts of the vector index, and
    every chunk names a stored file as its origin. *)
Definition metadata_in_step (s : t) : Prop :=
  map text (metadata_list s) = VectorIndex.text_chunks (vector_index s)
  /\ Forall (fun c => exists h, file_id c = Some h
                                /\ dict_mem h (ingested_files s) = true)
            (metadata_list s).

(** Values of the dictionaries of [search_files]. *)
Inductive hitval :=
| HStr (s : string)
| HFloat (q : Q)
| HNone.

Definition hit_lineage (o : option string) : hitval :=
  match o with
  | Some s => HStr s
  | None => HNone
  end.

(** [next((c for c in self.chunk_metadata if c['text'] == chunk_text), None)] *)
Definition first_with_text (metadata : list chunk_info) (chunk_text : string)
  : option chunk_info :=
  List.find (fun c => String.eqb (text c) chunk_text) metadata.

(** The dictionary appended for one [(chunk_text, score)] pair. *)
Definition hit_of (metadata : list chunk_info) (hit : string * Q)
  : dict hitval :=
  let '(chunk_text, score) := hit in
  match first_with_text metadata chunk_text with
  | Some meta =>
      [("chunk", HStr chunk_text); ("score", HFloat score);
       ("file_id", hit_lineage (file_id meta));
       ("file_name", hit_lineage (file_name meta));
       ("file_type", hit_lineage (file_type meta))]
  | None => [("chunk", HStr chunk_text); ("score", HFloat score)]
  end.

(** [search_files]: the vector search comes first, the test on
    [chunk_metadata] after it. *)
Definition search_files (query : string) : M t (list (dict hitval)) :=
  do semantic_results <- on_vector_index (VectorIndex.search query 5) ;;
  do self <- get ;;
  match chunk_metadata self with
  | None => ret []
  | Some metadata => ret (map (hit_of metadata) semantic_results)
  end.

Definition get_snippet (content query : string) (max_length : Z) : string :=
  let query_lower := lower query in
  let index := PyText.find (lower content) query_lower in
  if index =? -1 then
    if max_length <? PyText.len content
    then PyText.str_slice content 0 max_length +:+ "..."
    else content
  else
    let start := Z.max 0 (index - max_length / 2) in
    let stop := Z.min (PyText.len content)
                      (index + PyText.len query + max_length / 2) in
    let snippet := PyText.str_slice content start stop in
    let snippet := if 0 <? start then "..." +:+ snippet else snippet in
    let snippet := if stop <? PyText.len content
                   then snippet +:+ "..." else snippet in
    snippet.

End Defs.
End MCPServer.

(* ===================================================================== *)
(** * mcp_ollama.py: [MCPWrapperOllama] *)
(* ===================================================================== *)

Module MCPWrapperOllama.
Section Defs.
Context `{EG : EmbeddingGateway} `{SI : !SimilarityIndex}
        `{GG : GenerationGateway}.

(** The wrapper object.  [index] is [None] or the vectors of the flat
    inner-product index; [encode_calls] is the trace of the batches handed
    to [self.embedder.encode], oldest first. *)
Record t := Mk {
  model_name : string;
  chunk_size : Z;
  index : option (list vec);
  doc_chunks : list string;
  encode_calls : list (list string)
}.

Definition init (name : string) (size : Z) : t := Mk name size None [] [].

Definition set_index (ix : option (list vec)) (s : t) : t :=
  Mk (model_name s) (chunk_size s) ix (doc_chunks s) (encode_calls s).
Definition set_doc_chunks (cs : list string) (s : t) : t :=
  Mk (model_name s) (chunk_size s) (index s) cs (encode_calls s).
Definition log_encode (batch : list string) (s : t) : t :=
  Mk (model_name s) (chunk_size s) (index s) (doc_chunks s)
     (encode_calls s ++ [batch]).

(** [self.embedder.encode(batch, convert_to_numpy=True)] *)
Definition embedder_encode (batch : list string) : M t (list vec) :=
  run modify (log_encode batch) ;;
  call (encode batch).

(** [chunk_text]: one window per element of [range(0, len(words), size)]. *)
Definition chunk_text (size : Z) (text : string) : result (list string) :=
  let words := split text in
  match range0 (length words) size with
  | Returned starts =>
      Returned (map (fun i => join " " (slice words (Z.of_nat i)
                                              (Z.of_nat i + size))) starts)
  | Failed e => Failed e
  end.

Definition _ensure_index : M t unit :=
  do self <- get ;;
  match index self with
  | None => modify (set_index (Some []))
  | Some _ => ret tt
  end.

(** [self.index.add(vectors)] and [self.index.reset()] *)
Definition index_add (vectors : list vec) (s : t) : t :=
  set_index (option_map (fun ix => ix ++ vectors) (index s)) s.
Definition index_reset (s : t) : t :=
  set_index (option_map (fun _ => []) (index s)) s.

(** The body of [for doc in documents], [embeddings] being the list the
    loop appends to. *)
Definition ingest_one (embeddings : list (list vec)) (doc : string)
  : M t (list (list vec)) :=
  do self <- get ;;
  do chunks <- call (chunk_text (chunk_size self) doc) ;;
  run modify (fun s => set_doc_chunks (doc_chunks s ++ chunks) s) ;;
  do chunk_embeddings <- embedder_encode chunks ;;
  let normalized := map normalize_L2 chunk_embeddings in
  ret (embeddings ++ [normalized]).

Definition ingest_documents (documents : list string) (refresh : bool)
  : M t unit :=
  run (if refresh
       then run modify (set_doc_chunks []) ;; modify index_reset
       else ret tt) ;;
  do embeddings <- for_fold documents [] ingest_one ;;
  match embeddings with
  | [] => ret tt
  | _ :: _ =>
      let all_embeddings := concat embeddings in
      run _ensure_index ;;
      modify (index_add all_embeddings)
  end.

(** [[self.doc_chunks[i] for i in indices[0] if i != -1]] *)
Fixpoint chunks_at (chunks : list string) (ids : list Z)
  : result (list string) :=
  match ids with
  | [] => Returned []
  | i :: ids' =>
      if i =? -1 then chunks_at chunks ids'
      else match Py.index chunks i with
           | Returned c =>
               match chunks_at chunks ids' with
               | Returned r => Returned (c :: r)
               | Failed e => Failed e
               end
           | Failed e => Failed e
           end
  end.

(** [[float(s) for s in scores[0] if s != -1]] *)
Definition kept_scores (scores : list Q) : list Q :=
  List.filter (fun s => negb (Qeq_bool s (-1))) scores.

Definition retrieve_with_scores (query : string) (top_k : Z)
  : M t (list string * list Q) :=
  do self <- get ;;
  match index self with
  | None => ret ([], [])
  | Some ix =>
      if (length (doc_chunks self) =? 0)%nat then ret ([], [])
      else
        do query_vector <- embedder_encode [query] ;;
        match map normalize_L2 query_vector with
        | [] => raise IndexError
        | q :: _ =>
            let '(scores, indices) := search_ip ix q top_k in
            do results <- call (chunks_at (doc_chunks self) indices) ;;
            ret (results, kept_scores scores)
        end
  end.

Definition build_prompt (question : string) (context_chunks : list string)
  : string :=
  let context := match context_chunks with
                 | [] => ""
                 | _ :: _ => join (nl +:+ nl) context_chunks
                 end in
  if truthy context
  then "Context:" +:+ nl +:+ context +:+ nl +:+ nl +:+ "Question:" +:+ nl
       +:+ question +:+ nl +:+ "Answer:"
  else "Question:" +:+ nl +:+ question +:+ nl +:+ "Answer:".

(** [relevant_chunks and scores[0] >= threshold] *)
Definition chunks_and_score_ge (relevant_chunks : list string)
           (scores : list Q) (threshold : Q) : result bool :=
  match relevant_chunks with
  | [] => Returned false
  | _ :: _ =>
      match Py.index scores 0 with
      | Returned s => Returned (Qle_bool threshold s)
      | Failed e => Failed e
      end
  end.

(** The prompt selection of [query]. *)
Definition select_prompt (question : string) (relevant_chunks : list string)
           (scores : list Q) (strong_threshold weak_threshold : Q)
  : result string :=
  match chunks_and_score_ge relevant_chunks scores strong_threshold with
  | Failed e => Failed e
  | Returned true => Returned (build_prompt question relevant_chunks)
  | Returned false =>
      match chunks_and_score_ge relevant_chunks scores weak_threshold with
      | Failed e => Failed e
      | Returned true =>
          let doc_context := join (nl +:+ nl) relevant_chunks in
          Returned ("Use the following context if relevant, but also apply your own reasoning:"
                    +:+ nl +:+ doc_context +:+ nl +:+ nl +:+ "Question:"
                    +:+ nl +:+ question +:+ nl +:+ "Answer:")
      | Returned false =>
          Returned ("Question:" +:+ nl +:+ question +:+ nl +:+ "Answer:")
      end
  end.

(** The part of [query] before the generation call: the prompt. *)
Definition query_prompt (question : string) (strong_threshold
           weak_threshold : Q) (top_k : Z) : M t string :=
  do r <- retrieve_with_scores question top_k ;;
  let '(relevant_chunks, scores) := r in
  call (select_prompt question relevant_chunks scores strong_threshold
                      weak_threshold).

Definition num_ctx : Z := 8192.

Definition query (question : string) (strong_threshold weak_threshold : Q)
           (top_k : Z) : M t string :=
  do prompt <- query_prompt question strong_threshold weak_threshold top_k ;;
  do self <- get ;;
  do response <- call (generate (model_name self) prompt num_ctx) ;;
  ret response.

(** The chunk lists of the documents of a batch, document by document. *)
Definition chunked (size : Z) (docs : list string)
           (batches : list (list string)) : Prop :=
  Forall2 (fun d b => chunk_text size d = Returned b) docs batches.

(** [self.index.ntotal], an index that is [None] holding nothing. *)
Definition vectors (s : t) : list vec :=
  match index s with
  | Some ix => ix
  | None => []
  end.
Definition ntotal (s : t) : nat := length (vectors s).

(** The vector stored for a chunk. *)
Definition chunk_vector (chunk : string) : vec := normalize_L2 (embed chunk).

(** Positional correspondence of the index and the chunk list. *)
Definition aligned (s : t) : Prop :=
  vectors s = map chunk_vector (doc_chunks s).

(** The states a wrapper goes through: construction, then calls of its
    public operations, whether they return or raise. *)
Inductive reachable : t -> Prop :=
| reach_init name size : reachable (init name size)
| reach_ingest s documents refresh :
    reachable s -> reachable (fst (ingest_documents documents refresh s))
| reach_retrieve s question top_k :
    reachable s -> reachable (fst (retrieve_with_scores question top_k s))
| reach_query s question strong weak top_k :
    reachable s -> reachable (fst (query question strong weak top_k s)).

End Defs.
End MCPWrapperOllama.

(* ===================================================================== *)
(** * app.py: start-up rebuild and incremental synchronisation *)
(* ===================================================================== *)

Module App.
Section Defs.
Context `{EG : EmbeddingGateway} `{SI : !SimilarityIndex}
        `{GG : GenerationGateway} `{FS : FileSystem}.

(** The module-level objects of [app.py]. *)
Record t := Mk {
  mcp_server : MCPServer.t;
  mcp : MCPWrapperOllama.t;
  ingested_files : gset string;
  chat_history : list (string * string)
}.

Definition set_mcp_server (s : MCPServer.t) (a : t) : t :=
  Mk s (mcp a) (ingested_files a) (chat_history a).
Definition set_mcp (w : MCPWrapperOllama.t) (a : t) : t :=
  Mk (mcp_server a) w (ingested_files a) (chat_history a).
Definition set_ingested_files (ids : gset string) (a : t) : t :=
  Mk (mcp_server a) (mcp a) ids (chat_history a).
Definition set_chat_history (h : list (string * string)) (a : t) : t :=
  Mk (mcp_server a) (mcp a) (ingested_files a) h.

(** The objects as created at import time. *)
Definition init (db : dict file_info) : t :=
  Mk (MCPServer.init db) (MCPWrapperOllama.init "llama3.2:3b-8k" 300) ∅ [].

Definition on_mcp_server {A} (m : M MCPServer.t A) : M t A :=
  zoom mcp_server set_mcp_server m.
Definition on_mcp {A} (m : M MCPWrapperOllama.t A) : M t A :=
  zoom mcp set_mcp m.

(** [[mcp_server.get_file(f["id"])["content"] for f in fs]] *)
Fixpoint contents (server : MCPServer.t) (fs : list MCPServer.file_summary)
  : result (list string) :=
  match fs with
  | [] => Returned []
  | f :: fs' =>
      match MCPServer.get_file server (MCPServer.sm_id f) with
      | inl info =>
          match contents server fs' with
          | Returned r => Returned (fi_content info :: r)
          | Failed e => Failed e
          end
      | inr _ => Failed (Exn "KeyError" "'content'")
      end
  end.

(** [{f["id"] for f in files}] *)
Definition ids_of (files : list MCPServer.file_summary) : gset string :=
  list_to_set (map MCPServer.sm_id files).

(** The start-up handler [build_index]. *)
Definition build_index : M t unit :=
  do a <- get ;;
  let files := MCPServer.list_files (mcp_server a) in
  do documents <- call (contents (mcp_server a) files) ;;
  run modify (set_ingested_files (ids_of files)) ;;
  match documents with
  | [] => ret tt
  | _ :: _ => on_mcp (MCPWrapperOllama.ingest_documents documents true)
  end.

(** The files of [files] whose id is in [new_files], in the order of
    [files]. *)
Definition files_in (new_files : gset string)
           (files : list MCPServer.file_summary)
  : list MCPServer.file_summary :=
  List.filter (fun f => bool_decide (MCPServer.sm_id f ∈ new_files)) files.

(** The head of [send_message]: detection and ingestion of new documents. *)
Definition sync_new_documents : M t unit :=
  do a <- get ;;
  let files := MCPServer.list_files (mcp_server a) in
  let current_file_ids := ids_of files in
  let new_files := current_file_ids ∖ ingested_files a in
  if bool_decide (new_files ≠ ∅) then
    do new_docs <- call (contents (mcp_server a) (files_in new_files files)) ;;
    run on_mcp (MCPWrapperOllama.ingest_documents new_docs false) ;;
    modify (set_ingested_files current_file_ids)
  else ret tt.

(** [send_message], the rendering of the page left out: the reply. *)
Definition send_message (user_input : string) : M t string :=
  run sync_new_documents ;;
  do response <- on_mcp (MCPWrapperOllama.query user_input (7 # 10) (5 # 10) 5) ;;
  run modify (fun a =>
        set_chat_history (chat_history a ++ [(user_input, response)]) a) ;;
  ret response.

(** [upload_file] once the upload is on disk at [file_location]. *)
Definition upload_file (file_location : string) : M t (dict pyval) :=
  on_mcp_server (MCPServer.ingest_file file_location None).

(** The state-changing entry points, for sequences of operations. *)
Inductive op :=
| OpIngestFile (file_path : string) (metadata : option (dict string))
| OpAddDocuments (docs : list string)
| OpIngestDocuments (documents : list string) (refresh : bool)
| OpBuildIndex
| OpSync.

Definition run_op (o : op) : M t unit :=
  match o with
  | OpIngestFile p m => run on_mcp_server (MCPServer.ingest_file p m) ;; ret tt
  | OpAddDocuments docs =>
      on_mcp_server (MCPServer.on_vector_index (VectorIndex.add_documents docs))
  | OpIngestDocuments docs refresh =>
      on_mcp (MCPWrapperOllama.ingest_documents docs refresh)
  | OpBuildIndex => build_index
  | OpSync => sync_new_documents
  end.

(** A sequence of operations, stopped by the first one that does not
    complete. *)
Fixpoint run_ops (os : list op) : M t unit :=
  match os with
  | [] => ret tt
  | o :: os' => run run_op o ;; run_ops os'
  end.


(** Both index/chunk-list pairs of the application are in step. *)
Definition aligned (a : t) : Prop :=
  MCPWrapperOllama.aligned (mcp a)
  /\ VectorIndex.aligned (MCPServer.vector_index (mcp_server a)).

(** [result.get('status', result.get('error'))] *)
Definition status_or_error (result : dict pyval) : option pyval :=
  match dict_get "status" result with
  | Some v => Some v
  | None => dict_get "error" result
  end.

(** The value as an f-string prints it. *)
Definition format_value (v : option pyval) : string :=
  match v with
  | Some (PStr s) => s
  | Some (PInt z) => str_of_int z
  | None => "None"
  end.

(** The route [upload_file], the upload being on disk: the status line of
    the page. *)
Definition upload (filename : string) : M t string :=
  let file_location := "mcp_storage/" +:+ filename in
  do result <- on_mcp_server (MCPServer.ingest_file file_location None) ;;
  ret ("File '" +:+ filename +:+ "' uploaded and ingested. Status: "
       +:+ format_value (status_or_error result)).

End Defs.
End App.

(* ===================================================================== *)
(** * The specification's vocabulary *)
(* ===================================================================== *)

(** Definitions written from the words of the specification, to which the
    code above is compared. *)
Module Spec.

(** Number of windows over [n] tokens with a stride of [stride] tokens. *)
Definition window_count (n stride : nat) : nat := ((n + stride - 1) / stride)%nat.

(** The [k]-th window: [size] consecutive tokens from token [k * stride],
    fewer at the end of the text. *)
Definition window (words : list string) (size stride k : nat) : list string :=
  take size (drop (k * stride) words).

Definition windows (words : list string) (size stride : nat)
  : list (list string) :=
  map (window words size stride) (seq 0 (window_count (length words) stride)).

Inductive mode := STRICT_GROUNDED | HYBRID_GROUNDED | UNGROUNDED.

(** Classification by the best score, higher scores meaning more similar. *)
Definition classify (strong weak best : Q) : mode :=
  if Qle_bool strong best then STRICT_GROUNDED
  else if Qle_bool weak best then HYBRID_GROUNDED
  else UNGROUNDED.

(** The score that decides the mode once scores equal to [-1] count as
    fillers: the first score of the row that is not [-1]. *)
Fixpoint deciding_score (row : list Q) : option Q :=
  match row with
  | [] => None
  | score :: rest =>
      if Qeq_bool score (-1) then deciding_score rest else Some score
  end.

(** The context of a prompt: the chunk texts, a blank line between them. *)
Definition joined_chunks (chunks : list string) : string :=
  join (nl +:+ nl) chunks.

(** The literal prompt templates. *)
Definition template (m : mode) (question : string) (chunks : list string)
  : string :=
  match m with
  | STRICT_GROUNDED =>
      "Context:" +:+ nl +:+ joined_chunks chunks +:+ nl +:+ nl
      +:+ "Question:" +:+ nl +:+ question +:+ nl +:+ "Answer:"
  | HYBRID_GROUNDED =>
      "Use the following context if relevant, but also apply your own reasoning:"
      +:+ nl +:+ joined_chunks chunks +:+ nl +:+ nl
      +:+ "Question:" +:+ nl +:+ question +:+ nl +:+ "Answer:"
  | UNGROUNDED =>
      "Question:" +:+ nl +:+ question +:+ nl +:+ "Answer:"
  end.

(** The direction of a similarity metric. *)
Inductive metric := HigherIsBetter | LowerIsBetter.

(** A score meets a threshold relative to the direction of the metric. *)
Definition meets (m : metric) (score threshold : Q) : bool :=
  match m with
  | HigherIsBetter => Qle_bool threshold score
  | LowerIsBetter => Qle_bool score threshold
  end.

(** Classification with a pluggable comparator. *)
Definition classify_by (m : metric) (strong weak best : Q) : mode :=
  if meets m best strong then STRICT_GROUNDED
  else if meets m best weak then HYBRID_GROUNDED
  else UNGROUNDED.


(** A row of scores ranked best first for the metric. *)
Fixpoint ranked_best_first (m : metric) (scores : list Q) : Prop :=
  match scores with
  | [] => True
  | s :: rest =>
      Forall (fun s' => meets m s s' = true) rest /\ ranked_best_first m rest
  end.

End Spec.

(* ===================================================================== *)
(** * Concrete collaborators *)
(* ===================================================================== *)

(** Small instances of the interfaces, on which the statements below are
    exercised. *)
Module Demo.

(** Texts are their own vectors; no call fails. *)
Definition embedding : EmbeddingGateway :=
  {| vec := string;
     embed := fun s => s;
     normalize_L2 := fun v => v;
     encode_error := fun _ => None |}.

(** A cosine-like index: the first stored vector is the only neighbour, with
    score 0.85. *)
Definition cosine_index : @SimilarityIndex embedding :=
  {| search_ip := fun _ _ _ => ([85 # 100; 0 # 1], [0; -1]);
     search_l2 := fun _ _ _ => ([1 # 10], [0]) |}.

(** An index that answers with distances: the first stored vector at
    distance 0.1. *)
Definition distance_index : @SimilarityIndex embedding :=
  {| search_ip := fun _ _ _ => ([1 # 10], [0]);
     search_l2 := fun _ _ _ => ([1 # 10], [0]) |}.

(** An index that pads its rows: one neighbour at distance 0.1, then the
    filler position [-1]. *)
Definition padded_index : @SimilarityIndex embedding :=
  {| search_ip := fun _ _ _ => ([85 # 100; -1 # 1], [0; -1]);
     search_l2 := fun _ _ _ => ([1 # 10; 9 # 1], [0; -1]) |}.


(** The embedding step with the numeric library's failure on the empty
    batch of a document without words. *)
Definition numeric : EmbeddingGateway :=
  {| vec := string;
     embed := fun s => s;
     normalize_L2 := fun v => v;
     encode_error := fun batch =>
       match batch with
       | [] => Some (Exn "IndexError" "tuple index out of range")
       | _ :: _ => None
       end |}.

(** An embedder that fails on the batch [["boom"]]. *)
Definition flaky : EmbeddingGateway :=
  {| vec := string;
     embed := fun s => s;
     normalize_L2 := fun v => v;
     encode_error := fun batch =>
       match batch with
       | [b] => if String.eqb b "boom"
                then Some (Exn "RuntimeError" "embedder down") else None
       | _ => None
       end |}.

Definition flaky_index : @SimilarityIndex flaky :=
  {| search_ip := fun _ _ _ => ([85 # 100; 0 # 1], [0; -1]);
     search_l2 := fun _ _ _ => ([1 # 10], [0]) |}.

(** A wrapper over the failing embedder that has ingested one document. *)
Definition flaky_loaded : @MCPWrapperOllama.t flaky :=
  fst (@MCPWrapperOllama.ingest_documents flaky ["alpha beta gamma"] true
         (MCPWrapperOllama.init "llama3.2:3b-8k" 2)).

(** A wrapper with content whose [chunk_size] is zero. *)
Definition zero_sized : @MCPWrapperOllama.t embedding :=
  @MCPWrapperOllama.Mk embedding "llama3.2:3b-8k" 0 (Some ["old text"])
    ["old text"] [].

Definition echo : GenerationGateway :=
  {| generate := fun _ prompt _ => Returned ("echo " +:+ prompt) |}.

Definition unavailable : GenerationGateway :=
  {| generate := fun _ _ _ =>
       Failed (Exn "ConnectionError" "Failed to connect to Ollama") |}.

(** Two text files with the same bytes, and nothing else. *)
Definition is_stored (p : string) : bool :=
  String.eqb p "mcp_storage/a.txt" || String.eqb p "mcp_storage/b.txt".

Definition disk : FileSystem :=
  {| path_exists := is_stored;
     open_rb := fun p =>
       if is_stored p
       then Returned (ReadBlock [Byte.x61; Byte.x20; Byte.x62] ReadEnd)
       else Failed (Exn "FileNotFoundError" p);
     sha256_hexdigest := fun b => "sha" +:+ str_of_int (Z.of_nat (length b));
     stat_st_size := fun p =>
       if is_stored p then Returned 3
       else Failed (Exn "FileNotFoundError" p);
     guess_type := fun _ => Some "text/plain";
     path_str := fun p => p;
     path_name := fun p => p;
     path_suffix := fun _ => ".txt";
     path_absolute := fun p => p;
     pdf_pages := fun p => Failed (Exn "PdfReadError" p);
     open_read := fun _ _ => ReadOk "a b";
     now_isoformat := "2025-01-01T00:00:00";
     dump_error := fun _ => None |}.

(** A disk holding one file that is neither PDF nor text. *)
Definition blob_disk : FileSystem :=
  {| path_exists := fun _ => true;
     open_rb := fun _ => Returned (ReadBlock [Byte.x00; Byte.xff] ReadEnd);
     sha256_hexdigest := fun b => "sha" +:+ str_of_int (Z.of_nat (length b));
     stat_st_size := fun _ => Returned 2;
     guess_type := fun _ => None;
     path_str := fun p => p;
     path_name := fun p => p;
     path_suffix := fun _ => ".BIN";
     path_absolute := fun p => p;
     pdf_pages := fun p => Failed (Exn "PdfReadError" p);
     open_read := fun _ _ => ReadUnicodeDecodeError;
     now_isoformat := "2025-01-01T00:00:00";
     dump_error := fun _ => Some (Exn "OSError" "disk full") |}.

(** A disk on which every file exists and none can be opened. *)
Definition locked_disk : FileSystem :=
  {| path_exists := fun _ => true;
     open_rb := fun p => Failed (Exn "PermissionError" p);
     sha256_hexdigest := fun b => "sha" +:+ str_of_int (Z.of_nat (length b));
     stat_st_size := fun _ => Returned 7;
     guess_type := fun _ => Some "text/plain";
     path_str := fun p => p;
     path_name := fun p => p;
     path_suffix := fun _ => ".txt";
     path_absolute := fun p => p;
     pdf_pages := fun p => Failed (Exn "PermissionError" p);
     open_read := fun p _ => ReadError (Exn "PermissionError" p);
     now_isoformat := "2025-01-01T00:00:00";
     dump_error := fun _ => None |}.

(** A disk with the device [/dev/zero], whose reads never reach the end. *)
Definition device_disk : FileSystem :=
  {| path_exists := fun _ => true;
     open_rb := fun _ => Returned (ReadForever [Byte.x00]);
     sha256_hexdigest := fun b => "sha" +:+ str_of_int (Z.of_nat (length b));
     stat_st_size := fun _ => Returned 0;
     guess_type := fun _ => None;
     path_str := fun p => p;
     path_name := fun p => p;
     path_suffix := fun _ => "";
     path_absolute := fun p => p;
     pdf_pages := fun p => Failed (Exn "PdfReadError" p);
     open_read := fun _ _ => ReadUnicodeDecodeError;
     now_isoformat := "2025-01-01T00:00:00";
     dump_error := fun _ => None |}.

(** A disk whose text files hold two spaces and nothing else. *)
Definition blank_disk : FileSystem :=
  {| path_exists := fun _ => true;
     open_rb := fun _ => Returned (ReadBlock [Byte.x20; Byte.x20] ReadEnd);
     sha256_hexdigest := fun b => "sha" +:+ str_of_int (Z.of_nat (length b));
     stat_st_size := fun _ => Returned 2;
     guess_type := fun _ => Some "text/plain";
     path_str := fun p => p;
     path_name := fun p => p;
     path_suffix := fun _ => ".txt";
     path_absolute := fun p => p;
     pdf_pages := fun p => Failed (Exn "PdfReadError" p);
     open_read := fun _ _ => ReadOk "  ";
     now_isoformat := "2025-01-01T00:00:00";
     dump_error := fun _ => None |}.

(** The server after the ingestion of the first file. *)
Definition server_a : @MCPServer.t embedding :=
  fst (@MCPServer.ingest_file embedding disk "mcp_storage/a.txt" None
         (MCPServer.init [])).

(** The application after the upload of the first file. *)
Definition app_uploaded : @App.t embedding :=
  fst (@App.upload_file embedding disk "mcp_storage/a.txt"
         (App.init [])).

(** A sequence of operations of every kind. *)
Definition session : list App.op :=
  [App.OpIngestFile "mcp_storage/a.txt" None;
   App.OpSync;
   App.OpIngestFile "mcp_storage/b.txt" None;
   App.OpAddDocuments ["loose text"];
   App.OpIngestDocuments ["one two three"; "four"] false;
   App.OpSync;
   App.OpBuildIndex].

(** A wrapper with windows of two words that has ingested one document. *)
Definition wrapper_loaded : @MCPWrapperOllama.t embedding :=
  fst (@MCPWrapperOllama.ingest_documents embedding ["alpha beta gamma"] true
         (MCPWrapperOllama.init "llama3.2:3b-8k" 2)).

End Demo.

(* ===================================================================== *)
(** * Facts about the Python primitives *)
(* ===================================================================== *)

Lemma bind_ok {S A B} (m : M S A) (k : A -> M S B) s s' a :
  m s = (s', Ok a) -> bind m k s = k a s'.
Proof. intros E. unfold bind. now rewrite E. Qed.

Lemma bind_raise {S A B} (m : M S A) (k : A -> M S B) s s' e :
  m s = (s', Raise e) -> bind m k s = (s', Raise e).
Proof. intros E. unfold bind. now rewrite E. Qed.

Lemma bind_inv_ok {S A B} (m : M S A) (k : A -> M S B) s s' b :
  bind m k s = (s', Ok b) ->
  exists s1 a, m s = (s1, Ok a) /\ k a s1 = (s', Ok b).
Proof.
  unfold bind. destruct (m s) as [s1 [a|e|]]; intros E; try discriminate.
  eauto.
Qed.

Lemma slice_window {A} (xs : list A) (i size : Z) :
  0 <= i < Z.of_nat (length xs) -> 1 <= size ->
  slice xs i (i + size) = take (Z.to_nat size) (drop (Z.to_nat i) xs).
Proof.
  intros Hi Hs. unfold slice, slice_bound.
  destruct (Z.ltb_spec i 0); [lia|].
  destruct (Z.ltb_spec (i + size) 0); [lia|].
  rewrite (Z.min_l i) by lia.
  destruct (Z.le_ge_cases (i + size) (Z.of_nat (length xs))) as [Hle|Hge].
  - rewrite Z.min_l by lia. f_equal. lia.
  - rewrite Z.min_r by lia.
    rewrite !take_ge; [reflexivity| |]; rewrite length_drop; lia.
Qed.

Lemma window_count_gt (n stride k : nat) :
  (1 <= stride)%nat ->
  (k < Spec.window_count n stride)%nat <-> (k * stride < n)%nat.
Proof.
  intros Hs. unfold Spec.window_count. split; intros H.
  - destruct (Nat.lt_ge_cases (k * stride) n) as [|Hge]; [assumption|].
    exfalso.
    assert ((n + stride - 1) / stride < S k)%nat; [|lia].
    apply Nat.Div0.div_lt_upper_bound. nia.
  - assert (S k <= (n + stride - 1) / stride)%nat; [|lia].
    apply Nat.div_le_lower_bound; nia.
Qed.

Lemma window_count_le (n stride : nat) :
  (1 <= stride)%nat -> (Spec.window_count n stride <= n)%nat.
Proof.
  intros Hs.
  destruct (Nat.le_gt_cases (Spec.window_count n stride) n) as [|Hgt];
    [assumption|].
  apply window_count_gt in Hgt; [nia|assumption].
Qed.

Lemma split_from_nonempty (s cur : string) :
  Forall (fun w => w <> "") (split_from cur s).
Proof.
  revert cur. induction s as [|c s IH]; intros cur; simpl.
  - destruct (String.eqb_spec cur ""); auto.
  - destruct (is_space c).
    + destruct (String.eqb_spec cur ""); auto.
    + apply IH.
Qed.

Lemma split_nonempty (s : string) : Forall (fun w => w <> "") (split s).
Proof. apply split_from_nonempty. Qed.

Lemma join_nonempty (sep : string) (xs : list string) :
  xs <> [] -> Forall (fun w => w <> "") xs -> join sep xs <> "".
Proof.
  destruct xs as [|x xs]; [congruence|]. intros _ H.
  apply Forall_cons_1 in H as [Hx _]. unfold join. simpl.
  destruct x as [|c x]; [congruence|].
  destruct xs as [|y ys]; [discriminate|].
  change (String c x ++ sep ++ String.concat sep (y :: ys) <> "")%string.
  discriminate.
Qed.

(* ===================================================================== *)
(** * The chunker of [MCPServer] *)
(* ===================================================================== *)

Section Chunker.
Import MCPServer.
Variables (words : list string) (chunk_size overlap : Z).
Variables (fid fname ftype : option string).

Abbreviation loop fuel :=
  (chunk_loop fuel words chunk_size overlap fid fname ftype) (only parsing).
Abbreviation mk :=
  (fun w : list string => ChunkInfo (join " " w) fid fname ftype)
  (only parsing).

(** More fuel does not change the result of a loop that has finished. *)
Lemma chunk_loop_fuel_mono (fuel fuel' : nat) (i : Z) acc r :
  (fuel <= fuel')%nat -> loop fuel i acc = Some r -> loop fuel' i acc = Some r.
Proof.
  revert fuel' i acc.
  induction fuel as [|fuel IH]; intros fuel' i acc Hle H; [discriminate|].
  destruct fuel' as [|fuel']; [lia|]. simpl in *.
  destruct (i <? Z.of_nat (length words)); [|assumption].
  apply IH; [lia|assumption].
Qed.

(** With a stride of at least one token and a window of at least one token
    the loop emits the windows of the specification one after the other. *)
Lemma chunk_loop_windows (m k fuel : nat) acc :
  1 <= chunk_size -> 1 <= chunk_size - overlap ->
  Spec.window_count (length words) (Z.to_nat (chunk_size - overlap))
    = (k + m)%nat ->
  (m < fuel)%nat ->
  loop fuel (Z.of_nat (k * Z.to_nat (chunk_size - overlap))) acc
  = Some (acc ++ map mk (map (Spec.window words (Z.to_nat chunk_size)
                                (Z.to_nat (chunk_size - overlap)))
                             (seq k m))).
Proof.
  intros Hsz Hst.
  assert (chunk_size - overlap = Z.of_nat (Z.to_nat (chunk_size - overlap)))
    as Est by lia.
  assert (1 <= Z.to_nat (chunk_size - overlap))%nat as Hst' by lia.
  revert Est Hst'. generalize (Z.to_nat (chunk_size - overlap)) as st.
  intros st Est Hst'. revert k fuel acc.
  induction m as [|m IH]; intros k fuel acc Hc Hf;
    (destruct fuel as [|fuel]; [lia|]); simpl.
  - assert (~ (k < Spec.window_count (length words) st)%nat) as Hk by lia.
    rewrite window_count_gt in Hk by lia.
    destruct (Z.ltb_spec (Z.of_nat (k * st)) (Z.of_nat (length words)));
      [lia|].
    now rewrite app_nil_r.
  - assert (k < Spec.window_count (length words) st)%nat as Hk by lia.
    rewrite window_count_gt in Hk by lia.
    destruct (Z.ltb_spec (Z.of_nat (k * st)) (Z.of_nat (length words)));
      [|lia].
    rewrite slice_window by lia.
    replace (Z.of_nat (k * st) + (chunk_size - overlap))
      with (Z.of_nat (S k * st)) by lia.
    rewrite IH by lia.
    rewrite <- app_assoc. simpl. rewrite Nat2Z.id. reflexivity.
Qed.

(** With a stride of at least one token the loop finishes within
    [len(words) - i] rounds, whatever the window size. *)
Lemma chunk_loop_finishes (fuel : nat) (i : Z) acc :
  1 <= chunk_size - overlap ->
  (Z.to_nat (Z.of_nat (length words) - i) < fuel)%nat ->
  exists r, loop fuel i acc = Some r.
Proof.
  intros Hst. revert i acc.
  induction fuel as [|fuel IH]; intros i acc Hf; [lia|]. simpl.
  destruct (Z.ltb_spec i (Z.of_nat (length words))); [|eauto].
  apply IH. lia.
Qed.

(** With a stride of zero or less the loop never leaves a position below
    [len(words)]. *)
Lemma chunk_loop_spins (fuel : nat) (i : Z) acc :
  chunk_size - overlap <= 0 -> i < Z.of_nat (length words) ->
  loop fuel i acc = None.
Proof.
  intros Hst. revert i acc.
  induction fuel as [|fuel IH]; intros i acc Hi; [reflexivity|]. simpl.
  destruct (Z.ltb_spec i (Z.of_nat (length words))); [|lia].
  apply IH. lia.
Qed.

End Chunker.

Lemma window_length (words : list string) (size stride k : nat) :
  length (Spec.window words size stride k)
  = Nat.min size (length words - k * stride).
Proof. unfold Spec.window. now rewrite length_take, length_drop. Qed.

(** C4.  For a window of at least one token and an overlap below the window
    size, [chunk_text] splits the text on whitespace and returns, in order,
    the windows of [chunk_size] consecutive words that start every
    [chunk_size - overlap] words, the last ones being cut at the end of the
    text, each with the lineage it was given; enough fuel is one round more
    than the number of words.  On ["a b c d e"] with windows of 2 words this
    gives ["a b"; "c d"; "e"] without overlap and, with an overlap of 1,
    windows that start one word apart. *)
Theorem chunk_text_sliding_windows :
  (forall (text : string) (chunk_size overlap : Z)
          (fid fname ftype : option string) (fuel : nat),
      1 <= chunk_size -> overlap < chunk_size ->
      (length (split text) < fuel)%nat ->
      MCPServer.chunk_text fuel text chunk_size overlap fid fname ftype
      = Some (map (fun w => MCPServer.ChunkInfo (join " " w) fid fname ftype)
                  (Spec.windows (split text) (Z.to_nat chunk_size)
                                (Z.to_nat (chunk_size - overlap)))))
  /\ (forall fid fname ftype,
         MCPServer.chunk_text 6%nat "a b c d e" 2 0 fid fname ftype
         = Some (map (fun s => MCPServer.ChunkInfo s fid fname ftype)
                     ["a b"; "c d"; "e"]))
  /\ (forall fid fname ftype,
         MCPServer.chunk_text 6%nat "a b c d e" 2 1 fid fname ftype
         = Some (map (fun s => MCPServer.ChunkInfo s fid fname ftype)
                     ["a b"; "b c"; "c d"; "d e"; "e"])).
Proof.
  split; [|split; reflexivity].
  intros text chunk_size overlap fid fname ftype fuel Hsz Hov Hf.
  unfold MCPServer.chunk_text, Spec.windows.
  pose proof (window_count_le (length (split text))
                (Z.to_nat (chunk_size - overlap)) ltac:(lia)) as Hle.
  pose proof (chunk_loop_windows (split text) chunk_size overlap fid fname
                ftype (Spec.window_count (length (split text))
                         (Z.to_nat (chunk_size - overlap))) 0 fuel []
                Hsz ltac:(lia) eq_refl ltac:(lia)) as H.
  change (Z.of_nat (0 * Z.to_nat (chunk_size - overlap))) with 0 in H.
  rewrite H. simpl. now rewrite map_map.
Qed.

Lemma chunk_text_sliding_windows_witness :
  1 <= 3 /\ 1 < 3 /\
  MCPServer.chunk_text 8%nat "the quick brown fox jumps over it" 3 1
    (Some "id") None None
  = Some (map (fun w => MCPServer.ChunkInfo (join " " w) (Some "id") None None)
              (Spec.windows (split "the quick brown fox jumps over it")
                 (Z.to_nat 3) (Z.to_nat (3 - 1)))).
Proof.
  split; [lia|]. split; [lia|].
  apply (proj1 chunk_text_sliding_windows
           "the quick brown fox jumps over it" 3 1 (Some "id") None None
           8%nat);
    [lia | lia | vm_compute; lia].
Defined.

Lemma chunk_text_finishes (text : string) (chunk_size overlap : Z)
      (fid fname ftype : option string) :
  overlap < chunk_size \/ split text = [] ->
  exists chunks, forall fuel, (length (split text) < fuel)%nat ->
    MCPServer.chunk_text fuel text chunk_size overlap fid fname ftype
    = Some chunks.
Proof.
  unfold MCPServer.chunk_text. intros [Hov|He].
  - destruct (chunk_loop_finishes (split text) chunk_size overlap fid fname
                ftype (S (length (split text))) 0 []) as [r Hr]; [lia|lia|].
    exists r. intros fuel Hf.
    eapply chunk_loop_fuel_mono; [|exact Hr]. lia.
  - rewrite He. exists []. intros [|fuel] Hf; [simpl in Hf; lia|reflexivity].
Qed.

Lemma chunk_text_spins (text : string) (chunk_size overlap : Z)
      (fid fname ftype : option string) (fuel : nat) :
  chunk_size <= overlap -> split text <> [] ->
  MCPServer.chunk_text fuel text chunk_size overlap fid fname ftype = None.
Proof.
  unfold MCPServer.chunk_text. intros Hov Hne.
  apply chunk_loop_spins; [lia|].
  destruct (split text); [congruence|simpl; lia].
Qed.

(** C5 as amended.  [chunk_text] neither rejects nor clamps an overlap that
    reaches the window size.  It finishes (one round more than the number of
    words is enough fuel) when the overlap is below the window size, and
    when the text has no word; for an overlap of at least the window size
    and a text with a word, no amount of fuel lets the loop finish. *)
Theorem chunk_text_finishes_iff_stride_positive
        (text : string) (chunk_size overlap : Z)
        (fid fname ftype : option string) :
  (overlap < chunk_size \/ split text = [] ->
   exists chunks, forall fuel, (length (split text) < fuel)%nat ->
     MCPServer.chunk_text fuel text chunk_size overlap fid fname ftype
     = Some chunks)
  /\ (chunk_size <= overlap -> split text <> [] ->
      forall fuel,
        MCPServer.chunk_text fuel text chunk_size overlap fid fname ftype
        = None).
Proof.
  split.
  - apply chunk_text_finishes.
  - intros Hov Hne fuel. now apply chunk_text_spins.
Qed.

Lemma chunk_text_finishes_witness :
  exists chunks, forall fuel, (1 < fuel)%nat ->
    MCPServer.chunk_text fuel "a" 1 0 None None None = Some chunks.
Proof.
  destruct (proj1 (chunk_text_finishes_iff_stride_positive
                     "a" 1 0 None None None)) as [chunks H].
  - left. lia.
  - exists chunks. exact H.
Defined.

(** Against C5 as stated: with a window of one word and an overlap of one
    word the loop over the one-word text ["a"] does not finish, whatever the
    fuel. *)
Lemma chunk_text_overlap_not_clamped :
  ~ exists fuel chunks,
      MCPServer.chunk_text fuel "a" 1 1 None None None = Some chunks.
Proof.
  intros (fuel & chunks & H).
  rewrite chunk_text_spins in H; [discriminate|lia|discriminate].
Qed.

(* ===================================================================== *)
(** * State changes that keep a property *)
(* ===================================================================== *)

Lemma keeps_ret {S A} (P : S -> Prop) (a : A) : keeps P (ret a).
Proof. intros s H. exact H. Qed.

Lemma keeps_raise {S A} (P : S -> Prop) e : keeps P (@raise S A e).
Proof. intros s H. exact H. Qed.

Lemma keeps_get {S} (P : S -> Prop) : keeps P get.
Proof. intros s H. exact H. Qed.

Lemma keeps_call {S A} (P : S -> Prop) (r : result A) : keeps P (call r).
Proof. intros s H. unfold call. now destruct r. Qed.

Lemma keeps_run_loop {S A} (P : S -> Prop) (o : option A) :
  keeps P (run_loop o).
Proof. intros s H. unfold run_loop. now destruct o. Qed.

Lemma keeps_modify {S} (P : S -> Prop) (f : S -> S) :
  (forall s, P s -> P (f s)) -> keeps P (modify f).
Proof. intros Hf s H. simpl. auto. Qed.

Lemma keeps_bind {S A B} (P : S -> Prop) (m : M S A) (k : A -> M S B) :
  keeps P m -> (forall a, keeps P (k a)) -> keeps P (bind m k).
Proof.
  intros Hm Hk s H. unfold bind. specialize (Hm s H).
  destruct (m s) as [s' [a|e|]]; simpl in *; auto. now apply Hk.
Qed.

Lemma keeps_try_except {S A} (P : S -> Prop) (m : M S A) (h : exn -> M S A) :
  keeps P m -> (forall e, keeps P (h e)) -> keeps P (try_except m h).
Proof.
  intros Hm Hh s H. unfold try_except. specialize (Hm s H).
  destruct (m s) as [s' [a|e|]]; simpl in *; auto. now apply Hh.
Qed.

Lemma keeps_for_fold {S A B} (P : S -> Prop) (xs : list A) (acc : B)
      (body : B -> A -> M S B) :
  (forall b x, keeps P (body b x)) -> keeps P (for_fold xs acc body).
Proof.
  intros Hb. revert acc. induction xs as [|x xs IH]; intros acc; simpl.
  - apply keeps_ret.
  - apply keeps_bind; auto.
Qed.

Lemma keeps_zoom {S T A} (P : S -> Prop) (Q : T -> Prop)
      (proj : T -> S) (inj : S -> T -> T) (m : M S A) :
  (forall t, Q t -> P (proj t)) ->
  (forall s t, Q t -> P s -> Q (inj s t)) ->
  keeps P m -> keeps Q (zoom proj inj m).
Proof.
  intros Hp Hi Hm t H. unfold zoom. specialize (Hm (proj t) (Hp t H)).
  destruct (m (proj t)) as [s' o]. simpl in *. auto.
Qed.

Create HintDb keeps.
#[local] Hint Resolve keeps_ret keeps_raise keeps_get keeps_call keeps_run_loop
  keeps_modify keeps_bind keeps_try_except keeps_for_fold : keeps.

(* ===================================================================== *)
(** * [MCPWrapperOllama]: chunks, index and chunk list *)
(* ===================================================================== *)

Section WrapperChunks.
Import MCPWrapperOllama.

Lemma range0_below (n : nat) (step : Z) (starts : list nat) :
  range0 n step = Returned starts ->
  Forall (fun i => (i < n)%nat /\ 0 < step) starts.
Proof.
  unfold range0. destruct (Z.eqb_spec step 0); [discriminate|].
  destruct (Z.ltb_spec step 0); intros E; inversion E; subst; [constructor|].
  apply Forall_forall. intros i Hi.
  apply list_elem_of_fmap in Hi as (k & -> & Hk).
  apply elem_of_seq in Hk. split; [|lia].
  apply (window_count_gt n (Z.to_nat step) k); [lia|].
  unfold Spec.window_count. lia.
Qed.

(** Every chunk holds at least one word: no chunk is the empty string. *)
Lemma chunk_text_nonempty (size : Z) (text : string) (chunks : list string) :
  chunk_text size text = Returned chunks ->
  Forall (fun c => c <> "") chunks.
Proof.
  unfold chunk_text.
  destruct (range0 (length (split text)) size) as [starts|e] eqn:E;
    [|discriminate].
  intros H. inversion H; subst; clear H.
  apply range0_below in E. apply Forall_forall. intros c Hc.
  apply list_elem_of_fmap in Hc as (i & -> & Hi).
  rewrite Forall_forall in E. destruct (E i Hi) as [Hlt Hpos].
  rewrite slice_window by lia.
  apply join_nonempty.
  - rewrite Nat2Z.id. intros Hnil.
    apply (f_equal (@length string)) in Hnil.
    rewrite length_take, length_drop in Hnil. simpl in Hnil. lia.
  - apply Forall_take, Forall_drop, split_nonempty.
Qed.

End WrapperChunks.

Section WrapperState.
Context `{EG : EmbeddingGateway} `{SI : !SimilarityIndex}
        `{GG : GenerationGateway}.
Import MCPWrapperOllama.

Lemma ingest_one_keeps_nonempty embeddings doc :
  keeps (fun s => Forall (fun c => c <> "") (doc_chunks s))
        (ingest_one embeddings doc).
Proof.
  intros s H. unfold ingest_one, embedder_encode, bind, get, call, modify.
  destruct (chunk_text (chunk_size s) doc) as [chunks|e] eqn:E; simpl; auto.
  apply chunk_text_nonempty in E.
  destruct (encode chunks); simpl; apply Forall_app; auto.
Qed.

(** A loop over the documents that completes has chunked every document,
    appended the chunks to [doc_chunks] in order, handed one batch per
    document to the embedder, and left the index alone. *)
Lemma ingest_loop_ok docs acc s s' embs :
  for_fold docs acc ingest_one s = (s', Ok embs) ->
  exists batches,
    chunked (chunk_size s) docs batches
    /\ s' = Mk (model_name s) (chunk_size s) (index s)
               (doc_chunks s ++ concat batches)
               (encode_calls s ++ batches)
    /\ embs = acc ++ map (map chunk_vector) batches.
Proof.
  revert acc s. induction docs as [|doc docs IH]; intros acc s H; simpl in H.
  - inversion H; subst. exists []. repeat split.
    + constructor.
    + destruct s'; simpl. now rewrite !app_nil_r.
    + now rewrite app_nil_r.
  - apply bind_inv_ok in H as (s1 & embs1 & H1 & H2).
    unfold ingest_one, embedder_encode, bind, get, call, modify in H1.
    destruct (chunk_text (chunk_size s) doc) as [chunks|e] eqn:E;
      [|discriminate].
    unfold encode in H1. simpl in H1.
    destruct (encode_error chunks); [discriminate|].
    inversion H1; subst; clear H1.
    apply IH in H2 as (batches & Hb & -> & ->). simpl in *.
    exists (chunks :: batches). repeat split.
    + constructor; assumption.
    + simpl. now rewrite <- !app_assoc.
    + simpl. rewrite <- app_assoc. simpl. unfold chunk_vector.
      now rewrite map_map.
Qed.

(** What a completed [ingest_documents] has done. *)
Lemma ingest_documents_ok docs refresh s s' :
  ingest_documents docs refresh s = (s', Ok tt) ->
  exists batches,
    chunked (chunk_size s) docs batches
    /\ doc_chunks s' = (if refresh then [] else doc_chunks s) ++ concat batches
    /\ vectors s' = (if refresh then [] else vectors s)
                    ++ map chunk_vector (concat batches)
    /\ encode_calls s' = encode_calls s ++ batches
    /\ model_name s' = model_name s /\ chunk_size s' = chunk_size s.
Proof.
  unfold ingest_documents. intros H.
  apply bind_inv_ok in H as (s0 & [] & H0 & H).
  assert (s0 = if refresh then index_reset (set_doc_chunks [] s) else s) as ->.
  { destruct refresh; simpl in H0; inversion H0; reflexivity. }
  clear H0.
  apply bind_inv_ok in H as (s1 & embs & H1 & H).
  apply ingest_loop_ok in H1 as (batches & Hb & -> & ->).
  exists batches.
  assert (concat (map (map chunk_vector) batches)
          = map chunk_vector (concat batches)) as Hc.
  { clear. induction batches as [|b bs IH]; simpl; [reflexivity|].
    now rewrite map_app, IH. }
  destruct batches as [|b bs].
  - simpl in H. inversion H; subst; clear H.
    destruct refresh; simpl; unfold vectors; simpl;
      repeat split; auto; rewrite ?app_nil_r; auto;
      destruct (index s); auto.
  - unfold _ensure_index, bind, get, modify in H.
    simpl in H, Hc. rewrite Hc in H. clear Hc.
    destruct refresh; simpl in *;
      destruct (index s) eqn:Ei; simpl in *; inversion H; subst; clear H;
      unfold vectors; simpl; rewrite ?Ei; repeat split; auto.
Qed.

(** Whatever its outcome, the loop over the documents has called the
    embedder on the chunk lists of the first documents only, in order, and
    has appended exactly those chunks; it does not touch the index. *)
Lemma ingest_loop_any docs acc s s' o :
  for_fold docs acc ingest_one s = (s', o) ->
  exists n batches,
    chunked (chunk_size s) (take n docs) batches
    /\ s' = Mk (model_name s) (chunk_size s) (index s)
               (doc_chunks s ++ concat batches)
               (encode_calls s ++ batches).
Proof.
  revert acc s. induction docs as [|doc docs IH]; intros acc s H; simpl in H.
  - inversion H; subst. exists 0%nat, []. split; [constructor|].
    destruct s'; simpl. now rewrite !app_nil_r.
  - unfold bind in H.
    destruct (ingest_one acc doc s) as [s1 o1] eqn:E1.
    unfold ingest_one, embedder_encode, bind, get, call, modify in E1.
    destruct (chunk_text (chunk_size s) doc) as [chunks|e] eqn:E.
    + unfold encode in E1. simpl in E1.
      destruct (encode_error chunks) as [e|].
      * inversion E1; subst; clear E1. inversion H; subst; clear H.
        exists 1%nat, [chunks]. split.
        -- simpl. rewrite take_0. constructor; [assumption|constructor].
        -- simpl. now rewrite !app_nil_r.
      * inversion E1; subst; clear E1.
        apply IH in H as (n & batches & Hb & ->). simpl in *.
        exists (S n), (chunks :: batches). split.
        -- simpl. constructor; assumption.
        -- simpl. now rewrite <- !app_assoc.
    + inversion E1; subst; clear E1. inversion H; subst; clear H.
      exists 0%nat, []. split; [constructor|].
      destruct s'; simpl. now rewrite !app_nil_r.
Qed.


Lemma ingest_documents_keeps_aligned docs refresh s s' :
  aligned s -> ingest_documents docs refresh s = (s', Ok tt) -> aligned s'.
Proof.
  unfold aligned. intros Ha H.
  apply ingest_documents_ok in H as (batches & _ & Hd & Hv & _).
  rewrite Hv, Hd. destruct refresh; simpl; [reflexivity|].
  now rewrite map_app, Ha.
Qed.

End WrapperState.

Section WrapperQuery.
Context `{EG : EmbeddingGateway} `{SI : !SimilarityIndex}
        `{GG : GenerationGateway}.
Import MCPWrapperOllama.

Lemma index_in {A} (xs : list A) (i : Z) (x : A) :
  Py.index xs i = Returned x -> x ∈ xs.
Proof.
  unfold Py.index.
  destruct ((_ <? 0) || _); [discriminate|].
  destruct (xs !! _) eqn:E; [|discriminate].
  intros H. inversion H; subst. eapply list_elem_of_lookup_2; eauto.
Qed.

Lemma chunks_at_in (chunks : list string) (ids : list Z) (r : list string) :
  chunks_at chunks ids = Returned r -> Forall (fun c => c ∈ chunks) r.
Proof.
  revert r. induction ids as [|i ids IH]; intros r H; simpl in H.
  - inversion H. constructor.
  - destruct (i =? -1); [auto|].
    destruct (Py.index chunks i) as [c|] eqn:Ec; [|discriminate].
    destruct (chunks_at chunks ids) as [r'|]; [|discriminate].
    inversion H; subst. constructor; [eapply index_in; eauto | auto].
Qed.

(** Retrieval changes nothing but the trace of embedder calls. *)
Lemma retrieve_keeps_store (P : t -> Prop) question top_k :
  (forall s batch, P s -> P (log_encode batch s)) ->
  keeps P (retrieve_with_scores question top_k).
Proof.
  intros Hlog. unfold retrieve_with_scores, embedder_encode.
  apply keeps_bind; [apply keeps_get|]. intros self.
  destruct (index self); [|apply keeps_ret].
  destruct (_ =? _)%nat; [apply keeps_ret|].
  apply keeps_bind; [auto with keeps|]. intros qv.
  destruct (map normalize_L2 qv); [apply keeps_raise|].
  destruct (search_ip _ _ _). auto with keeps.
Qed.

Lemma query_keeps_store (P : t -> Prop) question strong weak top_k :
  (forall s batch, P s -> P (log_encode batch s)) ->
  keeps P (query question strong weak top_k).
Proof.
  intros Hlog. unfold query, query_prompt.
  apply keeps_bind.
  - apply keeps_bind; [now apply retrieve_keeps_store|].
    intros [chunks scores]. apply keeps_call.
  - auto 10 with keeps.
Qed.

Lemma ingest_documents_keeps_nonempty documents refresh :
  keeps (fun s => Forall (fun c => c <> "") (doc_chunks s))
        (ingest_documents documents refresh).
Proof.
  unfold ingest_documents, _ensure_index.
  apply keeps_bind.
  - destruct refresh; [|apply keeps_ret].
    apply keeps_bind; [|intros _]; apply keeps_modify; intros s Hs; simpl;
      [constructor|exact Hs].
  - intros _. apply keeps_bind.
    + apply keeps_for_fold. intros b x. apply ingest_one_keeps_nonempty.
    + intros [|e es]; [apply keeps_ret|].
      apply keeps_bind.
      * apply keeps_bind; [apply keeps_get|]. intros self.
        destruct (index self); [apply keeps_ret|].
        apply keeps_modify. auto.
      * intros _. apply keeps_modify. auto.
Qed.

(** In every reachable state no stored chunk is the empty string. *)
Lemma reachable_chunks_nonempty (s : t) :
  reachable s -> Forall (fun c => c <> "") (doc_chunks s).
Proof.
  induction 1 as [name size|s docs refresh _ IH|s q k _ IH|s q st wk k _ IH].
  - constructor.
  - now apply ingest_documents_keeps_nonempty.
  - apply (retrieve_keeps_store
             (fun s => Forall (fun c => c <> "") (doc_chunks s))); auto.
  - apply (query_keeps_store
             (fun s => Forall (fun c => c <> "") (doc_chunks s))); auto.
Qed.

(** What retrieval returns is made of stored chunks. *)
Lemma retrieve_returns_stored question top_k s s' chunks scores :
  retrieve_with_scores question top_k s = (s', Ok (chunks, scores)) ->
  Forall (fun c => c ∈ doc_chunks s) chunks
  /\ model_name s' = model_name s.
Proof.
  unfold retrieve_with_scores, embedder_encode, bind, get, modify, call, ret.
  destruct (index s) as [ix|]; [|intros H; inversion H; split; auto].
  destruct (_ =? _)%nat; [intros H; inversion H; split; auto|].
  destruct (encode [question]) as [qv|e]; [|discriminate]. simpl.
  destruct (map normalize_L2 qv) as [|q qs]; [discriminate|].
  destruct (search_ip ix q top_k) as [raw ids].
  destruct (chunks_at (doc_chunks s) ids) as [r|e] eqn:E; [|discriminate].
  intros H. inversion H; subst. split; [|reflexivity].
  eapply chunks_at_in; eauto.
Qed.


Lemma build_prompt_strict question chunks :
  chunks <> [] -> Forall (fun c => c <> "") chunks ->
  build_prompt question chunks
  = Spec.template Spec.STRICT_GROUNDED question chunks.
Proof.
  intros Hne Hall. unfold build_prompt.
  destruct chunks as [|c cs]; [congruence|].
  pose proof (join_nonempty (nl +:+ nl) (c :: cs) Hne Hall) as Hj.
  unfold truthy. destruct (String.eqb_spec (join (nl +:+ nl) (c :: cs)) "");
    [contradiction|reflexivity].
Qed.

(** The prompt selection, case by case. *)
Lemma select_prompt_no_chunks question scores strong weak :
  select_prompt question [] scores strong weak
  = Returned (Spec.template Spec.UNGROUNDED question []).
Proof. reflexivity. Qed.

Lemma select_prompt_best question chunks best rest strong weak :
  chunks <> [] -> Forall (fun c => c <> "") chunks ->
  select_prompt question chunks (best :: rest) strong weak
  = Returned (Spec.template (Spec.classify strong weak best) question chunks).
Proof.
  intros Hne Hall. unfold select_prompt, chunks_and_score_ge, Spec.classify.
  destruct chunks as [|c cs] eqn:Ec; [congruence|]. rewrite <- Ec in *.
  change (Py.index (best :: rest) 0) with (Returned best). cbv beta iota.
  destruct (Qle_bool strong best).
  - now rewrite build_prompt_strict.
  - destruct (Qle_bool weak best); reflexivity.
Qed.

End WrapperQuery.

Section WrapperClaims.
Context `{EG : EmbeddingGateway} `{SI : !SimilarityIndex}
        `{GG : GenerationGateway}.
Import MCPWrapperOllama.

Lemma query_prompt_of_retrieval question strong weak top_k s s' chunks scores :
  retrieve_with_scores question top_k s = (s', Ok (chunks, scores)) ->
  query_prompt question strong weak top_k s
  = call (select_prompt question chunks scores strong weak) s'.
Proof. intros H. unfold query_prompt. now rewrite (bind_ok _ _ _ _ _ H). Qed.

Lemma query_of_prompt question strong weak top_k s s' prompt :
  query_prompt question strong weak top_k s = (s', Ok prompt) ->
  query question strong weak top_k s
  = call (generate (model_name s') prompt num_ctx) s'.
Proof.
  intros H. unfold query. rewrite (bind_ok _ _ _ _ _ H).
  unfold bind, get, call, ret. now destruct (generate _ _ _).
Qed.

Lemma retrieved_chunks_nonempty question top_k s s' chunks scores :
  reachable s ->
  retrieve_with_scores question top_k s = (s', Ok (chunks, scores)) ->
  Forall (fun c => c <> "") chunks.
Proof.
  intros Hr H. apply reachable_chunks_nonempty in Hr.
  apply retrieve_returns_stored in H as [H _].
  rewrite Forall_forall in *. auto.
Qed.

(** The first score kept by [retrieve_with_scores] is the first score of
    the row that is not [-1]. *)
Lemma kept_scores_head (row : list Q) :
  head (kept_scores row) = Spec.deciding_score row.
Proof.
  unfold kept_scores. induction row as [|score rest IH]; [reflexivity|].
  simpl. destruct (Qeq_bool score (-1)); [exact IH|reflexivity].
Qed.

(** What a retrieval that returns has read from the index. *)
Lemma retrieve_reads_row question top_k s s' chunks scores ix row ids :
  retrieve_with_scores question top_k s = (s', Ok (chunks, scores)) ->
  chunks <> [] -> index s = Some ix ->
  search_ip ix (chunk_vector question) top_k = (row, ids) ->
  scores = kept_scores row
  /\ chunks_at (doc_chunks s) ids = Returned chunks.
Proof.
  unfold retrieve_with_scores, embedder_encode, bind, get, modify, call, ret.
  intros H Hne Hi Hs. rewrite Hi in H.
  destruct (_ =? _)%nat; [inversion H; subst; contradiction|].
  unfold encode in H.
  destruct (encode_error [question]); [discriminate|]. simpl in H.
  unfold chunk_vector in Hs. rewrite Hs in H.
  destruct (chunks_at (doc_chunks s) ids) as [r|e]; [|discriminate].
  inversion H; subst. auto.
Qed.

(** With chunks and no score kept, the selection reads [scores[0]] of an
    empty list. *)
Lemma select_prompt_without_score question chunks strong weak :
  chunks <> [] ->
  select_prompt question chunks [] strong weak = Failed IndexError.
Proof. intros Hne. now destruct chunks. Qed.

(** A retrieval that returns chunks while every score of the row is [-1]
    makes [query] raise [IndexError]. *)
Lemma query_without_kept_score
      question strong weak top_k s s' chunks scores ix row ids :
  retrieve_with_scores question top_k s = (s', Ok (chunks, scores)) ->
  chunks <> [] -> index s = Some ix ->
  search_ip ix (chunk_vector question) top_k = (row, ids) ->
  Spec.deciding_score row = None ->
  query_prompt question strong weak top_k s = (s', Raise IndexError)
  /\ query question strong weak top_k s = (s', Raise IndexError).
Proof.
  intros H Hne Hi Hs Hb.
  destruct (retrieve_reads_row _ _ _ _ _ _ _ _ _ H Hne Hi Hs) as [-> _].
  rewrite <- kept_scores_head in Hb.
  destruct (kept_scores row) as [|b rest] eqn:Ek; [|discriminate].
  assert (query_prompt question strong weak top_k s = (s', Raise IndexError))
    as Hp.
  { rewrite (query_prompt_of_retrieval _ _ _ _ _ _ _ _ H).
    now rewrite select_prompt_without_score. }
  split; [exact Hp|].
  unfold query. now rewrite (bind_raise _ _ _ _ _ Hp).
Qed.


(** C7.  In every reachable state, when retrieval returns a nonempty list
    of chunks with a best score, the prompt handed to the generation gateway
    is, letter for letter, the template of the selected mode filled with the
    chunk texts joined by a blank line and with the question, and [query]
    returns what the gateway returns. *)
Theorem query_sends_literal_prompt
        (s s' : t) (question : string) (strong weak : Q) (top_k : Z)
        (chunks : list string) (best : Q) (rest : list Q) :
  reachable s -> chunks <> [] ->
  retrieve_with_scores question top_k s = (s', Ok (chunks, best :: rest)) ->
  let joined := join (nl +:+ nl) chunks in
  let prompt :=
    match Spec.classify strong weak best with
    | Spec.STRICT_GROUNDED =>
        "Context:" +:+ nl +:+ joined +:+ nl +:+ nl +:+ "Question:" +:+ nl
        +:+ question +:+ nl +:+ "Answer:"
    | Spec.HYBRID_GROUNDED =>
        "Use the following context if relevant, but also apply your own reasoning:"
        +:+ nl +:+ joined +:+ nl +:+ nl +:+ "Question:" +:+ nl
        +:+ question +:+ nl +:+ "Answer:"
    | Spec.UNGROUNDED =>
        "Question:" +:+ nl +:+ question +:+ nl +:+ "Answer:"
    end in
  query_prompt question strong weak top_k s = (s', Ok prompt)
  /\ query question strong weak top_k s
     = (s', match generate (model_name s) prompt num_ctx with
            | Returned answer => Ok answer
            | Failed e => Raise e
            end).
Proof.
  intros Hr Hne H joined prompt.
  assert (query_prompt question strong weak top_k s = (s', Ok prompt)) as Hp.
  { rewrite (query_prompt_of_retrieval _ _ _ _ _ _ _ _ H).
    rewrite select_prompt_best by eauto using retrieved_chunks_nonempty.
    unfold call, prompt, joined. now destruct (Spec.classify strong weak best). }
  split; [exact Hp|].
  rewrite (query_of_prompt _ _ _ _ _ _ _ Hp).
  apply retrieve_returns_stored in H as [_ ->].
  unfold call. now destruct (generate _ _ _).
Qed.

(** C9.  When the generation call fails, [query] raises the gateway's
    exception and returns no text; and whatever text [query] returns is the
    text the gateway returned for the prompt that was built. *)
Theorem generation_failure_is_raised
        (s : t) (question : string) (strong weak : Q) (top_k : Z) :
  (forall s' prompt e,
      query_prompt question strong weak top_k s = (s', Ok prompt) ->
      generate (model_name s') prompt num_ctx = Failed e ->
      query question strong weak top_k s = (s', Raise e))
  /\ (forall s' answer,
         query question strong weak top_k s = (s', Ok answer) ->
         exists prompt,
           query_prompt question strong weak top_k s = (s', Ok prompt)
           /\ generate (model_name s') prompt num_ctx = Returned answer).
Proof.
  split.
  - intros s' prompt e Hp Hg.
    rewrite (query_of_prompt _ _ _ _ _ _ _ Hp). unfold call. now rewrite Hg.
  - intros s' answer H.
    destruct (query_prompt question strong weak top_k s) as [s1 [p|e|]] eqn:Hp.
    + rewrite (query_of_prompt _ _ _ _ _ _ _ Hp) in H. unfold call in H.
      destruct (generate (model_name s1) p num_ctx) eqn:Hg;
        inversion H; subst. eauto.
    + unfold query in H. rewrite (bind_raise _ _ _ _ _ Hp) in H. discriminate.
    + unfold query, bind in H. rewrite Hp in H. discriminate.
Qed.

(** C6 as amended.  The threshold classification of [query] has no
    comparator: whatever the direction of the metric that ranked the scores,
    the prompt is selected by [score >= threshold] on the first score. *)
Theorem query_thresholds_ignore_metric
        (m : Spec.metric) (s s' : t) (question : string) (strong weak : Q)
        (top_k : Z) (chunks : list string) (best : Q) (rest : list Q) :
  reachable s -> chunks <> [] ->
  retrieve_with_scores question top_k s = (s', Ok (chunks, best :: rest)) ->
  Spec.ranked_best_first m (best :: rest) ->
  query_prompt question strong weak top_k s
  = (s', Ok (Spec.template
               (Spec.classify_by Spec.HigherIsBetter strong weak best)
               question chunks)).
Proof.
  intros Hr Hne H _.
  rewrite (query_prompt_of_retrieval _ _ _ _ _ _ _ _ H).
  rewrite select_prompt_best by eauto using retrieved_chunks_nonempty.
  reflexivity.
Qed.

End WrapperClaims.

Lemma wrapper_loaded_reachable :
  @MCPWrapperOllama.reachable Demo.embedding Demo.cosine_index Demo.echo
    Demo.wrapper_loaded.
Proof.
  exact (@MCPWrapperOllama.reach_ingest Demo.embedding Demo.cosine_index
           Demo.echo _ ["alpha beta gamma"] true
           (MCPWrapperOllama.reach_init "llama3.2:3b-8k" 2)).
Qed.



Lemma query_sends_literal_prompt_witness :
  @MCPWrapperOllama.query Demo.embedding Demo.cosine_index Demo.echo
    "explain alpha" (9 # 10) (5 # 10) 5 Demo.wrapper_loaded
  = (MCPWrapperOllama.log_encode ["explain alpha"] Demo.wrapper_loaded,
     Ok ("echo Use the following context if relevant, but also apply your own reasoning:"
         +:+ nl +:+ "alpha beta" +:+ nl +:+ nl +:+ "Question:" +:+ nl
         +:+ "explain alpha" +:+ nl +:+ "Answer:")).
Proof.
  exact (proj2 (@query_sends_literal_prompt Demo.embedding Demo.cosine_index
                  Demo.echo Demo.wrapper_loaded
                  (MCPWrapperOllama.log_encode ["explain alpha"]
                     Demo.wrapper_loaded)
                  "explain alpha" (9 # 10) (5 # 10) 5 ["alpha beta"]
                  (85 # 100) [0 # 1] wrapper_loaded_reachable
                  ltac:(discriminate) eq_refl)).
Defined.

Lemma wrapper_loaded_reachable_offline :
  @MCPWrapperOllama.reachable Demo.embedding Demo.cosine_index
    Demo.unavailable Demo.wrapper_loaded.
Proof.
  exact (@MCPWrapperOllama.reach_ingest Demo.embedding Demo.cosine_index
           Demo.unavailable _ ["alpha beta gamma"] true
           (MCPWrapperOllama.reach_init "llama3.2:3b-8k" 2)).
Qed.

Lemma generation_failure_witness :
  @MCPWrapperOllama.query Demo.embedding Demo.cosine_index Demo.unavailable
    "explain alpha" (7 # 10) (5 # 10) 5 Demo.wrapper_loaded
  = (MCPWrapperOllama.log_encode ["explain alpha"] Demo.wrapper_loaded,
     Raise (Exn "ConnectionError" "Failed to connect to Ollama")).
Proof.
  apply (proj1 (@generation_failure_is_raised Demo.embedding
                  Demo.cosine_index Demo.unavailable Demo.wrapper_loaded
                  "explain alpha" (7 # 10) (5 # 10) 5)
           _ (Spec.template Spec.STRICT_GROUNDED "explain alpha"
                ["alpha beta"])).
  - reflexivity.
  - reflexivity.
Defined.

Lemma query_thresholds_ignore_metric_witness :
  @MCPWrapperOllama.query_prompt Demo.embedding Demo.distance_index
    "explain alpha" (2 # 1) (3 # 1) 5 Demo.wrapper_loaded
  = (MCPWrapperOllama.log_encode ["explain alpha"] Demo.wrapper_loaded,
     Ok (Spec.template Spec.UNGROUNDED "explain alpha" ["alpha beta"])).
Proof.
  apply (@query_thresholds_ignore_metric Demo.embedding Demo.distance_index
           Demo.echo Spec.LowerIsBetter Demo.wrapper_loaded _
           "explain alpha" (2 # 1) (3 # 1) 5 ["alpha beta"] (1 # 10) []).
  - exact (@MCPWrapperOllama.reach_ingest Demo.embedding Demo.distance_index
             Demo.echo _ ["alpha beta gamma"] true
             (MCPWrapperOllama.reach_init "llama3.2:3b-8k" 2)).
  - discriminate.
  - reflexivity.
  - simpl. auto.
Defined.

(** Against C6 as stated: on an index that answers with distances (lower is
    more similar), a best distance of 0.1 under the thresholds 2.0 and 3.0
    would be a strong match for an inverted comparison; [query] compares
    [0.1 >= 2.0] and [0.1 >= 3.0] and selects the UNGROUNDED prompt. *)
Lemma distance_scores_not_inverted :
  Spec.ranked_best_first Spec.LowerIsBetter [1 # 10]
  /\ Spec.classify_by Spec.LowerIsBetter (2 # 1) (3 # 1) (1 # 10)
     = Spec.STRICT_GROUNDED
  /\ snd (@MCPWrapperOllama.query_prompt Demo.embedding Demo.distance_index
            "explain alpha" (2 # 1) (3 # 1) 5 Demo.wrapper_loaded)
     = Ok (Spec.template Spec.UNGROUNDED "explain alpha" ["alpha beta"])
  /\ snd (@MCPWrapperOllama.query_prompt Demo.embedding Demo.distance_index
            "explain alpha" (2 # 1) (3 # 1) 5 Demo.wrapper_loaded)
     <> Ok (Spec.template
              (Spec.classify_by Spec.LowerIsBetter (2 # 1) (3 # 1) (1 # 10))
              "explain alpha" ["alpha beta"]).
Proof.
  split; [simpl; auto|]. split; [reflexivity|]. split; [reflexivity|].
  vm_compute. discriminate.
Qed.

(* ===================================================================== *)
(** * [VectorIndex] and [MCPServer.ingest_file] *)
(* ===================================================================== *)

Lemma zoom_inv {S T A} (proj : T -> S) (inj : S -> T -> T) (m : M S A) t t' o :
  zoom proj inj m t = (t', o) ->
  exists s', m (proj t) = (s', o) /\ t' = inj s' t.
Proof.
  unfold zoom. destruct (m (proj t)) as [s' o']. intros H. inversion H; eauto.
Qed.

Section ServerState.
Context `{EG : EmbeddingGateway} `{SI : !SimilarityIndex} `{FS : FileSystem}.

(** [add_documents] leaves the index and the chunk list in step, whether it
    returns or raises: the embedder is called before anything is changed. *)
Lemma add_documents_keeps_aligned (docs : list string) :
  keeps VectorIndex.aligned (VectorIndex.add_documents docs).
Proof.
  intros s Ha. unfold VectorIndex.add_documents, bind, call, get, modify.
  unfold encode. destruct (encode_error docs); [exact Ha|].
  unfold VectorIndex.aligned, VectorIndex.vectors in *.
  destruct (VectorIndex.index s) as [ix|] eqn:Ei.
  - unfold VectorIndex.vstack.
    destruct (VectorIndex.embeddings s); simpl; rewrite ?Ei; auto.
    destruct docs as [|d ds]; simpl; rewrite ?Ei; auto.
    simpl. change (embed d :: map embed ds) with (map embed (d :: ds)).
    now rewrite map_app, Ha.
  - destruct docs as [|d ds]; simpl; rewrite ?Ei; auto.
    simpl. symmetry in Ha. apply map_eq_nil in Ha. now rewrite Ha.
Qed.

Lemma save_files_db_state (s : MCPServer.t) :
  MCPServer.save_files_db s = (s, Ok tt).
Proof.
  unfold MCPServer.save_files_db, try_except, bind, get, raise, ret.
  now destruct (dump_error _).
Qed.

Lemma extract_content_state file_path ftype file_size (s : MCPServer.t) :
  exists content,
    MCPServer.extract_content file_path ftype file_size s = (s, Ok content).
Proof.
  unfold MCPServer.extract_content.
  destruct (String.eqb _ ".pdf").
  - unfold try_except, bind, call, ret.
    destruct (pdf_pages file_path); eauto.
  - destruct (_ && _); [unfold ret; eauto|].
    destruct (existsb _ _); unfold ret; eauto.
Qed.

(** The call of [chunk_text] in [ingest_file] has fuel enough. *)
Lemma default_chunking_finishes content fid fname ftype :
  exists chunks,
    MCPServer.chunk_text (S (length (split content))) content
      MCPServer.default_chunk_size MCPServer.default_overlap fid fname ftype
    = Some chunks.
Proof.
  destruct (chunk_text_finishes content MCPServer.default_chunk_size
              MCPServer.default_overlap fid fname ftype) as [chunks H].
  - left. reflexivity.
  - exists chunks. apply H. lia.
Qed.

End ServerState.

(* ===================================================================== *)
(** * Computations that complete *)
(* ===================================================================== *)

Lemma returns_ret {S A} (Q : A -> Prop) (a : A) : Q a -> @returns S A Q (ret a).
Proof. intros H s. exact H. Qed.

Lemma returns_raise {S A} (Q : A -> Prop) e : @returns S A Q (raise e).
Proof. intros s. exact I. Qed.

Lemma returns_get {S} (Q : S -> Prop) : (forall s, Q s) -> returns Q get.
Proof. intros H s. apply H. Qed.

Lemma returns_modify {S} (Q : unit -> Prop) (f : S -> S) :
  Q tt -> returns Q (modify f).
Proof. intros H s. exact H. Qed.

Lemma returns_call {S A} (Q : A -> Prop) (r : result A) :
  (forall a, r = Returned a -> Q a) -> @returns S A Q (call r).
Proof. intros H s. unfold call. destruct r; simpl; auto. Qed.

Lemma returns_run_loop {S A} (Q : A -> Prop) (o : option A) :
  (exists a, o = Some a /\ Q a) -> @returns S A Q (run_loop o).
Proof. intros (a & -> & H) s. exact H. Qed.

Lemma returns_bind {S A B} (P : A -> Prop) (Q : B -> Prop)
      (m : M S A) (k : A -> M S B) :
  returns P m -> (forall a, P a -> returns Q (k a)) -> returns Q (bind m k).
Proof.
  intros Hm Hk s. unfold bind. specialize (Hm s).
  destruct (m s) as [s' [a|e|]]; simpl in *; auto. now apply Hk.
Qed.

Lemma returns_try_except {S A} (Q : A -> Prop) (m : M S A)
      (h : exn -> M S A) :
  returns Q m -> (forall e, returns Q (h e)) -> returns Q (try_except m h).
Proof.
  intros Hm Hh s. unfold try_except. specialize (Hm s).
  destruct (m s) as [s' [a|e|]]; simpl in *; auto. apply Hh.
Qed.

Lemma returns_zoom {S T A} (Q : A -> Prop) (proj : T -> S)
      (inj : S -> T -> T) (m : M S A) :
  returns Q m -> returns Q (zoom proj inj m).
Proof.
  intros Hm t. unfold zoom. specialize (Hm (proj t)).
  now destruct (m (proj t)) as [s' o].
Qed.

Lemma returns_any {S A} (Q : A -> Prop) (m : M S A) :
  returns Q m -> returns (fun _ => True) m.
Proof. intros Hm s. specialize (Hm s). now destruct (snd (m s)). Qed.

Section ServerReturns.
Context `{EG : EmbeddingGateway} `{SI : !SimilarityIndex} `{FS : FileSystem}.

Lemma add_documents_returns (docs : list string) :
  returns (fun _ => True) (VectorIndex.add_documents docs).
Proof.
  unfold VectorIndex.add_documents.
  apply (returns_bind (fun _ => True)); [now apply returns_call|]. intros v _.
  apply (returns_bind (fun _ => True)); [now apply returns_get|].
  intros self _.
  apply (returns_bind (fun _ => True)).
  - destruct (VectorIndex.index self).
    + apply (returns_bind (fun _ => True)); [now apply returns_call|].
      intros; now apply returns_modify.
    + apply (returns_bind (fun _ => True)); [now apply returns_call|].
      intros _ _.
      apply (returns_bind (fun _ => True)); intros; now apply returns_modify.
  - intros. apply (returns_bind (fun _ => True)); intros;
      now apply returns_modify.
Qed.

Lemma extract_content_returns file_path ftype file_size :
  returns (fun _ => True)
          (MCPServer.extract_content file_path ftype file_size).
Proof.
  intros s.
  destruct (extract_content_state file_path ftype file_size s) as [c ->].
  exact I.
Qed.

End ServerReturns.

Section IngestFileTotal.
Context `{EG : EmbeddingGateway} `{SI : !SimilarityIndex} `{FS : FileSystem}.

Lemma save_files_db_returns :
  returns (fun _ => True) MCPServer.save_files_db.
Proof. intros s. now rewrite save_files_db_state. Qed.

(** The read loop of [get_file_hash] ends on the file: its reads reach the
    end of the file or raise. *)
Lemma hash_finishes file_path :
  MCPServer.hashed_bytes file_path <> Hang ->
  exists file_hash, MCPServer.get_file_hash file_path = Some file_hash.
Proof.
  unfold MCPServer.get_file_hash.
  destruct (MCPServer.hashed_bytes file_path); eauto. congruence.
Qed.

Lemma hash_hangs file_path :
  MCPServer.hashed_bytes file_path = Hang ->
  MCPServer.get_file_hash file_path = None.
Proof. unfold MCPServer.get_file_hash. now intros ->. Qed.

Lemma ingest_file_body_returns file_path metadata :
  path_exists file_path = false \/ MCPServer.hashed_bytes file_path <> Hang ->
  returns MCPServer.is_result (MCPServer.ingest_file_body file_path metadata).
Proof.
  intros Hfin. unfold MCPServer.ingest_file_body.
  destruct (path_exists file_path) eqn:Ex; simpl.
  2:{ apply returns_ret. right. right. eexists. reflexivity. }
  destruct Hfin as [Hfin|Hfin]; [discriminate|].
  apply (returns_bind (fun _ => True)).
  { apply returns_run_loop. destruct (hash_finishes _ Hfin); eauto. }
  intros file_hash _.
  apply (returns_bind (fun _ => True)); [now apply returns_call|].
  intros file_size _.
  apply (returns_bind (fun _ => True)); [now apply returns_get|].
  intros self _.
  destruct (dict_mem _ _).
  { apply returns_ret. right. left. reflexivity. }
  apply (returns_bind (fun _ => True)); [apply extract_content_returns|].
  intros content _.
  apply (returns_bind (fun _ => True)).
  - destruct (_ && _); [|now apply returns_ret].
    apply (returns_bind (fun _ => True)).
    + apply returns_run_loop.
      destruct (default_chunking_finishes content
                  (Some file_hash)
                  (Some (path_name file_path))
                  (Some (MCPServer.file_type_of file_path))) as [chunks H].
      eauto.
    + intros chunks _. apply (returns_bind (fun _ => True)).
      * apply returns_zoom, add_documents_returns.
      * intros. now apply returns_modify.
  - intros _ _. apply (returns_bind (fun _ => True));
      [now apply returns_modify|]. intros _ _.
    apply (returns_bind (fun _ => True)); [apply save_files_db_returns|].
    intros _ _. apply returns_ret. left. reflexivity.
Qed.

(** On an existing file whose read loop does not end, [ingest_file] does
    not return, and nothing has been changed. *)
Lemma ingest_file_hangs (s : MCPServer.t) file_path metadata :
  path_exists file_path = true ->
  MCPServer.hashed_bytes file_path = Hang ->
  MCPServer.ingest_file file_path metadata s = (s, Hang).
Proof.
  intros Hex Hh.
  unfold MCPServer.ingest_file, MCPServer.ingest_file_body, try_except.
  rewrite Hex. simpl. unfold bind, run_loop.
  now rewrite (hash_hangs _ Hh).
Qed.

(** C10 as amended.  [ingest_file] is total on every path that does not
    exist or whose read loop in [get_file_hash] ends (the reads reach the
    end of the file, or [open] or a read raises): from every state of the
    server, whatever the PDF reader, the embedder and the write of the
    database do, it returns (it neither raises nor loops) a dictionary with
    a ["status"] equal to ["success"] or ["already_exists"], or with an
    ["error"] message.  On an existing path whose reads never reach the
    end it does not return. *)
Theorem ingest_file_total_when_reads_end
        (s : MCPServer.t) (file_path : string)
        (metadata : option (dict string)) :
  (path_exists file_path = false
   \/ MCPServer.hashed_bytes file_path <> Hang ->
   exists s' d,
     MCPServer.ingest_file file_path metadata s = (s', Ok d)
     /\ MCPServer.is_result d)
  /\ (path_exists file_path = true ->
      MCPServer.hashed_bytes file_path = Hang ->
      MCPServer.ingest_file file_path metadata s = (s, Hang)).
Proof.
  split; [|apply ingest_file_hangs].
  intros Hfin.
  pose proof (ingest_file_body_returns file_path metadata Hfin s) as H.
  unfold MCPServer.ingest_file, try_except.
  destruct (MCPServer.ingest_file_body file_path metadata s)
    as [s' [d|e|]]; simpl in H.
  - eauto.
  - exists s'. eexists. split; [reflexivity|].
    right. right. eexists. reflexivity.
  - contradiction.
Qed.

End IngestFileTotal.

Lemma ingest_file_total_witness :
  exists s' d,
    @MCPServer.ingest_file Demo.embedding Demo.disk "mcp_storage/a.txt" None
      (MCPServer.init [])
    = (s', Ok d)
    /\ MCPServer.is_result d.
Proof.
  apply (proj1 (ingest_file_total_when_reads_end
                  (EG := Demo.embedding) (FS := Demo.disk)
                  (MCPServer.init []) "mcp_storage/a.txt" None)).
  right. vm_compute. discriminate.
Defined.

(** Against C10 as stated: the device [/dev/zero] exists and its reads never
    return [b""]; on it the read loop of [get_file_hash] does not end, and
    [ingest_file] returns no dictionary. *)
Lemma ingest_file_hangs_on_endless_device :
  path_exists (FileSystem := Demo.device_disk) "/dev/zero" = true
  /\ MCPServer.ingest_file (EG := Demo.embedding) (FS := Demo.device_disk)
       "/dev/zero" None (MCPServer.init [])
     = (MCPServer.init [], Hang)
  /\ ~ exists s' d,
        MCPServer.ingest_file (EG := Demo.embedding) (FS := Demo.device_disk)
          "/dev/zero" None (MCPServer.init [])
        = (s', Ok d).
Proof.
  assert (MCPServer.ingest_file (EG := Demo.embedding)
            (FS := Demo.device_disk) "/dev/zero" None (MCPServer.init [])
          = (MCPServer.init [], Hang)) as H
      by (now apply ingest_file_hangs).
  split; [reflexivity|]. split; [exact H|].
  intros (s' & d & E). rewrite H in E. discriminate.
Qed.

Lemma ensures_ret {S A} (Q : S -> A -> Prop) (a : A) :
  (forall s, Q s a) -> ensures Q (ret a).
Proof. intros H s s' a' E. inversion E; subst. apply H. Qed.

Lemma ensures_bind {S A B} (Q : S -> B -> Prop) (m : M S A)
      (k : A -> M S B) :
  (forall a, ensures Q (k a)) -> ensures Q (bind m k).
Proof.
  intros Hk s s' b E. apply bind_inv_ok in E as (s1 & a & _ & E).
  eapply Hk; eauto.
Qed.

Lemma dict_mem_set {V} (k : string) (v : V) (d : dict V) :
  dict_mem k (dict_set k v d) = true.
Proof.
  unfold dict_mem. induction d as [|[k' v'] d IH]; simpl.
  - now rewrite String.eqb_refl.
  - destruct (String.eqb_spec k' k); simpl.
    + now rewrite String.eqb_refl.
    + destruct (String.eqb_spec k' k); [contradiction|]. exact IH.
Qed.

Section IngestFileKnown.
Context `{EG : EmbeddingGateway} `{SI : !SimilarityIndex} `{FS : FileSystem}.

(** A stored hash short-circuits [ingest_file]. *)
Lemma ingest_file_known (s : MCPServer.t) file_path metadata file_hash size :
  path_exists file_path = true ->
  MCPServer.get_file_hash file_path = Some file_hash ->
  stat_st_size file_path = Returned size ->
  dict_mem file_hash (MCPServer.ingested_files s) = true ->
  MCPServer.ingest_file file_path metadata s
  = (s, Ok (MCPServer.already_exists file_path file_hash)).
Proof.
  intros He Hh Hs Hm.
  unfold MCPServer.ingest_file, MCPServer.ingest_file_body, try_except.
  rewrite He. simpl. unfold bind, call, get, run_loop.
  rewrite Hh, Hs, Hm. reflexivity.
Qed.

(** An ingestion that reports success has stored the record under the hash
    of the file. *)
Lemma ingest_file_success_stores (s s1 : MCPServer.t) file_path metadata r :
  MCPServer.ingest_file file_path metadata s = (s1, Ok r) ->
  dict_get "status" r = Some (PStr "success") ->
  exists file_hash,
    MCPServer.get_file_hash file_path = Some file_hash
    /\ dict_mem file_hash (MCPServer.ingested_files s1) = true.
Proof.
  unfold MCPServer.ingest_file, try_except. intros H.
  destruct (MCPServer.ingest_file_body file_path metadata s)
    as [s' [d|e|]] eqn:E; inversion H; subst; clear H; [|discriminate].
  revert s s1 r E.
  change (ensures (fun s1 r => dict_get "status" r = Some (PStr "success") ->
                     exists file_hash,
                       MCPServer.get_file_hash file_path = Some file_hash
                       /\ dict_mem file_hash
                            (MCPServer.ingested_files s1) = true)
            (MCPServer.ingest_file_body file_path metadata)).
  unfold MCPServer.ingest_file_body.
  destruct (negb (path_exists file_path));
    [apply ensures_ret; discriminate|].
  destruct (MCPServer.get_file_hash file_path) as [file_hash|];
    [|intros s s1 r E; unfold bind, run_loop in E; discriminate].
  intros s s1 r E.
  rewrite (bind_ok _ _ s s file_hash eq_refl) in E.
  revert s s1 r E.
  apply (ensures_bind
           (fun s1 r => dict_get "status" r = Some (PStr "success") ->
              exists h,
                Some file_hash = Some h
                /\ dict_mem h (MCPServer.ingested_files s1) = true)).
  intros size. apply ensures_bind. intros self.
  destruct (dict_mem _ _); [apply ensures_ret; discriminate|].
  apply ensures_bind. intros content. apply ensures_bind. intros _.
  intros s s1 r E _. unfold bind, modify in E.
  rewrite save_files_db_state in E. inversion E; subst. simpl.
  exists file_hash. split; [reflexivity|]. apply dict_mem_set.
Qed.

(** C3.  Whenever the hash of an existing file is a key of the store,
    [ingest_file] returns the [already_exists] status and leaves the whole
    server state as it was: the stored records, the vector index with its
    chunk list and the chunk metadata.  Hence, after an ingestion that
    reported success, ingesting a file with the same bytes returns
    [already_exists] and changes nothing. *)
Theorem ingest_known_file_changes_nothing (s : MCPServer.t) :
  (forall file_path metadata file_hash size,
      path_exists file_path = true ->
      MCPServer.get_file_hash file_path = Some file_hash ->
      stat_st_size file_path = Returned size ->
      dict_mem file_hash (MCPServer.ingested_files s) = true ->
      MCPServer.ingest_file file_path metadata s
      = (s, Ok (MCPServer.already_exists file_path file_hash)))
  /\ (forall first_path first_metadata s1 r again_path again_metadata
             bytes size,
         MCPServer.ingest_file first_path first_metadata s = (s1, Ok r) ->
         dict_get "status" r = Some (PStr "success") ->
         MCPServer.hashed_bytes first_path = Ok bytes ->
         MCPServer.hashed_bytes again_path = Ok bytes ->
         path_exists again_path = true ->
         stat_st_size again_path = Returned size ->
         MCPServer.ingest_file again_path again_metadata s1
         = (s1, Ok (MCPServer.already_exists again_path
                      (sha256_hexdigest bytes)))).
Proof.
  split.
  - intros. eapply ingest_file_known; eauto.
  - intros p1 m1 s1 r p2 m2 bytes size H1 Hst Hb1 Hb2 He Hs.
    apply ingest_file_success_stores in H1 as (h & Hh & Hm); [|assumption].
    unfold MCPServer.get_file_hash in Hh. rewrite Hb1 in Hh.
    inversion Hh; subst h.
    eapply ingest_file_known; eauto.
    unfold MCPServer.get_file_hash. now rewrite Hb2.
Qed.

End IngestFileKnown.

Lemma ingest_known_file_witness :
  @MCPServer.ingest_file Demo.embedding Demo.disk "mcp_storage/b.txt" None
    (fst (@MCPServer.ingest_file Demo.embedding Demo.disk "mcp_storage/a.txt"
            None (MCPServer.init [])))
  = (fst (@MCPServer.ingest_file Demo.embedding Demo.disk "mcp_storage/a.txt"
            None (MCPServer.init [])),
     Ok [("status", PStr "already_exists"); ("file_id", PStr "sha3");
         ("message", PStr "File already ingested: mcp_storage/b.txt")]).
Proof.
  exact (proj2 (@ingest_known_file_changes_nothing Demo.embedding Demo.disk
                  (MCPServer.init []))
           "mcp_storage/a.txt" None _ _ "mcp_storage/b.txt" None
           [Byte.x61; Byte.x20; Byte.x62] 3
           eq_refl eq_refl eq_refl eq_refl eq_refl eq_refl).
Defined.

(* ===================================================================== *)
(** * The application: sequences of operations *)
(* ===================================================================== *)

Lemma keeps_same_state {S A} (P : S -> Prop) (m : M S A) :
  (forall s, exists o, m s = (s, o)) -> keeps P m.
Proof. intros H s Hs. destruct (H s) as [o ->]. exact Hs. Qed.

Section ServerAligned.
Context `{EG : EmbeddingGateway} `{SI : !SimilarityIndex} `{FS : FileSystem}.

(** [ingest_file] leaves the index of the server and its chunk list in
    step, whatever it returns. *)
Lemma ingest_file_keeps_aligned file_path metadata :
  keeps (fun s => VectorIndex.aligned (MCPServer.vector_index s))
        (MCPServer.ingest_file file_path metadata).
Proof.
  unfold MCPServer.ingest_file, MCPServer.ingest_file_body.
  apply keeps_try_except; [|auto with keeps].
  destruct (negb _); [apply keeps_ret|].
  apply keeps_bind; [apply keeps_run_loop|]. intros file_hash.
  apply keeps_bind; [apply keeps_call|]. intros size.
  apply keeps_bind; [apply keeps_get|]. intros self.
  destruct (dict_mem _ _); [apply keeps_ret|].
  apply keeps_bind.
  { apply keeps_same_state. intros s.
    destruct (extract_content_state file_path
                (MCPServer.file_type_of file_path) size s) as [c ->]. eauto. }
  intros content. apply keeps_bind.
  - destruct (_ && _); [|apply keeps_ret].
    apply keeps_bind; [apply keeps_run_loop|]. intros chunks.
    apply keeps_bind.
    + apply (keeps_zoom VectorIndex.aligned); auto.
      apply add_documents_keeps_aligned.
    + intros _. apply keeps_modify. auto.
  - intros _. apply keeps_bind; [apply keeps_modify; auto|]. intros _.
    apply keeps_bind; [|intros; apply keeps_ret].
    apply keeps_same_state. intros s. rewrite save_files_db_state. eauto.
Qed.

End ServerAligned.

Section AppState.
Context `{EG : EmbeddingGateway} `{SI : !SimilarityIndex}
        `{GG : GenerationGateway} `{FS : FileSystem}.

Lemma files_in_empty (files : list MCPServer.file_summary) :
  App.files_in ∅ files = [].
Proof.
  unfold App.files_in. induction files as [|f fs IH]; simpl; [reflexivity|].
  rewrite bool_decide_eq_false_2 by set_solver. exact IH.
Qed.

(** What a completed synchronisation has done: the documents of the ids in
    [current − known], in the order of the store, were chunked, their chunks
    appended to the chunk list, their vectors appended to the index, one
    batch per document handed to the embedder; the store is untouched. *)
Lemma sync_ok (a a' : App.t) :
  App.sync_new_documents a = (a', Ok tt) ->
  let files := MCPServer.list_files (App.mcp_server a) in
  let new_files := App.ids_of files ∖ App.ingested_files a in
  exists new_docs batches,
    App.contents (App.mcp_server a) (App.files_in new_files files)
    = Returned new_docs
    /\ MCPWrapperOllama.chunked (MCPWrapperOllama.chunk_size (App.mcp a))
                                new_docs batches
    /\ MCPWrapperOllama.encode_calls (App.mcp a')
       = MCPWrapperOllama.encode_calls (App.mcp a) ++ batches
    /\ MCPWrapperOllama.doc_chunks (App.mcp a')
       = MCPWrapperOllama.doc_chunks (App.mcp a) ++ concat batches
    /\ MCPWrapperOllama.vectors (App.mcp a')
       = MCPWrapperOllama.vectors (App.mcp a)
         ++ map MCPWrapperOllama.chunk_vector (concat batches)
    /\ App.mcp_server a' = App.mcp_server a
    /\ App.ingested_files a'
       = (if bool_decide (new_files ≠ ∅) then App.ids_of files
          else App.ingested_files a).
Proof.
  intros H files new_files. unfold App.sync_new_documents in H.
  unfold bind at 1 in H. unfold get in H. fold files new_files in H.
  destruct (bool_decide (new_files ≠ ∅)) eqn:Eb.
  - apply bind_inv_ok in H as (a1 & new_docs & Hc & H).
    unfold call in Hc.
    destruct (App.contents _ _) as [docs|e]; inversion Hc; subst; clear Hc.
    apply bind_inv_ok in H as (a2 & [] & Hi & H).
    apply zoom_inv in Hi as (w' & Hi & ->).
    inversion H; subst; clear H.
    apply ingest_documents_ok in Hi as (batches & Hb & Hd & Hv & Hl & _).
    exists new_docs, batches. simpl. repeat split; auto.
  - inversion H; subst; clear H.
    apply bool_decide_eq_false in Eb.
    assert (new_files = ∅) as -> by (destruct (decide (new_files = ∅)); tauto).
    rewrite files_in_empty. exists [], []. simpl.
    rewrite !app_nil_r. repeat split; auto. constructor.
Qed.



Lemma on_mcp_keeps_server {A} (m : M MCPWrapperOllama.t A) a a' o :
  App.on_mcp m a = (a', o) ->
  exists w', m (App.mcp a) = (w', o) /\ a' = App.set_mcp w' a.
Proof. apply zoom_inv. Qed.

Lemma build_index_keeps_aligned (a a' : App.t) :
  App.aligned a -> App.build_index a = (a', Ok tt) -> App.aligned a'.
Proof.
  intros [Hw Hv] H. unfold App.build_index in H.
  unfold bind at 1 in H. unfold get in H.
  apply bind_inv_ok in H as (a1 & docs & Hc & H).
  unfold call in Hc. destruct (App.contents _ _); inversion Hc; subst.
  apply bind_inv_ok in H as (a2 & [] & Hm & H).
  inversion Hm; subst; clear Hm.
  destruct docs as [|d ds].
  - inversion H; subst. split; assumption.
  - apply zoom_inv in H as (w' & H & ->). split; [|exact Hv].
    eapply ingest_documents_keeps_aligned; eauto.
Qed.

Lemma run_op_keeps_aligned (o : App.op) (a a' : App.t) :
  App.aligned a -> App.run_op o a = (a', Ok tt) -> App.aligned a'.
Proof.
  intros Ha H. destruct o as [p m|docs|docs refresh| |]; simpl in H.
  - apply bind_inv_ok in H as (a1 & d & H & E). inversion E; subst.
    revert H. generalize (Ok d).
    intros o H. apply zoom_inv in H as (s' & H & ->).
    destruct Ha as [Hw Hv]. split; [exact Hw|]. simpl.
    pose proof (ingest_file_keeps_aligned p m _ Hv) as K.
    now rewrite H in K.
  - apply zoom_inv in H as (s' & H & ->).
    apply zoom_inv in H as (v' & H & ->).
    destruct Ha as [Hw Hv]. split; [exact Hw|]. simpl.
    pose proof (add_documents_keeps_aligned docs _ Hv) as K.
    now rewrite H in K.
  - apply zoom_inv in H as (w' & H & ->).
    destruct Ha as [Hw Hv]. split; [|exact Hv]. simpl.
    eapply ingest_documents_keeps_aligned; eauto.
  - eapply build_index_keeps_aligned; eauto.
  - destruct Ha as [Hw Hv].
    apply sync_ok in H as (docs & batches & _ & _ & _ & Hd & Hx & Hs & _).
    split.
    + unfold MCPWrapperOllama.aligned in *.
      now rewrite Hx, Hd, map_app, Hw.
    + now rewrite Hs.
Qed.

Lemma run_ops_keeps_aligned (os : list App.op) (a a' : App.t) :
  App.aligned a -> App.run_ops os a = (a', Ok tt) -> App.aligned a'.
Proof.
  revert a. induction os as [|o os IH]; intros a Ha H; simpl in H.
  - inversion H; subst. exact Ha.
  - apply bind_inv_ok in H as (a1 & [] & H1 & H).
    eapply IH; [|exact H]. eapply run_op_keeps_aligned; eauto.
Qed.

Lemma init_aligned (db : dict file_info) : App.aligned (App.init db).
Proof. split; reflexivity. Qed.

End AppState.

Section AppClaims.
Context `{EG : EmbeddingGateway} `{SI : !SimilarityIndex}
        `{GG : GenerationGateway} `{FS : FileSystem}.

(** X24.  The application starts with both index/chunk-list pairs in step,
    and after every sequence of operations that complete ([ingest_file],
    [add_documents], [ingest_documents] with or without refresh, the
    start-up rebuild, the incremental synchronisation) they are in step
    again: [index.ntotal] equals [len(doc_chunks)] for the wrapper and
    [len(text_chunks)] for the [VectorIndex] of the server, and the vector
    at each position is the vector of the chunk at that position. *)
Theorem index_in_step_with_chunks :
  (forall db, App.aligned (App.init db))
  /\ (forall (a a' : App.t) (os : list App.op),
         App.aligned a -> App.run_ops os a = (a', Ok tt) ->
         let w := App.mcp a' in
         let v := MCPServer.vector_index (App.mcp_server a') in
         MCPWrapperOllama.ntotal w = length (MCPWrapperOllama.doc_chunks w)
         /\ (forall i : nat,
                MCPWrapperOllama.vectors w !! i
                = MCPWrapperOllama.chunk_vector
                    <$> MCPWrapperOllama.doc_chunks w !! i)
         /\ VectorIndex.ntotal v = length (VectorIndex.text_chunks v)
         /\ (forall i : nat,
                VectorIndex.vectors v !! i
                = embed <$> VectorIndex.text_chunks v !! i)).
Proof.
  split; [apply init_aligned|].
  intros a a' os Ha H w v.
  destruct (run_ops_keeps_aligned os a a' Ha H) as [Hw Hv].
  fold w in Hw. fold v in Hv.
  unfold MCPWrapperOllama.ntotal, VectorIndex.ntotal.
  unfold MCPWrapperOllama.aligned in Hw. unfold VectorIndex.aligned in Hv.
  rewrite Hw, Hv, !length_map.
  repeat split; auto; intros i; apply list_lookup_fmap.
Qed.




End AppClaims.

Lemma index_in_step_witness :
  MCPWrapperOllama.doc_chunks
    (App.mcp (fst (@App.run_ops Demo.embedding Demo.disk Demo.session
                     (App.init []))))
  = ["a b"]
  /\ MCPWrapperOllama.ntotal
       (App.mcp (fst (@App.run_ops Demo.embedding Demo.disk Demo.session
                        (App.init []))))
     = 1%nat.
Proof.
  pose proof (proj2 (@index_in_step_with_chunks Demo.embedding Demo.disk)
                (App.init [])
                (fst (@App.run_ops Demo.embedding Demo.disk Demo.session
                        (App.init [])))
                Demo.session
                (proj1 (@index_in_step_with_chunks Demo.embedding Demo.disk)
                   [])
                ltac:(vm_compute; reflexivity)) as [H _].
  split; [vm_compute; reflexivity|].
  rewrite H. vm_compute. reflexivity.
Defined.

(** C2 at a failing input.  The wrapper ingests the documents
    ["alpha beta"] and [""]: the chunks of the first are appended to
    [doc_chunks], then the embedding step raises on the empty batch of the
    second, before any vector has reached the index.  The next
    [ingest_documents], of ["gamma"], completes -- and leaves two chunks
    beside one vector, the vector at position 0 being that of the chunk at
    position 1. *)
Lemma interrupted_ingest_leaves_chunks_ahead :
  snd (@MCPWrapperOllama.ingest_documents Demo.numeric ["alpha beta"; ""]
         false (MCPWrapperOllama.init "llama3.2:3b-8k" 300))
  = Raise (Exn "IndexError" "tuple index out of range")
  /\ @MCPWrapperOllama.ingest_documents Demo.numeric ["gamma"] false
       (fst (@MCPWrapperOllama.ingest_documents Demo.numeric
               ["alpha beta"; ""] false
               (MCPWrapperOllama.init "llama3.2:3b-8k" 300)))
     = (@MCPWrapperOllama.Mk Demo.numeric "llama3.2:3b-8k" 300
          (Some ["gamma"]) ["alpha beta"; "gamma"]
          [["alpha beta"]; []; ["gamma"]],
        Ok tt)
  /\ MCPWrapperOllama.ntotal
       (@MCPWrapperOllama.Mk Demo.numeric "llama3.2:3b-8k" 300
          (Some ["gamma"]) ["alpha beta"; "gamma"]
          [["alpha beta"]; []; ["gamma"]])
     = 1%nat
  /\ ~ MCPWrapperOllama.aligned
        (@MCPWrapperOllama.Mk Demo.numeric "llama3.2:3b-8k" 300
           (Some ["gamma"]) ["alpha beta"; "gamma"]
           [["alpha beta"]; []; ["gamma"]]).
Proof.
  split; [reflexivity|]. split; [reflexivity|]. split; [reflexivity|].
  unfold MCPWrapperOllama.aligned. vm_compute. discriminate.
Qed.


(* ===================================================================== *)
(** * Further properties of [VectorIndex] and [MCPServer] *)
(* ===================================================================== *)

Lemma dict_set_new {V} (k : string) (v : V) (d : dict V) :
  dict_mem k d = false -> dict_set k v d = d ++ [(k, v)].
Proof.
  unfold dict_mem. induction d as [|[k' v'] d IH]; simpl; [reflexivity|].
  destruct (String.eqb k' k); simpl; [discriminate|].
  intros H. now rewrite IH.
Qed.

Lemma dict_get_app_new {V} (k : string) (v : V) (d : dict V) :
  dict_mem k d = false -> dict_get k (d ++ [(k, v)]) = Some v.
Proof.
  unfold dict_mem. induction d as [|[k' v'] d IH]; simpl.
  - now rewrite String.eqb_refl.
  - destruct (String.eqb k' k); simpl; [discriminate|]. exact IH.
Qed.

Lemma dict_get_app_other {V} (k j : string) (v : V) (d : dict V) :
  j <> k -> dict_get j (d ++ [(k, v)]) = dict_get j d.
Proof.
  intros Hne. induction d as [|[k' v'] d IH]; simpl.
  - destruct (String.eqb_spec k j); congruence.
  - destruct (String.eqb k' j); [reflexivity|exact IH].
Qed.

Section VectorIndexMore.
Context `{EG : EmbeddingGateway} `{SI : !SimilarityIndex}.

(** An [add_documents] that raises has changed nothing, and none hangs. *)
Lemma add_documents_outcome (docs : list string) (v : VectorIndex.t) :
  (exists v', VectorIndex.add_documents docs v = (v', Ok tt))
  \/ (exists e, VectorIndex.add_documents docs v = (v, Raise e)).
Proof.
  unfold VectorIndex.add_documents, bind, call, get, modify.
  unfold encode. destruct (encode_error docs); [eauto|].
  destruct (VectorIndex.index v); simpl.
  - unfold VectorIndex.vstack.
    destruct (VectorIndex.embeddings v); simpl; [|eauto].
    destruct docs; simpl; eauto.
  - destruct docs; simpl; eauto.
Qed.

(** A completed [add_documents] has appended the texts and their vectors. *)
Lemma add_documents_ok (docs : list string) (v v' : VectorIndex.t) :
  VectorIndex.add_documents docs v = (v', Ok tt) ->
  VectorIndex.text_chunks v' = VectorIndex.text_chunks v ++ docs
  /\ VectorIndex.vectors v' = VectorIndex.vectors v ++ map embed docs
  /\ VectorIndex.index v' <> None.
Proof.
  unfold VectorIndex.add_documents, bind, call, get, modify.
  unfold encode. destruct (encode_error docs); [discriminate|].
  unfold VectorIndex.vectors.
  destruct (VectorIndex.index v) eqn:Ei; simpl.
  - unfold VectorIndex.vstack.
    destruct (VectorIndex.embeddings v); simpl; [|discriminate].
    destruct docs as [|d ds]; simpl; [discriminate|].
    intros H. inversion H; subst; simpl. rewrite Ei. simpl. auto.
  - destruct docs as [|d ds]; simpl; [discriminate|].
    intros H. inversion H; subst; simpl. auto.
Qed.

End VectorIndexMore.

Section IngestFileSpec.
Context `{EG : EmbeddingGateway} `{SI : !SimilarityIndex} `{FS : FileSystem}.

Lemma server_eta (s : MCPServer.t) :
  MCPServer.Mk (MCPServer.ingested_files s) (MCPServer.vector_index s)
               (MCPServer.chunk_metadata s) = s.
Proof. now destruct s. Qed.

(** Every way [ingest_file] can go: on an existing file whose read loop
    does not end it does not return and the server is as it was; otherwise
    it returns, and either it reports something other than success and the
    server is as it was, or it reports success, having stored the record of
    a file whose hash was not a key and, for indexable content, appended
    its chunks to the vector index and to the chunk metadata. *)
Lemma ingest_file_spec (s : MCPServer.t) file_path metadata :
  (path_exists file_path = true
   /\ MCPServer.hashed_bytes file_path = Hang
   /\ MCPServer.ingest_file file_path metadata s = (s, Hang))
  \/ exists s' r,
    MCPServer.ingest_file file_path metadata s = (s', Ok r)
    /\ ((s' = s /\ dict_get "status" r <> Some (PStr "success"))
        \/ exists file_hash size content,
            path_exists file_path = true
            /\ MCPServer.get_file_hash file_path = Some file_hash
            /\ stat_st_size file_path = Returned size
            /\ dict_mem file_hash (MCPServer.ingested_files s) = false
            /\ MCPServer.extract_content file_path
                 (MCPServer.file_type_of file_path) size s = (s, Ok content)
            /\ r = MCPServer.success file_path file_hash size
            /\ MCPServer.ingested_files s'
               = MCPServer.ingested_files s
                 ++ [(file_hash,
                      MCPServer.stored_record file_path file_hash metadata
                                              size content)]
            /\ if MCPServer.indexable content then
                 exists chunks,
                   MCPServer.chunks_of file_path file_hash content
                   = Some chunks
                   /\ VectorIndex.add_documents
                        (map MCPServer.text chunks) (MCPServer.vector_index s)
                      = (MCPServer.vector_index s', Ok tt)
                   /\ MCPServer.chunk_metadata s'
                      = Some (MCPServer.metadata_list s ++ chunks)
               else MCPServer.vector_index s' = MCPServer.vector_index s
                    /\ MCPServer.chunk_metadata s' = MCPServer.chunk_metadata s).
Proof.
  destruct (path_exists file_path) eqn:Ex.
  2:{ right. unfold MCPServer.ingest_file, try_except.
      unfold MCPServer.ingest_file_body. rewrite Ex. simpl.
      eexists _, _; split; [reflexivity|left; split; [reflexivity|discriminate]]. }
  destruct (MCPServer.get_file_hash file_path) as [file_hash|] eqn:Eh.
  2:{ left. assert (MCPServer.hashed_bytes file_path = Hang) as Hh.
      { unfold MCPServer.get_file_hash in Eh.
        now destruct (MCPServer.hashed_bytes file_path). }
      auto using ingest_file_hangs. }
  right. unfold MCPServer.ingest_file, try_except.
  destruct (stat_st_size file_path) as [size|e] eqn:Es.
  2:{ unfold MCPServer.ingest_file_body. rewrite Ex. change (negb true) with false. cbv iota.
      erewrite bind_ok by (unfold run_loop; rewrite Eh; reflexivity).
      erewrite bind_raise by (unfold call; rewrite Es; reflexivity).
      eexists _, _; split; [reflexivity|left; split; [reflexivity|discriminate]]. }
  destruct (dict_mem file_hash (MCPServer.ingested_files s)) eqn:Em.
  { unfold MCPServer.ingest_file_body. rewrite Ex. change (negb true) with false. cbv iota.
    erewrite bind_ok by (unfold run_loop; rewrite Eh; reflexivity).
    erewrite bind_ok by (unfold call; rewrite Es; reflexivity).
    erewrite bind_ok by reflexivity. rewrite Em.
    eexists _, _; split; [reflexivity|left; split; [reflexivity|discriminate]]. }
  destruct (extract_content_state file_path (MCPServer.file_type_of file_path)
              size s) as [content Ec].
  assert (forall s1 : MCPServer.t,
             bind (modify (fun s0 =>
                     MCPServer.set_ingested_files
                       (dict_set file_hash
                          (MCPServer.stored_record file_path file_hash
                             metadata size content)
                          (MCPServer.ingested_files s0)) s0))
                  (fun _ => bind MCPServer.save_files_db
                     (fun _ => ret (MCPServer.success file_path file_hash
                                                      size))) s1
             = (MCPServer.set_ingested_files
                  (dict_set file_hash
                     (MCPServer.stored_record file_path file_hash metadata
                                              size content)
                     (MCPServer.ingested_files s1)) s1,
                Ok (MCPServer.success file_path file_hash size))) as Htail.
  { intros s1. unfold bind, modify. now rewrite save_files_db_state. }
  unfold MCPServer.ingest_file_body. rewrite Ex. change (negb true) with false. cbv iota.
  erewrite bind_ok by (unfold run_loop; rewrite Eh; reflexivity).
  erewrite bind_ok by (unfold call; rewrite Es; reflexivity).
  erewrite bind_ok by reflexivity. rewrite Em.
  erewrite bind_ok by exact Ec.
  fold (MCPServer.indexable content).
  fold (MCPServer.chunks_of file_path file_hash content).
  fold (MCPServer.stored_record file_path file_hash metadata size content).
  fold (MCPServer.success file_path file_hash size).
  destruct (MCPServer.indexable content) eqn:Ei.
  - destruct (default_chunking_finishes content
                (Some file_hash)
                (Some (path_name file_path))
                (Some (MCPServer.file_type_of file_path))) as [chunks Hc].
    fold (MCPServer.chunks_of file_path file_hash content) in Hc.
    rewrite Hc.
    destruct (add_documents_outcome (map MCPServer.text chunks)
                (MCPServer.vector_index s)) as [[v' Ha]|[e Ha]].
    + erewrite bind_ok; [rewrite Htail|].
      2:{ erewrite bind_ok by reflexivity.
          erewrite bind_ok;
            [|unfold MCPServer.on_vector_index, zoom; rewrite Ha; reflexivity].
          reflexivity. }
      eexists _, _. split; [reflexivity|]. right.
      exists file_hash, size, content.
      simpl. rewrite Ei. rewrite dict_set_new by assumption.
      repeat split; auto. exists chunks. auto.
    + erewrite bind_raise.
      2:{ erewrite bind_ok by reflexivity.
          erewrite bind_raise;
            [|unfold MCPServer.on_vector_index, zoom; rewrite Ha; reflexivity].
          reflexivity. }
      unfold MCPServer.set_vector_index. rewrite server_eta.
      eexists _, _. split; [reflexivity|]. left.
      split; [reflexivity|discriminate].
  - erewrite bind_ok by reflexivity. rewrite Htail.
    eexists _, _. split; [reflexivity|]. right.
    exists file_hash, size, content.
    simpl. rewrite Ei. rewrite dict_set_new by assumption.
    repeat split; auto.
Qed.

End IngestFileSpec.

Section ServerMore.
Context `{EG : EmbeddingGateway} `{SI : !SimilarityIndex} `{FS : FileSystem}.

(** X1.  [ingest_file] is all or nothing: when the dictionary it returns
    does not carry the status ["success"] (file not found, already stored,
    or any error, among them a failure of the embedder), the server is
    exactly as before -- records, vector index, chunk list and chunk
    metadata. *)
Theorem ingest_file_all_or_nothing
        (s s' : MCPServer.t) (file_path : string)
        (metadata : option (dict string)) (r : dict pyval) :
  MCPServer.ingest_file file_path metadata s = (s', Ok r) ->
  dict_get "status" r <> Some (PStr "success") ->
  s' = s.
Proof.
  intros H Hn.
  destruct (ingest_file_spec s file_path metadata)
    as [(_ & _ & E)|(s1 & r1 & E & Hc)]; [rewrite E in H; discriminate|].
  rewrite E in H. inversion H; subst; clear H.
  destruct Hc as [[-> _]|(h & size & content & _ & _ & _ & _ & _ & -> & _)];
    [reflexivity|].
  exfalso. apply Hn. reflexivity.
Qed.

(** X2.  After an [ingest_file] that reports success, [get_file] on the id
    of the file returns the record that was built (id, name, size, type,
    extracted content, metadata), every other id resolves as before, and
    [list_files] is the former list followed by the summary of the new
    record. *)
Theorem ingest_file_stores_record
        (s s' : MCPServer.t) (file_path : string)
        (metadata : option (dict string)) (r : dict pyval) :
  MCPServer.ingest_file file_path metadata s = (s', Ok r) ->
  dict_get "status" r = Some (PStr "success") ->
  exists file_hash size content,
    let record :=
      MCPServer.stored_record file_path file_hash metadata size content in
    MCPServer.get_file_hash file_path = Some file_hash
    /\ stat_st_size file_path = Returned size
    /\ MCPServer.extract_content file_path (MCPServer.file_type_of file_path)
         size s = (s, Ok content)
    /\ r = MCPServer.success file_path file_hash size
    /\ MCPServer.get_file s' file_hash = inl record
    /\ (forall other, other <> file_hash ->
          MCPServer.get_file s' other = MCPServer.get_file s other)
    /\ MCPServer.list_files s'
       = MCPServer.list_files s
         ++ [MCPServer.Summary (fi_id record) (fi_name record)
               (fi_size record) (fi_type record) (fi_ingested_at record)].
Proof.
  intros H Hst.
  destruct (ingest_file_spec s file_path metadata)
    as [(_ & _ & E)|(s1 & r1 & E & Hc)]; [rewrite E in H; discriminate|].
  rewrite E in H. inversion H; subst; clear H.
  destruct Hc
    as [[_ Hn]|(h & size & content & _ & Hh & Hs & Hm & Hx & -> & Hi & _)];
    [contradiction|].
  exists h, size, content. cbv zeta. repeat split; auto.
  - unfold MCPServer.get_file. rewrite Hi.
    now rewrite dict_get_app_new.
  - intros other Hne. unfold MCPServer.get_file. rewrite Hi.
    now rewrite dict_get_app_other.
  - unfold MCPServer.list_files. rewrite Hi, map_app. reflexivity.
Qed.

End ServerMore.

Lemma ingest_file_all_or_nothing_witness :
  fst (@MCPServer.ingest_file Demo.embedding Demo.disk
         "mcp_storage/missing.txt" None Demo.server_a)
  = Demo.server_a.
Proof.
  exact (@ingest_file_all_or_nothing Demo.embedding Demo.disk
           Demo.server_a
           (fst (@MCPServer.ingest_file Demo.embedding Demo.disk
                   "mcp_storage/missing.txt" None Demo.server_a))
           "mcp_storage/missing.txt" None
           [("error", PStr "File not found: mcp_storage/missing.txt")]
           eq_refl ltac:(discriminate)).
Defined.

Lemma ingest_file_stores_record_witness :
  @MCPServer.get_file Demo.embedding Demo.server_a "sha3"
  = inl (FileInfo "sha3" "mcp_storage/a.txt" "mcp_storage/a.txt" 3
           "text/plain" "a b" "2025-01-01T00:00:00" []).
Proof.
  destruct (@ingest_file_stores_record Demo.embedding Demo.disk
              (MCPServer.init []) Demo.server_a "mcp_storage/a.txt" None
              (@MCPServer.success Demo.disk "mcp_storage/a.txt" "sha3" 3)
              eq_refl eq_refl)
    as (h & size & content & Hh & Hs & Hx & _ & Hg & _).
  inversion Hh; subst. inversion Hs; subst. inversion Hx; subst. exact Hg.
Defined.

Section ServerContent.
Context `{EG : EmbeddingGateway} `{SI : !SimilarityIndex} `{FS : FileSystem}.

Lemma read_text_loop_skips file_path tried encs :
  Forall (fun enc => open_read file_path enc = ReadUnicodeDecodeError) tried ->
  MCPServer.read_text_loop file_path (tried ++ encs)
  = MCPServer.read_text_loop file_path encs.
Proof.
  induction 1 as [|enc tried He _ IH]; simpl; [reflexivity|].
  now rewrite He.
Qed.

Lemma decode_marker_not_indexable file_path :
  MCPServer.indexable
    ("[Error: Could not decode file " +:+ path_str file_path +:+ "]") = false.
Proof. reflexivity. Qed.

(** X3.  [read_text_file] tries utf-8, utf-16, latin-1 and cp1252 in that
    order: the text read with the first encoding that does not raise
    [UnicodeDecodeError] is returned; any other exception stops the loop at
    once, the encodings after it are not tried; and when no encoding has
    given a text the result is the marker
    ["[Error: Could not decode file <path>]"], which [ingest_file] never
    indexes. *)
Theorem read_text_file_first_success
        (file_path : string) (tried rest : list string) (enc : string) :
  MCPServer.encodings = tried ++ enc :: rest ->
  Forall (fun e => open_read file_path e = ReadUnicodeDecodeError) tried ->
  (forall text, open_read file_path enc = ReadOk text ->
                MCPServer.read_text_file file_path = text)
  /\ (forall e, open_read file_path enc = ReadError e ->
                MCPServer.read_text_file file_path
                = "[Error: Could not decode file " +:+ path_str file_path
                  +:+ "]")
  /\ (open_read file_path enc = ReadUnicodeDecodeError ->
      Forall (fun e => open_read file_path e = ReadUnicodeDecodeError) rest ->
      MCPServer.read_text_file file_path
      = "[Error: Could not decode file " +:+ path_str file_path +:+ "]")
  /\ MCPServer.indexable
       ("[Error: Could not decode file " +:+ path_str file_path +:+ "]")
     = false.
Proof.
  intros Henc Htried. unfold MCPServer.read_text_file.
  rewrite Henc, read_text_loop_skips by assumption. simpl.
  repeat split.
  - intros text ->. reflexivity.
  - intros e ->. reflexivity.
  - intros -> Hrest.
    rewrite <- (app_nil_r rest), read_text_loop_skips by assumption.
    reflexivity.
Qed.

Lemma placeholder_not_indexable file_path size (s : MCPServer.t) content :
  MCPServer.placeholder_kind file_path ->
  MCPServer.extract_content file_path (MCPServer.file_type_of file_path)
    size s = (s, Ok content) ->
  MCPServer.indexable content = false.
Proof.
  unfold MCPServer.extract_content.
  intros [[Hp [e He]]|[[Hp [Ht Hx]]|[Hp Hr]]]; rewrite Hp.
  - unfold try_except, bind, call, ret. rewrite He.
    intros H. inversion H. reflexivity.
  - rewrite Ht, andb_false_r, Hx. unfold ret.
    intros H. inversion H. reflexivity.
  - assert (MCPServer.read_text_file file_path
            = "[Error: Could not decode file " +:+ path_str file_path +:+ "]")
      as Hm by (unfold MCPServer.read_text_file; now rewrite Hr).
    destruct (_ && _); [|destruct (existsb _ _)]; unfold ret;
      intros H; inversion H; subst; try rewrite Hm; reflexivity.
Qed.

(** X4.  A file whose content is a placeholder or an error marker -- a PDF
    that cannot be read, a file that is neither PDF nor text-like, a
    text-like file that no encoding decodes -- never reaches the vector
    index: whatever [ingest_file] returns, the index, its chunk list and
    the chunk metadata are as before. *)
Theorem placeholder_content_not_indexed
        (s s' : MCPServer.t) (file_path : string)
        (metadata : option (dict string)) (r : dict pyval) :
  MCPServer.placeholder_kind file_path ->
  MCPServer.ingest_file file_path metadata s = (s', Ok r) ->
  MCPServer.vector_index s' = MCPServer.vector_index s
  /\ MCPServer.chunk_metadata s' = MCPServer.chunk_metadata s.
Proof.
  intros Hk H.
  destruct (ingest_file_spec s file_path metadata)
    as [(_ & _ & E)|(s1 & r1 & E & Hc)]; [rewrite E in H; discriminate|].
  rewrite E in H. inversion H; subst; clear H.
  destruct Hc
    as [[-> _]|(h & size & content & _ & _ & _ & _ & Hx & _ & _ & Hi)];
    [split; reflexivity|].
  now rewrite (placeholder_not_indexable _ _ _ _ Hk Hx) in Hi.
Qed.

End ServerContent.

Lemma read_text_file_first_success_witness :
  @MCPServer.read_text_file Demo.disk "mcp_storage/a.txt" = "a b".
Proof.
  apply (proj1 (@read_text_file_first_success Demo.disk "mcp_storage/a.txt"
                  [] ["utf-16"; "latin-1"; "cp1252"] "utf-8"
                  eq_refl (List.Forall_nil _))).
  reflexivity.
Defined.

Lemma placeholder_content_not_indexed_witness :
  MCPServer.vector_index
    (fst (@MCPServer.ingest_file Demo.embedding Demo.blob_disk "photo.BIN"
            None (MCPServer.init [])))
  = VectorIndex.init
  /\ dict_get "photo.BIN"
       (map (fun kv => (fi_name (snd kv), fi_content (snd kv)))
          (MCPServer.ingested_files
             (fst (@MCPServer.ingest_file Demo.embedding Demo.blob_disk
                     "photo.BIN" None (MCPServer.init [])))))
     = Some "[Binary file: photo.BIN, size: 2 bytes]".
Proof.
  split; [|reflexivity].
  apply (@placeholder_content_not_indexed Demo.embedding Demo.blob_disk
           (MCPServer.init []) _ "photo.BIN" None
           (@MCPServer.success Demo.blob_disk "photo.BIN" "sha2" 2)).
  - right. left. repeat split; reflexivity.
  - reflexivity.
Defined.

Lemma dict_mem_app {V} (k : string) (d d' : dict V) :
  dict_mem k (d ++ d') = dict_mem k d || dict_mem k d'.
Proof. unfold dict_mem. apply existsb_app. Qed.

Lemma dict_mem_false_not_in {V} (k : string) (d : dict V) :
  dict_mem k d = false -> ~ In k (map fst d).
Proof.
  unfold dict_mem. induction d as [|[k' v] d IH]; simpl; [tauto|].
  destruct (String.eqb_spec k' k); simpl; [discriminate|].
  intros H [Hk|Hk]; [contradiction|]. now apply IH.
Qed.

Lemma dict_get_first {V} (k : string) (v : V) (d : dict V) :
  NoDup (map fst d) -> In (k, v) d -> dict_get k d = Some v.
Proof.
  induction d as [|[k' v'] d IH]; simpl; [tauto|].
  intros Hn [Hi|Hi].
  - inversion Hi; subst. now rewrite String.eqb_refl.
  - apply NoDup_cons in Hn as [Hk Hn].
    destruct (String.eqb_spec k' k) as [->|Hne]; [|now apply IH].
    exfalso. apply Hk. apply list_elem_of_In, in_map_iff. exists (k, v). auto.
Qed.

Section ServerInvariants.
Context `{EG : EmbeddingGateway} `{SI : !SimilarityIndex} `{FS : FileSystem}.

Lemma chunk_loop_lineage fuel words size overlap fid fname ftype i acc r :
  MCPServer.chunk_loop fuel words size overlap fid fname ftype i acc = Some r ->
  Forall (fun c => MCPServer.file_id c = fid) acc ->
  Forall (fun c => MCPServer.file_id c = fid) r.
Proof.
  revert i acc. induction fuel as [|fuel IH]; intros i acc H Ha;
    [discriminate|]. simpl in H.
  destruct (i <? _); [|now inversion H; subst].
  eapply IH; [exact H|]. apply Forall_app. split; [exact Ha|].
  constructor; [reflexivity|constructor].
Qed.

(** X5.  The chunk metadata of the server stays in step with its vector
    index: a server just constructed has it, and every [ingest_file],
    whatever it returns, keeps it -- the texts of [chunk_metadata] are the
    texts of the index, in order, and every chunk names as its origin the
    id of a file that is in the store. *)
Theorem chunk_metadata_in_step :
  (forall db, MCPServer.metadata_in_step (MCPServer.init db))
  /\ (forall (s : MCPServer.t) file_path metadata,
         MCPServer.metadata_in_step s ->
         MCPServer.metadata_in_step
           (fst (MCPServer.ingest_file file_path metadata s))).
Proof.
  split; [intros db; split; [reflexivity|constructor]|].
  intros s file_path metadata [Ht Hl].
  destruct (ingest_file_spec s file_path metadata)
    as [(_ & _ & E)|(s' & r & E & Hc)];
    [rewrite E; split; assumption|].
  rewrite E. simpl.
  destruct Hc
    as [[-> _]|(fh & size & content & _ & _ & _ & Hm & _ & _ & Hi & Hx)];
    [split; assumption|].
  assert (Forall (fun c => exists h, MCPServer.file_id c = Some h
                            /\ dict_mem h (MCPServer.ingested_files s') = true)
                 (MCPServer.metadata_list s)) as Hold.
  { eapply Forall_impl; [exact Hl|]. intros c (h & Hc & Hh). exists h.
    split; [exact Hc|]. rewrite Hi, dict_mem_app, Hh. reflexivity. }
  unfold MCPServer.metadata_in_step.
  destruct (MCPServer.indexable content).
  - destruct Hx as (chunks & Hk & Ha & Hcm).
    apply add_documents_ok in Ha as (Ha & _).
    assert (MCPServer.metadata_list s'
            = MCPServer.metadata_list s ++ chunks) as ->
        by (unfold MCPServer.metadata_list at 1; now rewrite Hcm).
    rewrite Ha, map_app, Ht.
    split; [reflexivity|]. apply Forall_app. split; [exact Hold|].
    unfold MCPServer.chunks_of, MCPServer.chunk_text in Hk.
    apply chunk_loop_lineage in Hk; [|constructor].
    eapply Forall_impl; [exact Hk|]. intros c Hc.
    exists fh. split; [exact Hc|].
    rewrite Hi, dict_mem_app. simpl. rewrite String.eqb_refl.
    apply orb_true_r.
  - destruct Hx as [Hv Hcm]. unfold MCPServer.metadata_list in *.
    rewrite Hcm, Hv. split; assumption.
Qed.

(** X6.  [ingest_file] keeps the store well keyed -- every record under its
    own id, no id twice -- and in a well-keyed store every listed summary
    resolves: [get_file] on the id of each entry of [list_files] returns the
    record that the entry summarises. *)
Theorem store_stays_well_keyed (s : MCPServer.t) :
  MCPServer.well_keyed (MCPServer.ingested_files s) ->
  (forall file_path metadata,
      MCPServer.well_keyed
        (MCPServer.ingested_files
           (fst (MCPServer.ingest_file file_path metadata s))))
  /\ (forall kv, In kv (MCPServer.ingested_files s) ->
                 MCPServer.get_file s (fi_id (snd kv)) = inl (snd kv)).
Proof.
  intros [Hid Hnd]. split.
  - intros file_path metadata.
    destruct (ingest_file_spec s file_path metadata)
      as [(_ & _ & E)|(s' & r & E & Hc)];
      [rewrite E; split; assumption|].
    rewrite E. simpl.
    destruct Hc
      as [[-> _]|(fh & size & content & _ & _ & _ & Hm & _ & _ & Hi & _)];
      [split; assumption|].
    rewrite Hi. split.
    + apply Forall_app. split; [exact Hid|]. constructor; [reflexivity|constructor].
    + rewrite map_app. apply NoDup_app. repeat split; [exact Hnd| |].
      * intros k Hk Hk'. apply list_elem_of_In in Hk, Hk'. simpl in Hk'.
        destruct Hk' as [<-|[]].
        now apply dict_mem_false_not_in in Hm.
      * apply NoDup_singleton.
  - intros [k v] Hin. simpl. unfold MCPServer.get_file.
    rewrite Forall_forall in Hid.
    assert (fi_id v = k) as ->
        by (apply (Hid (k, v)); now apply list_elem_of_In).
    now rewrite (dict_get_first k v _ Hnd Hin).
Qed.

End ServerInvariants.

Lemma chunk_metadata_in_step_witness :
  @MCPServer.metadata_in_step Demo.embedding Demo.server_a.
Proof.
  exact (proj2 (@chunk_metadata_in_step Demo.embedding Demo.disk)
           (MCPServer.init []) "mcp_storage/a.txt" None
           (proj1 (@chunk_metadata_in_step Demo.embedding Demo.disk) [])).
Defined.

Lemma store_stays_well_keyed_witness :
  MCPServer.well_keyed (MCPServer.ingested_files Demo.server_a).
Proof.
  apply (proj1 (@store_stays_well_keyed Demo.embedding Demo.disk
                  (MCPServer.init [])
                  (conj (List.Forall_nil _) NoDup_nil_2))
           "mcp_storage/a.txt" None).
Defined.

Section SearchFacts.
Context `{EG : EmbeddingGateway} `{SI : !SimilarityIndex} `{FS : FileSystem}.

(** [search] reads the index and changes nothing. *)
Lemma search_same_state (query : string) (top_k : Z) (v : VectorIndex.t) :
  exists o, VectorIndex.search query top_k v = (v, o).
Proof.
  unfold VectorIndex.search, bind, call, get, raise.
  destruct (encode [query]) as [q_vec|e]; [|eauto].
  destruct (VectorIndex.index v); [|eauto].
  destruct q_vec; [eauto|].
  destruct (search_l2 _ _ _). destruct (VectorIndex.search_rows _ _ _ _); eauto.
Qed.

Lemma py_index_pick {A} (xs : list A) (i : Z) (d : A) :
  -1 <= i < Z.of_nat (length xs) -> xs <> [] ->
  Py.index xs i
  = Returned (nth (Z.to_nat (if i =? -1
                             then Z.of_nat (length xs) - 1 else i)) xs d).
Proof.
  intros Hi Hne. unfold Py.index.
  assert (0 < Z.of_nat (length xs)) by (destruct xs; [congruence|simpl; lia]).
  destruct (Z.eqb_spec i (-1)) as [->|Hn].
  - change (-1 <? 0) with true. cbv iota.
    destruct (Z.ltb_spec (-1 + Z.of_nat (length xs)) 0); [lia|].
    destruct (Z.leb_spec (Z.of_nat (length xs)) (-1 + Z.of_nat (length xs)));
      [lia|]. simpl.
    replace (-1 + Z.of_nat (length xs)) with (Z.of_nat (length xs) - 1) by lia.
    destruct (xs !! _) eqn:E.
    + f_equal. symmetry. apply nth_lookup_Some with (d := d) in E. exact E.
    + apply lookup_ge_None in E. lia.
  - destruct (Z.ltb_spec i 0); [lia|].
    destruct (Z.ltb_spec i 0); [lia|].
    destruct (Z.leb_spec (Z.of_nat (length xs)) i); [lia|]. simpl.
    destruct (xs !! _) eqn:E.
    + f_equal. symmetry. apply nth_lookup_Some with (d := d) in E. exact E.
    + apply lookup_ge_None in E. lia.
Qed.

Lemma search_rows_pick (chunks : list string) (dists : list Q) (ids : list Z)
      (k : nat) :
  chunks <> [] ->
  Forall (fun i => -1 <= i < Z.of_nat (length chunks)) ids ->
  (k + length ids <= length dists)%nat ->
  VectorIndex.search_rows chunks dists ids (Z.of_nat k)
  = Returned
      (combine
         (map (fun i => nth (Z.to_nat (if i =? -1
                                       then Z.of_nat (length chunks) - 1
                                       else i)) chunks "") ids)
         (drop k dists)).
Proof.
  intros Hne Hids. revert k.
  induction Hids as [|i ids Hi _ IH]; intros k Hk; simpl; [reflexivity|].
  destruct (Z.ltb_spec i (Z.of_nat (length chunks))); [|lia].
  rewrite (py_index_pick chunks i "") by assumption.
  simpl in Hk.
  destruct (drop k dists) as [|d ds] eqn:Ed.
  { apply (f_equal (@length Q)) in Ed. rewrite length_drop in Ed.
    simpl in Ed. lia. }
  assert (Py.index dists (Z.of_nat k) = Returned d) as ->.
  { unfold Py.index.
    destruct (Z.ltb_spec (Z.of_nat k) 0); [lia|].
    destruct (Z.ltb_spec (Z.of_nat k) 0); [lia|].
    destruct (Z.leb_spec (Z.of_nat (length dists)) (Z.of_nat k)); [lia|].
    simpl. rewrite Nat2Z.id.
    assert (dists !! k = Some d) as ->; [|reflexivity].
    rewrite <- (Nat.add_0_r k), <- lookup_drop, Ed. reflexivity. }
  replace (Z.of_nat k + 1) with (Z.of_nat (S k)) by lia.
  rewrite IH by lia.
  assert (drop (S k) dists = ds) as ->; [|reflexivity].
  replace (S k) with (k + 1)%nat by lia.
  now rewrite <- drop_drop, Ed.
Qed.

(** X7.  [VectorIndex.search] on an index that exists, with an embedder
    that answers and rows in which every position is [-1] or below the
    number of stored texts: the result pairs, entry by entry, the stored
    text at each position with the distance of its rank -- and a position
    of [-1], the filler for a missing neighbour, is read from the end, so
    the last stored text is reported for it.  The index is not changed. *)
Theorem search_pairs_texts_with_distances
        (v : VectorIndex.t) (ix : list vec) (query : string) (top_k : Z)
        (dists : list Q) (ids : list Z) :
  VectorIndex.index v = Some ix ->
  encode_error [query] = None ->
  search_l2 ix (embed query) top_k = (dists, ids) ->
  VectorIndex.text_chunks v <> [] ->
  Forall (fun i => -1 <= i < Z.of_nat (length (VectorIndex.text_chunks v)))
         ids ->
  (length ids <= length dists)%nat ->
  VectorIndex.search query top_k v
  = (v, Ok (combine
              (map (fun i =>
                      nth (Z.to_nat
                             (if i =? -1
                              then Z.of_nat
                                     (length (VectorIndex.text_chunks v)) - 1
                              else i))
                          (VectorIndex.text_chunks v) "") ids)
              dists)).
Proof.
  intros Hi He Hs Hne Hids Hlen.
  unfold VectorIndex.search, bind, call, get, encode.
  rewrite He, Hi. simpl. rewrite Hs.
  rewrite (search_rows_pick _ dists ids 0) by (auto; simpl; lia).
  reflexivity.
Qed.

(** X8.  [search_files] never changes the server, and on a server whose
    vector index has not been created -- nothing indexed since start-up,
    whatever the store holds -- it raises instead of returning an empty
    list: the vector search runs before the test on [chunk_metadata], and
    fails on the missing index with [AttributeError] when the embedder
    has answered. *)
Theorem search_files_needs_an_index (s : MCPServer.t) (query : string) :
  fst (MCPServer.search_files query s) = s
  /\ (VectorIndex.index (MCPServer.vector_index s) = None ->
      exists e, MCPServer.search_files query s = (s, Raise e)
                /\ (encode_error [query] = None ->
                    exn_type e = "AttributeError")).
Proof.
  unfold MCPServer.search_files, MCPServer.on_vector_index.
  destruct (search_same_state query 5 (MCPServer.vector_index s)) as [o Ho].
  split.
  - unfold bind, zoom. rewrite Ho. unfold MCPServer.set_vector_index.
    rewrite server_eta.
    destruct o; simpl; try reflexivity.
    unfold get. now destruct (MCPServer.chunk_metadata s).
  - intros Hn. unfold bind, zoom. rewrite Ho.
    unfold MCPServer.set_vector_index. rewrite server_eta.
    unfold VectorIndex.search, bind, call, get, raise, encode in Ho.
    destruct (encode_error [query]) as [e|].
    + inversion Ho; subst. exists e. split; [reflexivity|discriminate].
    + simpl in Ho. rewrite Hn in Ho. inversion Ho; subst.
      eexists. split; reflexivity.
Qed.

End SearchFacts.

Lemma search_pairs_witness :
  @VectorIndex.search Demo.embedding Demo.padded_index "a" 2
    (MCPServer.vector_index Demo.server_a)
  = (MCPServer.vector_index Demo.server_a,
     Ok [("a b", 1 # 10); ("a b", 9 # 1)]).
Proof.
  apply (@search_pairs_texts_with_distances Demo.embedding Demo.padded_index
           (MCPServer.vector_index Demo.server_a) ["a b"] "a" 2
           [1 # 10; 9 # 1] [0; -1]).
  - reflexivity.
  - reflexivity.
  - reflexivity.
  - discriminate.
  - repeat (constructor; [simpl; lia|]). constructor.
  - simpl. lia.
Defined.

Lemma search_files_needs_an_index_witness :
  exists e,
    @MCPServer.search_files Demo.embedding Demo.cosine_index "alpha"
      (MCPServer.init [])
    = (MCPServer.init [], Raise e)
    /\ exn_type e = "AttributeError".
Proof.
  destruct (proj2 (@search_files_needs_an_index Demo.embedding
                     Demo.cosine_index (MCPServer.init []) "alpha")
              eq_refl) as (e & He & Ht).
  exists e. split; [exact He|]. apply Ht. reflexivity.
Defined.

(* ===================================================================== *)
(** * Words and chunks: nothing lost, nothing repeated *)
(* ===================================================================== *)

Lemma append_cons (x : ascii) (a b : string) :
  String x a +:+ b = String x (a +:+ b).
Proof. reflexivity. Qed.

Lemma append_assoc (a b c : string) : (a +:+ b) +:+ c = a +:+ (b +:+ c).
Proof.
  induction a as [|x a IH]; [reflexivity|].
  now rewrite !append_cons, IH.
Qed.

Lemma append_nil_r (a : string) : a +:+ "" = a.
Proof.
  induction a as [|x a IH]; [reflexivity|]. now rewrite append_cons, IH.
Qed.

Lemma length_append (a b : string) :
  String.length (a +:+ b) = (String.length a + String.length b)%nat.
Proof.
  induction a as [|x a IH]; [reflexivity|].
  rewrite append_cons. simpl. now rewrite IH.
Qed.

Lemma no_space_append (a b : string) :
  PyText.no_space (a +:+ b) = PyText.no_space a && PyText.no_space b.
Proof.
  induction a as [|x a IH]; [reflexivity|].
  rewrite append_cons. simpl. now rewrite IH, andb_assoc.
Qed.

Lemma split_from_word (w cur s : string) :
  PyText.no_space w = true ->
  split_from cur (w +:+ s) = split_from (cur +:+ w) s.
Proof.
  revert cur. induction w as [|c w IH]; intros cur H.
  - now rewrite append_nil_r.
  - simpl in H. apply andb_true_iff in H as [Hc Hw].
    apply negb_true_iff in Hc. rewrite append_cons. simpl.
    rewrite Hc, IH by assumption.
    now rewrite append_assoc.
Qed.

Lemma split_from_no_space (s cur : string) :
  PyText.no_space cur = true ->
  Forall (fun w => PyText.no_space w = true) (split_from cur s).
Proof.
  revert cur. induction s as [|c s IH]; intros cur H; simpl.
  - destruct (String.eqb cur ""); auto.
  - destruct (is_space c) eqn:Ec.
    + destruct (String.eqb cur ""); [|constructor; [assumption|]];
        now apply IH.
    + apply IH. rewrite no_space_append, H. simpl. now rewrite Ec.
Qed.

(** The words of a text hold no whitespace. *)
Lemma split_no_space (s : string) :
  Forall (fun w => PyText.no_space w = true) (split s).
Proof. now apply split_from_no_space. Qed.

(** Joining words with a space and splitting again gives the words back. *)
Lemma split_join (ws : list string) :
  Forall (fun w => w <> "") ws ->
  Forall (fun w => PyText.no_space w = true) ws ->
  split (join " " ws) = ws.
Proof.
  unfold split, join.
  induction ws as [|w ws IH]; intros Hne Hns; [reflexivity|].
  apply Forall_cons_1 in Hne as [Hw Hne]. apply Forall_cons_1 in Hns as [Hs Hns].
  destruct ws as [|w' ws].
  - simpl. rewrite <- (append_nil_r w) at 1.
    rewrite split_from_word by assumption.
    change ("" +:+ w) with w. simpl.
    destruct (String.eqb_spec w ""); [contradiction|reflexivity].
  - change (String.concat " " (w :: w' :: ws))
      with (w +:+ (String " " (String.concat " " (w' :: ws)))).
    rewrite split_from_word by assumption.
    change ("" +:+ w) with w.
    change (split_from w (String " " (String.concat " " (w' :: ws))))
      with (if String.eqb w "" then split_from "" (String.concat " " (w' :: ws))
            else w :: split_from "" (String.concat " " (w' :: ws))).
    destruct (String.eqb_spec w ""); [contradiction|].
    f_equal. now apply IH.
Qed.

(** Windows that start one window size apart, put end to end, are the
    words. *)
Lemma concat_windows_seq (words : list string) (size k m : nat) :
  concat (map (Spec.window words size size) (seq k m))
  = take (m * size) (drop (k * size) words).
Proof.
  revert k. induction m as [|m IH]; intros k; simpl; [reflexivity|].
  rewrite IH. unfold Spec.window.
  replace (S k * size)%nat with (k * size + size)%nat by lia.
  rewrite <- drop_drop. apply take_take_drop.
Qed.

Lemma concat_windows (words : list string) (size : nat) :
  (1 <= size)%nat -> concat (Spec.windows words size size) = words.
Proof.
  intros Hs. unfold Spec.windows. rewrite concat_windows_seq. simpl.
  rewrite drop_0. apply take_ge.
  destruct (Nat.le_gt_cases (length words)
              (Spec.window_count (length words) size * size)) as [|Hlt];
    [assumption|].
  apply (window_count_gt (length words) size) in Hlt; lia.
Qed.

(** The wrapper's chunks are the windows without overlap. *)
Lemma wrapper_chunk_text_windows (size : Z) (text : string) :
  0 < size ->
  MCPWrapperOllama.chunk_text size text
  = Returned (map (join " ")
                  (Spec.windows (split text) (Z.to_nat size) (Z.to_nat size))).
Proof.
  intros Hs. unfold MCPWrapperOllama.chunk_text, range0, Spec.windows.
  destruct (Z.eqb_spec size 0); [lia|]. destruct (Z.ltb_spec size 0); [lia|].
  f_equal. rewrite !map_map. apply map_ext_in. intros k Hk.
  apply in_seq in Hk. f_equal.
  assert (k * Z.to_nat size < length (split text))%nat as Hlt.
  { apply window_count_gt; [lia|]. unfold Spec.window_count in *. lia. }
  rewrite slice_window by lia. unfold Spec.window.
  now rewrite Nat2Z.id.
Qed.

(** X9.  The chunks of [MCPWrapperOllama.chunk_text] hold the words of the
    text, each once and in order: for a positive [chunk_size] the words of
    the chunks, read one chunk after the other, are the words of the text,
    every chunk has between one and [chunk_size] words, and their number is
    the number of words divided by [chunk_size], rounded up.  A
    [chunk_size] of zero raises [ValueError], a negative one gives no
    chunk at all. *)
Theorem wrapper_chunks_keep_the_words (size : Z) (text : string) :
  (0 < size ->
   exists chunks,
     MCPWrapperOllama.chunk_text size text = Returned chunks
     /\ concat (map split chunks) = split text
     /\ Forall (fun c => (1 <= length (split c) <= Z.to_nat size)%nat) chunks
     /\ length chunks
        = Spec.window_count (length (split text)) (Z.to_nat size))
  /\ (size = 0 ->
      exists e, MCPWrapperOllama.chunk_text size text = Failed e
                /\ exn_type e = "ValueError")
  /\ (size < 0 -> MCPWrapperOllama.chunk_text size text = Returned []).
Proof.
  split; [|split].
  - intros Hs. rewrite wrapper_chunk_text_windows by assumption.
    eexists. split; [reflexivity|].
    assert (forall k, (k < Spec.window_count (length (split text))
                             (Z.to_nat size))%nat ->
              let w := Spec.window (split text) (Z.to_nat size)
                                   (Z.to_nat size) k in
              split (join " " w) = w /\ (1 <= length w <= Z.to_nat size)%nat)
      as Hw.
    { intros k Hk w. apply window_count_gt in Hk; [|lia]. split.
      - apply split_join; unfold w, Spec.window.
        + apply Forall_take, Forall_drop, split_nonempty.
        + apply Forall_take, Forall_drop, split_no_space.
      - unfold w. rewrite window_length. lia. }
    repeat split.
    + rewrite map_map.
      rewrite <- (concat_windows (split text) (Z.to_nat size)) at 2 by lia.
      f_equal. unfold Spec.windows. rewrite map_map.
      apply map_ext_in. intros k Hk. apply in_seq in Hk.
      apply Hw. lia.
    + apply Forall_forall. intros c Hc.
      apply list_elem_of_fmap in Hc as (w & -> & Hin).
      unfold Spec.windows in Hin.
      apply list_elem_of_fmap in Hin as (k & -> & Hk).
      apply elem_of_seq in Hk.
      destruct (Hw k ltac:(lia)) as [-> Hl]. exact Hl.
    + unfold Spec.windows. now rewrite !length_map, length_seq.
  - intros ->. eexists. split; reflexivity.
  - intros Hs. unfold MCPWrapperOllama.chunk_text, range0.
    destruct (Z.eqb_spec size 0); [lia|]. destruct (Z.ltb_spec size 0); [|lia].
    reflexivity.
Qed.

Lemma wrapper_chunks_witness :
  exists chunks,
    MCPWrapperOllama.chunk_text 2 "alpha  beta gamma" = Returned chunks
    /\ concat (map split chunks) = ["alpha"; "beta"; "gamma"].
Proof.
  destruct (proj1 (wrapper_chunks_keep_the_words 2 "alpha  beta gamma")
              ltac:(lia)) as (chunks & Hc & Hw & _).
  exists chunks. split; [exact Hc|exact Hw].
Defined.

Lemma window_split_join (words : list string) (size stride k : nat) :
  Forall (fun w => w <> "") words ->
  Forall (fun w => PyText.no_space w = true) words ->
  split (join " " (Spec.window words size stride k))
  = Spec.window words size stride k.
Proof.
  intros Hne Hns. apply split_join; unfold Spec.window.
  - now apply Forall_take, Forall_drop.
  - now apply Forall_take, Forall_drop.
Qed.

(** X10.  With a window of at least one word and an overlap from zero to
    below the window size, the chunks of [MCPServer.chunk_text] lose no
    word: the word at position [j] of the text is in chunk [j / stride], at
    position [j mod stride]; the number of chunks is the number of words
    divided by the stride, rounded up; and each chunk after the first
    starts with the words that follow the first [stride] words of the
    chunk before it -- the overlap. *)
Theorem server_chunks_cover_the_words
        (text : string) (chunk_size overlap : Z)
        (fid fname ftype : option string) (fuel : nat) :
  1 <= chunk_size -> 0 <= overlap < chunk_size ->
  (length (split text) < fuel)%nat ->
  let stride := Z.to_nat (chunk_size - overlap) in
  exists chunks,
    MCPServer.chunk_text fuel text chunk_size overlap fid fname ftype
    = Some chunks
    /\ length chunks = Spec.window_count (length (split text)) stride
    /\ (forall (j : nat) w,
           split text !! j = Some w ->
           exists c, chunks !! (j / stride)%nat = Some c
                     /\ split (MCPServer.text c) !! (j mod stride)%nat
                        = Some w)
    /\ (forall (k : nat) c c',
           chunks !! k = Some c -> chunks !! S k = Some c' ->
           take (Z.to_nat overlap) (split (MCPServer.text c'))
           = drop stride (split (MCPServer.text c))).
Proof.
  intros Hsz Hov Hf stride.
  pose proof (chunk_loop_windows (split text) chunk_size overlap fid fname
                ftype (Spec.window_count (length (split text)) stride)
                0 fuel [] Hsz ltac:(lia) eq_refl
                ltac:(pose proof (window_count_le (length (split text))
                                    stride ltac:(unfold stride; lia)); lia))
    as H.
  change (Z.of_nat (0 * Z.to_nat (chunk_size - overlap))) with 0 in H.
  fold stride in H. simpl app in H. rewrite map_map in H.
  unfold MCPServer.chunk_text. rewrite H. clear H.
  eexists. split; [reflexivity|].
  assert (1 <= stride)%nat as Hst by (unfold stride; lia).
  assert (Z.to_nat chunk_size = stride + Z.to_nat overlap)%nat as Hsum
      by (unfold stride; lia).
  assert (forall k c,
             map (fun w => MCPServer.ChunkInfo (join " " w) fid fname ftype)
                 (map (Spec.window (split text) (Z.to_nat chunk_size) stride)
                      (seq 0 (Spec.window_count (length (split text)) stride)))
             !! k = Some c ->
             (k < Spec.window_count (length (split text)) stride)%nat
             /\ split (MCPServer.text c)
                = Spec.window (split text) (Z.to_nat chunk_size) stride k)
    as Hchunk.
  { intros k c Hk. rewrite !list_lookup_fmap in Hk.
    destruct (seq _ _ !! k) as [k'|] eqn:Ek; [|discriminate].
    apply lookup_seq in Ek as [-> Hlt]. simpl in Hk. inversion Hk; subst.
    split; [exact Hlt|]. simpl.
    apply window_split_join; [apply split_nonempty|apply split_no_space]. }
  rewrite map_map in Hchunk.
  repeat split.
  - now rewrite length_map, length_seq.
  - intros j w Hj.
    assert (j < length (split text))%nat as Hjn by (eapply lookup_lt_Some; eauto).
    assert (j / stride < Spec.window_count (length (split text)) stride)%nat
      as Hk.
    { apply window_count_gt; [assumption|].
      pose proof (Nat.Div0.mul_div_le j stride). lia. }
    destruct (lookup_lt_is_Some_2
                (map (fun x => MCPServer.ChunkInfo
                                 (join " " (Spec.window (split text)
                                    (Z.to_nat chunk_size) stride x))
                                 fid fname ftype)
                     (seq 0 (Spec.window_count (length (split text)) stride)))
                (j / stride)%nat) as [c Hc].
    { now rewrite length_map, length_seq. }
    exists c. split; [exact Hc|].
    destruct (Hchunk _ _ Hc) as [_ ->]. unfold Spec.window.
    pose proof (Nat.mod_upper_bound j stride ltac:(lia)).
    rewrite lookup_take_lt by lia. rewrite lookup_drop.
    rewrite <- Hj. f_equal.
    pose proof (Nat.div_mod_eq j stride). lia.
  - intros k c c' Hc Hc'.
    destruct (Hchunk _ _ Hc) as [_ ->]. destruct (Hchunk _ _ Hc') as [_ ->].
    unfold Spec.window. rewrite take_take.
    replace (Nat.min (Z.to_nat overlap) (Z.to_nat chunk_size))
      with (Z.to_nat overlap) by lia.
    replace (S k * stride)%nat with (k * stride + stride)%nat by lia.
    rewrite <- drop_drop, take_drop_commute. now rewrite Hsum.
Qed.

Lemma server_chunks_cover_witness :
  exists chunks,
    MCPServer.chunk_text 6%nat "a b c d e" 3 1 None None None = Some chunks
    /\ length chunks = 3%nat.
Proof.
  destruct (server_chunks_cover_the_words "a b c d e" 3 1 None None None
              6%nat ltac:(lia) ltac:(lia) ltac:(vm_compute; lia))
    as (chunks & Hc & Hl & _).
  exists chunks. split; [exact Hc|exact Hl].
Defined.

(* ===================================================================== *)
(** * Further properties of [MCPWrapperOllama] *)
(* ===================================================================== *)

Section WrapperMore.
Context `{EG : EmbeddingGateway} `{SI : !SimilarityIndex}
        `{GG : GenerationGateway}.
Import MCPWrapperOllama.

(** X11.  A rebuild ([ingest_documents] with [refresh=True]) depends on the
    documents only: when it completes, the chunk list is made of the chunks
    of the documents, in order, and the index of their vectors, whatever
    was stored before.  When it does not complete, what was stored before
    is gone all the same: the index holds no vector and the chunk list
    holds the chunks of the first documents only. *)
Theorem refresh_discards_previous_content (docs : list string) (s : t) :
  (forall s',
      ingest_documents docs true s = (s', Ok tt) ->
      exists batches,
        chunked (chunk_size s) docs batches
        /\ doc_chunks s' = concat batches
        /\ vectors s' = map chunk_vector (concat batches))
  /\ (forall s' o,
         ingest_documents docs true s = (s', o) -> o <> Ok tt ->
         vectors s' = []
         /\ exists n batches,
             chunked (chunk_size s) (take n docs) batches
             /\ doc_chunks s' = concat batches).
Proof.
  split.
  - intros s' H.
    apply ingest_documents_ok in H as (batches & Hb & Hd & Hv & _).
    eauto.
  - intros s' o H Hno. unfold ingest_documents in H.
    unfold bind at 1 in H. unfold bind at 1 in H. simpl in H.
    unfold bind in H.
    destruct (for_fold docs [] ingest_one (index_reset (set_doc_chunks [] s)))
      as [s1 o1] eqn:E1.
    apply ingest_loop_any in E1 as (n & batches & Hb & ->).
    destruct o1 as [embs|e|].
    + exfalso. apply Hno. destruct embs as [|e es].
      * now inversion H.
      * unfold _ensure_index, bind, get, modify in H. simpl in H.
        destruct (index s); simpl in H; now inversion H.
    + inversion H; subst. split.
      * unfold vectors. simpl. now destruct (index s).
      * exists n, batches. simpl. auto.
    + inversion H; subst. split.
      * unfold vectors. simpl. now destruct (index s).
      * exists n, batches. simpl. auto.
Qed.

Lemma retrieve_state question top_k (s : t) :
  fst (retrieve_with_scores question top_k s) = s
  \/ (index s <> None /\ doc_chunks s <> []
      /\ fst (retrieve_with_scores question top_k s)
         = log_encode [question] s).
Proof.
  unfold retrieve_with_scores, embedder_encode, bind, get, modify, call, ret.
  destruct (index s) as [ix|]; [|now left].
  destruct (doc_chunks s) as [|c cs] eqn:Ed; [now left|]. simpl.
  right. split; [discriminate|]. split; [discriminate|].
  destruct (encode [question]) as [qv|e]; [|reflexivity]. simpl.
  destruct (map normalize_L2 qv); [reflexivity|].
  destruct (search_ip _ _ _).
  now destruct (chunks_at _ _).
Qed.

Lemma query_state question strong weak top_k (s : t) :
  fst (query question strong weak top_k s)
  = fst (retrieve_with_scores question top_k s).
Proof.
  unfold query, query_prompt, bind at 1 2.
  destruct (retrieve_with_scores question top_k s) as [s1 [[chunks scores]|e|]];
    try reflexivity.
  unfold call at 1.
  destruct (select_prompt _ _ _ _ _); [|reflexivity].
  unfold bind, get, call, ret. now destruct (generate _ _ _).
Qed.

(** X12.  [query] only reads the wrapper: whatever it returns or raises,
    the index, the chunk list, the model name and the chunk size are
    unchanged, and the embedder has been called at most once, on the
    question alone -- not at all when the index is absent or the chunk list
    empty. *)
Theorem query_reads_only
        (s : t) (question : string) (strong weak : Q) (top_k : Z) :
  let s' := fst (query question strong weak top_k s) in
  index s' = index s /\ doc_chunks s' = doc_chunks s
  /\ model_name s' = model_name s /\ chunk_size s' = chunk_size s
  /\ (encode_calls s' = encode_calls s
      \/ encode_calls s' = encode_calls s ++ [[question]])
  /\ (index s = None \/ doc_chunks s = [] -> s' = s).
Proof.
  cbv zeta. rewrite query_state.
  destruct (retrieve_state question top_k s) as [->|(Hi & Hd & ->)].
  - repeat split; auto.
  - repeat split; auto. intros [H|H]; contradiction.
Qed.

(** X13.  When the index and the chunk list are not empty and the embedder
    fails on the question, [query] raises the embedder's exception, the
    generation gateway being whatever it is: no prompt is built. *)
Theorem query_embedding_failure_is_raised
        (s : t) (question : string) (strong weak : Q) (top_k : Z) (e : exn) :
  index s <> None -> doc_chunks s <> [] ->
  encode_error [question] = Some e ->
  query_prompt question strong weak top_k s
  = (log_encode [question] s, Raise e)
  /\ query question strong weak top_k s = (log_encode [question] s, Raise e).
Proof.
  intros Hi Hd He.
  assert (retrieve_with_scores question top_k s
          = (log_encode [question] s, Raise e)) as Hr.
  { unfold retrieve_with_scores, embedder_encode, bind, get, modify, call.
    destruct (index s); [|contradiction].
    destruct (doc_chunks s); [contradiction|]. simpl.
    unfold encode. now rewrite He. }
  assert (query_prompt question strong weak top_k s
          = (log_encode [question] s, Raise e)) as Hp
      by (unfold query_prompt; now rewrite (bind_raise _ _ _ _ _ Hr)).
  split; [exact Hp|].
  unfold query. now rewrite (bind_raise _ _ _ _ _ Hp).
Qed.

End WrapperMore.

Lemma refresh_discards_witness :
  MCPWrapperOllama.vectors
    (fst (@MCPWrapperOllama.ingest_documents Demo.embedding ["new text"] true
            Demo.zero_sized)) = []
  /\ MCPWrapperOllama.vectors Demo.zero_sized = ["old text"].
Proof.
  split; [|reflexivity].
  apply (proj2 (@refresh_discards_previous_content Demo.embedding
                  ["new text"] Demo.zero_sized)
           _ (Raise (Exn "ValueError" "range() arg 3 must not be zero"))).
  - reflexivity.
  - discriminate.
Defined.

Lemma query_embedding_failure_witness :
  @MCPWrapperOllama.query Demo.flaky Demo.flaky_index Demo.echo "boom"
    (7 # 10) (5 # 10) 5 Demo.flaky_loaded
  = (MCPWrapperOllama.log_encode ["boom"] Demo.flaky_loaded,
     Raise (Exn "RuntimeError" "embedder down")).
Proof.
  apply (@query_embedding_failure_is_raised Demo.flaky Demo.flaky_index
           Demo.echo Demo.flaky_loaded "boom" (7 # 10) (5 # 10) 5).
  - discriminate.
  - discriminate.
  - reflexivity.
Defined.

Section WrapperPrompts.
Context `{EG : EmbeddingGateway} `{SI : !SimilarityIndex}
        `{GG : GenerationGateway}.
Import MCPWrapperOllama.

Lemma query_prompt_inv question strong weak top_k (s s' : t) prompt :
  query_prompt question strong weak top_k s = (s', Ok prompt) ->
  exists chunks scores,
    retrieve_with_scores question top_k s = (s', Ok (chunks, scores))
    /\ select_prompt question chunks scores strong weak = Returned prompt.
Proof.
  unfold query_prompt. intros H.
  apply bind_inv_ok in H as (s1 & [chunks scores] & Hr & H).
  unfold call in H.
  destruct (select_prompt _ _ _ _ _) eqn:E; inversion H; subst. eauto.
Qed.

(** X14.  When [strong_threshold] is not above [weak_threshold] -- as in the
    call of [build_index.py], with 2.0 and 3.0 -- the HYBRID prompt is never
    selected: in every reachable state a prompt that [query] builds is the
    STRICT_GROUNDED one over the retrieved chunks or the UNGROUNDED one. *)
Theorem hybrid_needs_strong_above_weak
        (s s' : t) (question : string) (strong weak : Q) (top_k : Z)
        (prompt : string) :
  reachable s -> (strong <= weak)%Q ->
  query_prompt question strong weak top_k s = (s', Ok prompt) ->
  exists chunks scores,
    retrieve_with_scores question top_k s = (s', Ok (chunks, scores))
    /\ (prompt = Spec.template Spec.STRICT_GROUNDED question chunks
        \/ prompt = Spec.template Spec.UNGROUNDED question chunks).
Proof.
  intros Hr Hle H.
  apply query_prompt_inv in H as (chunks & scores & Hret & Hsel).
  exists chunks, scores. split; [exact Hret|].
  destruct chunks as [|c cs].
  - inversion Hsel. now right.
  - destruct scores as [|best rest]; [discriminate|].
    rewrite select_prompt_best in Hsel
      by (try discriminate; eauto using retrieved_chunks_nonempty).
    inversion Hsel; subst. unfold Spec.classify.
    destruct (Qle_bool strong best) eqn:E1; [now left|].
    destruct (Qle_bool weak best) eqn:E2; [|now right].
    apply Qle_bool_iff in E2.
    assert (Qle_bool strong best = true) as E
        by (apply Qle_bool_iff; eapply Qle_trans; eauto).
    congruence.
Qed.

(** X15.  Every prompt that [query] builds ends with the question block --
    ["Question:"], the question, ["Answer:"] on lines of their own --
    whatever the mode and the retrieved context. *)
Theorem prompt_ends_with_question
        (s s' : t) (question : string) (strong weak : Q) (top_k : Z)
        (prompt : string) :
  query_prompt question strong weak top_k s = (s', Ok prompt) ->
  exists context,
    prompt = context +:+ "Question:" +:+ nl +:+ question +:+ nl +:+ "Answer:".
Proof.
  intros H. apply query_prompt_inv in H as (chunks & scores & _ & Hsel).
  unfold select_prompt in Hsel.
  destruct (chunks_and_score_ge chunks scores strong) as [[|]|];
    [| |discriminate].
  - inversion Hsel; subst. unfold build_prompt.
    destruct (truthy _).
    + match goal with
      | |- context [?a +:+ nl +:+ ?c +:+ nl +:+ nl +:+ "Question:" +:+ _] =>
          exists (a +:+ nl +:+ c +:+ nl +:+ nl)
      end.
      now rewrite !append_assoc.
    + now exists "".
  - destruct (chunks_and_score_ge chunks scores weak) as [[|]|];
      [| |discriminate]; inversion Hsel; subst.
    + match goal with
      | |- context [?a +:+ nl +:+ ?c +:+ nl +:+ nl +:+ "Question:" +:+ _] =>
          exists (a +:+ nl +:+ c +:+ nl +:+ nl)
      end.
      now rewrite !append_assoc.
    + now exists "".
Qed.

(** The chunk at a position of the index. *)
Lemma chunks_at_valid (chunks : list string) (ids : list Z) :
  Forall (fun i => i = -1 \/ 0 <= i < Z.of_nat (length chunks)) ids ->
  chunks_at chunks ids
  = Returned (map (fun i => nth (Z.to_nat i) chunks "")
                  (List.filter (fun i => negb (i =? -1)) ids)).
Proof.
  induction 1 as [|i ids Hi _ IH]; simpl; [reflexivity|].
  destruct (Z.eqb_spec i (-1)) as [->|Hn]; simpl; [exact IH|].
  destruct Hi as [|Hi]; [contradiction|].
  assert (chunks <> []) as Hne by (destruct chunks; [simpl in Hi; lia|discriminate]).
  rewrite (py_index_pick chunks i "") by (auto; lia).
  destruct (Z.eqb_spec i (-1)); [contradiction|].
  now rewrite IH.
Qed.

(** X16.  In a wrapper whose index and chunk list are in step, with an
    embedder that answers and an index that returns positions that are
    [-1] or below [ntotal], retrieval does not raise: it returns the chunk
    texts at the returned positions, in order, the fillers [-1] left out,
    and the scores other than [-1]. *)
Theorem retrieval_maps_positions_to_chunks
        (s : t) (ix : list vec) (question : string) (top_k : Z)
        (scores : list Q) (ids : list Z) :
  aligned s -> index s = Some ix -> doc_chunks s <> [] ->
  encode_error [question] = None ->
  search_ip ix (chunk_vector question) top_k = (scores, ids) ->
  Forall (fun i => i = -1 \/ 0 <= i < Z.of_nat (ntotal s)) ids ->
  retrieve_with_scores question top_k s
  = (log_encode [question] s,
     Ok (map (fun i => nth (Z.to_nat i) (doc_chunks s) "")
             (List.filter (fun i => negb (i =? -1)) ids),
         kept_scores scores)).
Proof.
  intros Ha Hi Hd He Hs Hids.
  unfold ntotal in Hids. rewrite Ha, length_map in Hids.
  unfold retrieve_with_scores, embedder_encode, bind, get, modify, call, encode.
  rewrite Hi. destruct (doc_chunks s) as [|c cs] eqn:Ed; [contradiction|].
  simpl length. cbv iota. simpl.
  rewrite He. simpl. unfold chunk_vector in Hs. rewrite Hs.
  rewrite chunks_at_valid by exact Hids. reflexivity.
Qed.

End WrapperPrompts.

Lemma hybrid_needs_strong_above_weak_witness :
  exists chunks scores,
    @MCPWrapperOllama.retrieve_with_scores Demo.embedding Demo.cosine_index
      "explain alpha" 5 Demo.wrapper_loaded
    = (MCPWrapperOllama.log_encode ["explain alpha"] Demo.wrapper_loaded,
       Ok (chunks, scores))
    /\ ("Question:" +:+ nl +:+ "explain alpha" +:+ nl +:+ "Answer:"
        = Spec.template Spec.STRICT_GROUNDED "explain alpha" chunks
        \/ "Question:" +:+ nl +:+ "explain alpha" +:+ nl +:+ "Answer:"
           = Spec.template Spec.UNGROUNDED "explain alpha" chunks).
Proof.
  apply (@hybrid_needs_strong_above_weak Demo.embedding Demo.cosine_index
           Demo.echo Demo.wrapper_loaded
           (MCPWrapperOllama.log_encode ["explain alpha"] Demo.wrapper_loaded)
           "explain alpha" (2 # 1) (3 # 1) 5).
  - exact wrapper_loaded_reachable.
  - unfold Qle. simpl. lia.
  - reflexivity.
Defined.

Lemma prompt_ends_with_question_witness :
  exists context,
    "Context:" +:+ nl +:+ "alpha beta" +:+ nl +:+ nl +:+ "Question:" +:+ nl
    +:+ "explain alpha" +:+ nl +:+ "Answer:"
    = context +:+ "Question:" +:+ nl +:+ "explain alpha" +:+ nl +:+ "Answer:".
Proof.
  apply (@prompt_ends_with_question Demo.embedding Demo.cosine_index
           Demo.wrapper_loaded
           (MCPWrapperOllama.log_encode ["explain alpha"] Demo.wrapper_loaded)
           "explain alpha" (7 # 10) (5 # 10) 5).
  reflexivity.
Defined.

Lemma retrieval_maps_positions_witness :
  @MCPWrapperOllama.retrieve_with_scores Demo.embedding Demo.cosine_index
    "explain alpha" 5 Demo.wrapper_loaded
  = (MCPWrapperOllama.log_encode ["explain alpha"] Demo.wrapper_loaded,
     Ok (["alpha beta"], [85 # 100; 0 # 1])).
Proof.
  apply (@retrieval_maps_positions_to_chunks Demo.embedding Demo.cosine_index
           Demo.wrapper_loaded ["alpha beta"; "gamma"] "explain alpha" 5
           [85 # 100; 0 # 1] [0; -1]).
  - reflexivity.
  - reflexivity.
  - discriminate.
  - reflexivity.
  - reflexivity.
  - repeat constructor; vm_compute; intuition congruence.
Defined.

(* ===================================================================== *)
(** * Further properties of the application *)
(* ===================================================================== *)

Section AppMore.
Context `{EG : EmbeddingGateway} `{SI : !SimilarityIndex}
        `{GG : GenerationGateway} `{FS : FileSystem}.

(** In a well-keyed store the contents of listed files are read without a
    [KeyError], in the order of the store. *)
Lemma contents_listed (server : MCPServer.t) (l : list (string * file_info)) :
  MCPServer.well_keyed (MCPServer.ingested_files server) ->
  (forall kv, In kv l -> In kv (MCPServer.ingested_files server)) ->
  App.contents server
    (map (fun kv => let f := snd kv in
                    MCPServer.Summary (fi_id f) (fi_name f) (fi_size f)
                                      (fi_type f) (fi_ingested_at f)) l)
  = Returned (map (fun kv => fi_content (snd kv)) l).
Proof.
  intros [Hid Hnd] Hin. induction l as [|[k v] l IH]; [reflexivity|].
  simpl in IH |- *. unfold MCPServer.get_file.
  assert (In (k, v) (MCPServer.ingested_files server)) as Hkv
      by (apply Hin; now left).
  rewrite Forall_forall in Hid.
  assert (fi_id v = k) as ->
      by (apply (Hid (k, v)); now apply list_elem_of_In).
  rewrite (dict_get_first k v _ Hnd Hkv).
  rewrite IH by (intros kv H; apply Hin; now right).
  reflexivity.
Qed.

Lemma sync_nothing_new (a : App.t) :
  App.ingested_files a
  = App.ids_of (MCPServer.list_files (App.mcp_server a)) ->
  App.sync_new_documents a = (a, Ok tt).
Proof.
  intros H. unfold App.sync_new_documents, bind, get. rewrite H.
  rewrite bool_decide_eq_false_2; [reflexivity|].
  intros Hne. apply Hne. apply set_eq. intros x.
  rewrite elem_of_difference. split; [tauto|].
  intros Hx. now apply not_elem_of_empty in Hx.
Qed.

(** X17.  The start-up handler [build_index] on a well-keyed store reads
    the content of every stored file, in the order of the store, without a
    [KeyError], and records the ids of all of them as ingested before it
    embeds anything.  So whether the rebuild of the wrapper's index then
    completes or raises, the first synchronisation that follows finds no
    new file and changes nothing; the store and the chat history are
    untouched. *)
Theorem build_index_records_ids_first (a a' : App.t) (o : outcome unit) :
  MCPServer.well_keyed (MCPServer.ingested_files (App.mcp_server a)) ->
  App.build_index a = (a', o) ->
  let documents :=
    map (fun kv => fi_content (snd kv))
        (MCPServer.ingested_files (App.mcp_server a)) in
  App.mcp_server a' = App.mcp_server a
  /\ App.chat_history a' = App.chat_history a
  /\ App.ingested_files a'
     = App.ids_of (MCPServer.list_files (App.mcp_server a))
  /\ match documents with
     | [] => App.mcp a' = App.mcp a /\ o = Ok tt
     | _ :: _ =>
         MCPWrapperOllama.ingest_documents documents true (App.mcp a)
         = (App.mcp a', o)
     end
  /\ App.sync_new_documents a' = (a', Ok tt).
Proof.
  intros Hwk H documents.
  assert (App.mcp_server a' = App.mcp_server a
          /\ App.chat_history a' = App.chat_history a
          /\ App.ingested_files a'
             = App.ids_of (MCPServer.list_files (App.mcp_server a))
          /\ match documents with
             | [] => App.mcp a' = App.mcp a /\ o = Ok tt
             | _ :: _ =>
                 MCPWrapperOllama.ingest_documents documents true (App.mcp a)
                 = (App.mcp a', o)
             end) as (Hs & Hh & Hi & Hd).
  { unfold App.build_index, bind, get, call, modify in H.
    unfold MCPServer.list_files in H at 1.
    rewrite (contents_listed _ _ Hwk) in H by auto.
    fold documents in H. simpl in H.
    destruct documents as [|d ds].
    - inversion H; subst. simpl. auto.
    - unfold App.on_mcp, zoom in H. simpl in H.
      destruct (MCPWrapperOllama.ingest_documents (d :: ds) true (App.mcp a))
        as [w o'].
      inversion H; subst. simpl. auto. }
  repeat split; try assumption.
  apply sync_nothing_new. now rewrite Hi, Hs.
Qed.

Lemma sync_frame (a a' : App.t) (o : outcome unit) :
  App.sync_new_documents a = (a', o) ->
  App.mcp_server a' = App.mcp_server a
  /\ App.chat_history a' = App.chat_history a.
Proof.
  unfold App.sync_new_documents, bind, get, call, modify, ret.
  destruct (bool_decide _); [|intros H; inversion H; subst; auto].
  destruct (App.contents _ _) as [docs|e];
    [|intros H; inversion H; subst; auto].
  unfold App.on_mcp, zoom.
  destruct (MCPWrapperOllama.ingest_documents docs false (App.mcp a))
    as [w [[]|e|]]; intros H; inversion H; subst; auto.
Qed.

(** X18.  [send_message] adds to the chat history exactly when it has an
    answer: on completion the history is the old one followed by the one
    turn made of the input and the reply it returns; when the
    synchronisation, the embedder or the generation raises, the history is
    as before.  The file store is unchanged in both cases. *)
Theorem send_message_records_the_turn
        (a a' : App.t) (user_input : string) (o : outcome string) :
  App.send_message user_input a = (a', o) ->
  App.mcp_server a' = App.mcp_server a
  /\ App.chat_history a'
     = match o with
       | Ok response => App.chat_history a ++ [(user_input, response)]
       | _ => App.chat_history a
       end.
Proof.
  unfold App.send_message. unfold bind at 1.
  destruct (App.sync_new_documents a) as [a1 o1] eqn:E1.
  apply sync_frame in E1 as [Hs Hh].
  destruct o1 as [[]|e|]; try (intros H; inversion H; subst; auto).
  unfold bind, App.on_mcp, zoom, modify, ret in H.
  destruct (MCPWrapperOllama.query user_input (7 # 10) (5 # 10) 5
              (App.mcp a1)) as [w [r|e|]];
    inversion H; subst; simpl; rewrite ?Hs, ?Hh; auto.
Qed.

Lemma ingest_file_shape file_path metadata :
  MCPServer.hashed_bytes file_path <> Hang ->
  returns (fun d =>
             (exists file_hash size,
                 d = MCPServer.success file_path file_hash size)
             \/ (exists file_hash,
                    d = MCPServer.already_exists file_path file_hash)
             \/ d = [("error", PStr ("File not found: " +:+ file_path))]
             \/ exists e,
                 d = [("error",
                       PStr ("Error ingesting file: " +:+ exn_msg e))])
          (MCPServer.ingest_file file_path metadata).
Proof.
  intros Hfin. unfold MCPServer.ingest_file.
  apply returns_try_except;
    [|intros e; apply returns_ret; right; right; right; eauto].
  unfold MCPServer.ingest_file_body.
  destruct (negb (path_exists file_path)).
  { apply returns_ret. right. right. now left. }
  apply (returns_bind (fun _ => True)).
  { apply returns_run_loop. destruct (hash_finishes _ Hfin); eauto. }
  intros file_hash _.
  apply (returns_bind (fun _ => True)); [now apply returns_call|].
  intros file_size _.
  apply (returns_bind (fun _ => True)); [now apply returns_get|].
  intros self _.
  destruct (dict_mem _ _).
  { apply returns_ret. right. left. eexists. reflexivity. }
  apply (returns_bind (fun _ => True)); [apply extract_content_returns|].
  intros content _.
  apply (returns_bind (fun _ => True)).
  - destruct (_ && _); [|now apply returns_ret].
    apply (returns_bind (fun _ => True)).
    + apply returns_run_loop.
      destruct (default_chunking_finishes content
                  (Some file_hash)
                  (Some (path_name file_path))
                  (Some (MCPServer.file_type_of file_path))) as [chunks H].
      eauto.
    + intros chunks _. apply (returns_bind (fun _ => True)).
      * apply returns_zoom, add_documents_returns.
      * intros. now apply returns_modify.
  - intros _ _. apply (returns_bind (fun _ => True));
      [now apply returns_modify|]. intros _ _.
    apply (returns_bind (fun _ => True)); [apply save_files_db_returns|].
    intros _ _. apply returns_ret. left. eexists _, _. reflexivity.
Qed.

(** X19.  The upload route, once the upload is on disk -- a file whose
    reads reach its end -- always renders a status line and the line never
    reads [None]: the status is ["success"], ["already_exists"], or the
    error message of [ingest_file].  An upload touches the file store only:
    the wrapper, the set of ingested ids and the chat history are as
    before, so the new file is embedded by the next [send_message], not by
    the upload. *)
Theorem upload_reports_a_status (a : App.t) (filename : string) :
  let file_location := "mcp_storage/" +:+ filename in
  MCPServer.hashed_bytes file_location <> Hang ->
  exists a' status,
    App.upload filename a
    = (a', Ok ("File '" +:+ filename +:+ "' uploaded and ingested. Status: "
               +:+ status))
    /\ (status = "success" \/ status = "already_exists"
        \/ status = "File not found: " +:+ file_location
        \/ exists e, status = "Error ingesting file: " +:+ exn_msg e)
    /\ App.mcp_server a'
       = fst (MCPServer.ingest_file file_location None (App.mcp_server a))
    /\ App.mcp a' = App.mcp a
    /\ App.ingested_files a' = App.ingested_files a
    /\ App.chat_history a' = App.chat_history a.
Proof.
  intros file_location Hfin.
  pose proof (ingest_file_shape file_location None Hfin (App.mcp_server a))
    as H.
  unfold App.upload, bind, App.on_mcp_server, zoom, ret.
  fold file_location.
  destruct (ingest_file_spec (App.mcp_server a) file_location None)
    as [(_ & Hh & _)|(s' & d & E & _)]; [contradiction|].
  rewrite E in H |- *. simpl in H.
  eexists _, (App.format_value (App.status_or_error d)).
  split; [reflexivity|]. simpl.
  split; [|auto].
  destruct H as [(h & size & ->)|[[h ->]|[->|[e ->]]]]; simpl; eauto.
Qed.

End AppMore.

Lemma upload_reports_a_status_witness :
  exists a' status,
    @App.upload Demo.embedding Demo.disk "a.txt" (App.init [])
    = (a', Ok ("File 'a.txt' uploaded and ingested. Status: " +:+ status))
    /\ (status = "success" \/ status = "already_exists").
Proof.
  destruct (@upload_reports_a_status Demo.embedding Demo.disk (App.init [])
              "a.txt" ltac:(discriminate))
    as (a' & status & E & _).
  exists a', status. split; [exact E|].
  vm_compute in E. inversion E. now left.
Defined.

Lemma build_index_records_ids_witness :
  @App.sync_new_documents Demo.embedding
    (fst (@App.build_index Demo.embedding Demo.app_uploaded))
  = (fst (@App.build_index Demo.embedding Demo.app_uploaded), Ok tt).
Proof.
  assert (MCPServer.well_keyed
            (MCPServer.ingested_files (App.mcp_server Demo.app_uploaded)))
    as Hwk.
  { split; [repeat constructor|]. simpl. apply NoDup_singleton. }
  apply (@build_index_records_ids_first Demo.embedding Demo.app_uploaded
           _ _ Hwk (surjective_pairing _)).
Defined.

Lemma send_message_records_witness :
  App.chat_history
    (fst (@App.send_message Demo.embedding Demo.cosine_index Demo.echo
            "a" Demo.app_uploaded))
  = [("a", "echo Context:" +:+ nl +:+ "a b" +:+ nl +:+ nl +:+ "Question:"
           +:+ nl +:+ "a" +:+ nl +:+ "Answer:")].
Proof.
  refine (proj2 (@send_message_records_the_turn Demo.embedding
                   Demo.cosine_index Demo.echo Demo.app_uploaded
                   (fst (@App.send_message Demo.embedding Demo.cosine_index
                           Demo.echo "a" Demo.app_uploaded))
                   "a"
                   (Ok ("echo Context:" +:+ nl +:+ "a b" +:+ nl +:+ nl
                        +:+ "Question:" +:+ nl +:+ "a" +:+ nl +:+ "Answer:"))
                   _)).
  vm_compute. reflexivity.
Defined.

(* ===================================================================== *)
(** * Edge behaviour of the server *)
(* ===================================================================== *)

Section ServerEdges.
Context `{EG : EmbeddingGateway} `{SI : !SimilarityIndex} `{FS : FileSystem}.

(** X20.  A file that cannot be read for hashing gets the empty string as
    its id: [get_file_hash] swallows the exception of [open] or of a read
    and returns [""].  So once one such file has been ingested with
    success, every other file that exists and cannot be read is reported as
    [already_exists] under the id [""], and nothing of it is stored. *)
Theorem unreadable_files_share_an_id
        (s s1 : MCPServer.t) (p1 p2 : string)
        (m1 m2 : option (dict string)) (e1 e2 : exn) (r1 : dict pyval)
        (size2 : Z) :
  MCPServer.hashed_bytes p1 = Raise e1 ->
  MCPServer.hashed_bytes p2 = Raise e2 ->
  MCPServer.ingest_file p1 m1 s = (s1, Ok r1) ->
  dict_get "status" r1 = Some (PStr "success") ->
  path_exists p2 = true -> stat_st_size p2 = Returned size2 ->
  dict_get "file_id" r1 = Some (PStr "")
  /\ (exists info, MCPServer.get_file s1 "" = inl info
                   /\ fi_name info = path_name p1)
  /\ MCPServer.ingest_file p2 m2 s1
     = (s1, Ok (MCPServer.already_exists p2 ""))
  /\ dict_get "file_id" (MCPServer.already_exists p2 "") = Some (PStr "").
Proof.
  intros H1 H2 E Hst Hex Hsz.
  assert (MCPServer.get_file_hash p1 = Some "") as Hh1
      by (unfold MCPServer.get_file_hash; now rewrite H1).
  assert (MCPServer.get_file_hash p2 = Some "") as Hh2
      by (unfold MCPServer.get_file_hash; now rewrite H2).
  destruct (ingest_file_spec s p1 m1) as [(_ & _ & E')|(s' & r & E' & Hc)];
    [rewrite E in E'; discriminate|].
  rewrite E in E'. inversion E'; subst s' r; clear E'.
  destruct Hc
    as [[_ Hn]|(h & size & content & _ & Hh & _ & Hm & _ & -> & Hi & _)];
    [contradiction|].
  rewrite Hh1 in Hh. inversion Hh; subst h.
  split; [reflexivity|].
  split.
  - eexists. unfold MCPServer.get_file. rewrite Hi.
    rewrite dict_get_app_new by exact Hm. split; reflexivity.
  - split; [|reflexivity].
    apply ingest_file_known with (size := size2); try assumption.
    rewrite Hi, dict_mem_app. simpl.
    now rewrite orb_true_r.
Qed.

Lemma search_rows_in (chunks : list string) (dists : list Q) (ids : list Z)
      (k : Z) (r : list (string * Q)) :
  VectorIndex.search_rows chunks dists ids k = Returned r ->
  Forall (fun hit => fst hit ∈ chunks) r.
Proof.
  revert k r. induction ids as [|i ids IH]; intros k r H; simpl in H.
  - inversion H. constructor.
  - destruct (i <? Z.of_nat (length chunks)); [|eauto].
    destruct (Py.index chunks i) as [c|] eqn:Ec; [|discriminate].
    destruct (Py.index dists k) as [d|]; [|discriminate].
    destruct (VectorIndex.search_rows chunks dists ids (k + 1)) as [r'|] eqn:Er;
      [|discriminate].
    inversion H; subst. constructor; [|eauto].
    simpl. eapply index_in; eauto.
Qed.

Lemma search_hits_stored (query : string) (top_k : Z) (v : VectorIndex.t)
      (r : list (string * Q)) :
  VectorIndex.search query top_k v = (v, Ok r) ->
  Forall (fun hit => fst hit ∈ VectorIndex.text_chunks v) r.
Proof.
  unfold VectorIndex.search, bind, call, get, raise.
  destruct (encode [query]) as [q_vec|e]; [|discriminate].
  destruct (VectorIndex.index v); [|discriminate].
  destruct q_vec; [discriminate|].
  destruct (search_l2 _ _ _) as [dists ids].
  destruct (VectorIndex.search_rows _ _ _ _) eqn:Er; [|discriminate].
  intros H. inversion H; subst. eapply search_rows_in; eauto.
Qed.

(** X21.  In a server whose chunk metadata is in step with its vector
    index -- as [ingest_file] keeps it -- every hit that [search_files]
    returns is a stored chunk text with its origin: the hit carries the
    text, the score, and the id, the name and the type of the first chunk
    of the metadata with that text, and the id is that of a file in the
    store.  The fallback without origin is never used. *)
Theorem search_hits_name_stored_files
        (s s' : MCPServer.t) (query : string)
        (hits : list (dict MCPServer.hitval)) :
  MCPServer.metadata_in_step s ->
  MCPServer.search_files query s = (s', Ok hits) ->
  Forall (fun hit =>
            exists chunk score meta h,
              MCPServer.first_with_text (MCPServer.metadata_list s) chunk
              = Some meta
              /\ MCPServer.file_id meta = Some h
              /\ dict_mem h (MCPServer.ingested_files s) = true
              /\ hit = [("chunk", MCPServer.HStr chunk);
                        ("score", MCPServer.HFloat score);
                        ("file_id", MCPServer.HStr h);
                        ("file_name",
                         MCPServer.hit_lineage (MCPServer.file_name meta));
                        ("file_type",
                         MCPServer.hit_lineage (MCPServer.file_type meta))])
         hits.
Proof.
  intros [Ht Hl] H.
  unfold MCPServer.search_files, MCPServer.on_vector_index in H.
  destruct (search_same_state query 5 (MCPServer.vector_index s)) as [o Ho].
  unfold bind, zoom in H. rewrite Ho in H.
  unfold MCPServer.set_vector_index in H. rewrite server_eta in H.
  destruct o as [rows|e|]; [|discriminate|discriminate].
  apply search_hits_stored in Ho. rewrite <- Ht in Ho.
  unfold get in H. unfold MCPServer.metadata_list in *.
  destruct (MCPServer.chunk_metadata s) as [md|];
    inversion H; subst; [|constructor].
  apply Forall_map. eapply Forall_impl; [exact Ho|].
  intros [chunk score] Hin. simpl in Hin.
  apply list_elem_of_fmap in Hin as (c & Hc & Hin).
  unfold MCPServer.hit_of, MCPServer.first_with_text.
  destruct (List.find (fun c0 => String.eqb (MCPServer.text c0) chunk) md)
    as [meta|] eqn:Ef.
  - pose proof (find_some _ _ Ef) as [Hmeta _].
    rewrite Forall_forall in Hl.
    destruct (Hl meta) as (h & Hh & Hmem); [now apply list_elem_of_In|].
    exists chunk, score, meta, h. rewrite Hh. auto.
  - exfalso. apply list_elem_of_In in Hin.
    pose proof (find_none _ _ Ef c Hin) as Hn. simpl in Hn.
    rewrite <- Hc, String.eqb_refl in Hn. discriminate.
Qed.

End ServerEdges.

Lemma unreadable_files_witness :
  @MCPServer.ingest_file Demo.embedding Demo.locked_disk
    "mcp_storage/b.txt" None
    (fst (@MCPServer.ingest_file Demo.embedding Demo.locked_disk
            "mcp_storage/a.txt" None (MCPServer.init [])))
  = (fst (@MCPServer.ingest_file Demo.embedding Demo.locked_disk
            "mcp_storage/a.txt" None (MCPServer.init [])),
     Ok [("status", PStr "already_exists"); ("file_id", PStr "");
         ("message", PStr "File already ingested: mcp_storage/b.txt")]).
Proof.
  refine (proj1 (proj2 (proj2
    (@unreadable_files_share_an_id Demo.embedding Demo.locked_disk
       (MCPServer.init []) _ "mcp_storage/a.txt" "mcp_storage/b.txt"
       None None _ _ _ 7 eq_refl eq_refl (surjective_pairing _) _
       eq_refl eq_refl)))).
  vm_compute. reflexivity.
Defined.

Lemma search_hits_witness :
  Forall (fun hit =>
            exists chunk score meta h,
              MCPServer.first_with_text
                (MCPServer.metadata_list Demo.server_a) chunk = Some meta
              /\ MCPServer.file_id meta = Some h
              /\ dict_mem h (MCPServer.ingested_files Demo.server_a) = true
              /\ hit = [("chunk", MCPServer.HStr chunk);
                        ("score", MCPServer.HFloat score);
                        ("file_id", MCPServer.HStr h);
                        ("file_name",
                         MCPServer.hit_lineage (MCPServer.file_name meta));
                        ("file_type",
                         MCPServer.hit_lineage (MCPServer.file_type meta))])
         [[("chunk", MCPServer.HStr "a b");
           ("score", MCPServer.HFloat (1 # 10));
           ("file_id", MCPServer.HStr "sha3");
           ("file_name", MCPServer.HStr "mcp_storage/a.txt");
           ("file_type", MCPServer.HStr "text/plain")]].
Proof.
  assert (@MCPServer.metadata_in_step Demo.embedding Demo.server_a) as Hstep.
  { split; [reflexivity|]. repeat constructor. exists "sha3". auto. }
  apply (@search_hits_name_stored_files Demo.embedding Demo.cosine_index
           Demo.server_a Demo.server_a "a" _ Hstep).
  vm_compute. reflexivity.
Defined.

(* ===================================================================== *)
(** * The snippet around a match *)
(* ===================================================================== *)

Lemma lower_length (s : string) : String.length (lower s) = String.length s.
Proof. induction s as [|c s IH]; simpl; [reflexivity|now rewrite IH]. Qed.

Lemma lower_append (a b : string) : lower (a +:+ b) = lower a +:+ lower b.
Proof.
  induction a as [|c a IH]; [reflexivity|].
  rewrite append_cons. simpl. now rewrite append_cons, IH.
Qed.

Lemma list_of_append (a b : string) :
  list_ascii_of_string (a +:+ b)
  = list_ascii_of_string a ++ list_ascii_of_string b.
Proof.
  induction a as [|c a IH]; [reflexivity|].
  rewrite append_cons. simpl. now rewrite IH.
Qed.

Lemma string_of_app (l1 l2 : list ascii) :
  string_of_list_ascii (l1 ++ l2)
  = string_of_list_ascii l1 +:+ string_of_list_ascii l2.
Proof.
  induction l1 as [|c l1 IH]; [reflexivity|].
  simpl. now rewrite append_cons, IH.
Qed.

Lemma length_list_of (s : string) :
  length (list_ascii_of_string s) = String.length s.
Proof. induction s as [|c s IH]; simpl; [reflexivity|now rewrite IH]. Qed.

Lemma length_string_of (l : list ascii) :
  String.length (string_of_list_ascii l) = length l.
Proof. induction l as [|c l IH]; simpl; [reflexivity|now rewrite IH]. Qed.

(** A prefix of the lowered text is the lowering of a prefix of the text. *)
Lemma prefix_lower (sub s : string) :
  String.prefix sub (lower s) = true ->
  exists hit post, s = hit +:+ post /\ lower hit = sub.
Proof.
  revert s. induction sub as [|c sub IH]; intros s H.
  - exists "", s. split; reflexivity.
  - destruct s as [|d s]; simpl in H; [discriminate|].
    destruct (Ascii.ascii_dec c (lower_char d)) as [->|]; [|discriminate].
    apply IH in H as (hit & post & -> & <-).
    exists (String d hit), post. split; [now rewrite append_cons|reflexivity].
Qed.

Lemma prefix_of_append (a b : string) : String.prefix a (a +:+ b) = true.
Proof.
  induction a as [|c a IH]; [now destruct b|].
  rewrite append_cons. simpl.
  destruct (Ascii.ascii_dec c c); [exact IH|contradiction].
Qed.

(** What [find] returns on lowered texts: the position of an occurrence,
    up to case, of the sought text. *)
Lemma find_from_eq (s sub : string) (i : Z) :
  PyText.find_from s sub i
  = if String.prefix sub s then i
    else match s with
         | EmptyString => -1
         | String _ s' => PyText.find_from s' sub (i + 1)
         end.
Proof. now destruct s. Qed.

Lemma find_lower_sound (s sub : string) (i : Z) :
  PyText.find_from (lower s) sub i <> -1 ->
  exists pre hit post,
    s = pre +:+ hit +:+ post /\ lower hit = sub
    /\ PyText.find_from (lower s) sub i = i + PyText.len pre.
Proof.
  revert i. induction s as [|c s IH]; intros i H;
    rewrite find_from_eq in H |- *;
    destruct (String.prefix sub _) eqn:Ep.
  - apply (prefix_lower sub "") in Ep as (hit & post & E & Hl).
    exists "", hit, post. repeat split; try assumption.
    unfold PyText.len. simpl. lia.
  - now elim H.
  - apply (prefix_lower sub (String c s)) in Ep as (hit & post & E & Hl).
    exists "", hit, post. repeat split; try assumption.
    unfold PyText.len. simpl. lia.
  - cbn [lower] in H |- *.
    apply IH in H as (pre & hit & post & -> & Hl & ->).
    exists (String c pre), hit, post.
    split; [reflexivity|]. split; [exact Hl|].
    unfold PyText.len. simpl String.length. lia.
Qed.

Lemma find_lower_complete (pre hit post : string) (i : Z) :
  0 <= i ->
  0 <= PyText.find_from (lower (pre +:+ hit +:+ post)) (lower hit) i.
Proof.
  revert i. induction pre as [|c pre IH]; intros i Hi.
  - change ("" +:+ hit +:+ post) with (hit +:+ post).
    rewrite lower_append, find_from_eq, prefix_of_append. exact Hi.
  - rewrite append_cons, find_from_eq. cbn [lower].
    destruct (String.prefix _ _); [exact Hi|].
    apply IH. lia.
Qed.

Lemma str_slice_length (s : string) (i j : Z) :
  PyText.len (PyText.str_slice s i j)
  <= Z.max 0 (slice_bound (PyText.len s) j - slice_bound (PyText.len s) i).
Proof.
  unfold PyText.len, PyText.str_slice, slice.
  rewrite length_string_of, length_take, length_list_of. lia.
Qed.

(** A slice that spans the middle part of a text keeps it. *)
Lemma str_slice_spans (pre hit post : string) (start stop : Z) :
  0 <= start <= PyText.len pre ->
  PyText.len pre + PyText.len hit <= stop ->
  exists before after,
    PyText.str_slice (pre +:+ hit +:+ post) start stop
    = before +:+ hit +:+ after.
Proof.
  unfold PyText.len, PyText.str_slice, slice, slice_bound.
  intros Hs Hp.
  rewrite !list_of_append, !length_app, !length_list_of.
  destruct (Z.ltb_spec start 0); [lia|].
  destruct (Z.ltb_spec stop 0); [lia|].
  set (n := (String.length pre + (String.length hit + String.length post))%nat).
  rewrite (Z.min_l start) by lia.
  rewrite drop_app_le by (rewrite length_list_of; lia).
  rewrite app_assoc.
  rewrite take_app_ge
    by (rewrite length_app, length_drop, !length_list_of; lia).
  rewrite !string_of_app, string_of_list_ascii_of_string.
  rewrite append_assoc. eauto.
Qed.

(** X22.  [get_snippet] for a [max_length] that is not negative, on texts
    of code points below 256.  The snippet is never longer than the query
    plus [max_length] plus the two ellipses.  When the content contains the
    query up to case, so does the snippet: the window is cut around the
    first occurrence and keeps it whole.  When it does not, the snippet is
    the content, cut to [max_length] characters and an ellipsis when it is
    longer than that. *)
Theorem snippet_keeps_the_match (content query : string) (max_length : Z) :
  0 <= max_length ->
  let occurs :=
    exists pre hit post,
      content = pre +:+ hit +:+ post /\ lower hit = lower query in
  PyText.len (MCPServer.get_snippet content query max_length)
  <= PyText.len query + max_length + 6
  /\ (occurs ->
      exists before hit after,
        MCPServer.get_snippet content query max_length
        = before +:+ hit +:+ after
        /\ lower hit = lower query)
  /\ (~ occurs ->
      MCPServer.get_snippet content query max_length
      = if max_length <? PyText.len content
        then PyText.str_slice content 0 max_length +:+ "..."
        else content).
Proof.
  intros Hm occurs. unfold MCPServer.get_snippet, PyText.find.
  pose proof (Z.div_pos max_length 2 Hm ltac:(lia)) as Hh.
  pose proof (Z.mul_div_le max_length 2 ltac:(lia)) as Hh2.
  set (half := max_length / 2) in *.
  destruct (Z.eqb_spec (PyText.find_from (lower content) (lower query) 0) (-1))
    as [Hnf|Hf].
  - split; [|split].
    + destruct (Z.ltb_spec max_length (PyText.len content)).
      * pose proof (str_slice_length content 0 max_length) as Hl.
        unfold PyText.len in *. rewrite length_append. simpl String.length.
        unfold slice_bound in Hl.
        destruct (Z.ltb_spec max_length 0); [lia|]. simpl in Hl. lia.
      * unfold PyText.len in *. lia.
    + intros (pre & hit & post & -> & Hl). exfalso.
      pose proof (find_lower_complete pre hit post 0 ltac:(lia)) as Hc.
      rewrite Hl in Hc. lia.
    + reflexivity.
  - destruct (find_lower_sound content (lower query) 0 Hf)
      as (pre & hit & post & -> & Hl & Hidx).
    rewrite Hidx. clear Hidx Hf.
    assert (PyText.len hit = PyText.len query) as Hlen
        by (unfold PyText.len; f_equal;
            rewrite <- (lower_length hit), Hl; apply lower_length).
    set (whole := pre +:+ hit +:+ post).
    assert (PyText.len whole
            = PyText.len pre + PyText.len hit + PyText.len post) as Hw
        by (unfold whole, PyText.len; rewrite !length_append; lia).
    assert (0 <= PyText.len pre /\ 0 <= PyText.len post) as [Hp0 Hq0]
        by (unfold PyText.len; lia).
    assert (0 <= PyText.len query) as Hy0 by (unfold PyText.len; lia).
    set (start := Z.max 0 (0 + PyText.len pre - half)).
    set (stop := Z.min (PyText.len whole)
                       (0 + PyText.len pre + PyText.len query + half)).
    destruct (str_slice_spans pre hit post start stop) as (b & a & Es);
      [unfold start; lia|unfold stop; lia|].
    fold whole in Es.
    pose proof (str_slice_length whole start stop) as Hb.
    assert (PyText.len (PyText.str_slice whole start stop)
            <= PyText.len query + max_length) as Hb'.
    { unfold slice_bound in Hb.
      destruct (Z.ltb_spec start 0); [unfold start in *; lia|].
      destruct (Z.ltb_spec stop 0); [unfold stop in *; lia|].
      unfold start, stop in *. lia. }
    split; [|split].
    + unfold PyText.len in *.
      destruct (0 <? start), (stop <? Z.of_nat (String.length whole));
        rewrite ?length_append; simpl String.length; lia.
    + intros _. rewrite Es.
      destruct (0 <? start), (stop <? PyText.len whole).
      * exists ("..." +:+ b), hit, (a +:+ "...").
        split; [now rewrite !append_assoc|exact Hl].
      * exists ("..." +:+ b), hit, a.
        split; [now rewrite !append_assoc|exact Hl].
      * exists b, hit, (a +:+ "...").
        split; [now rewrite !append_assoc|exact Hl].
      * exists b, hit, a. split; [reflexivity|exact Hl].
    + intros Hno. exfalso. apply Hno. exists pre, hit, post. auto.
Qed.

Lemma snippet_keeps_the_match_witness :
  PyText.len (MCPServer.get_snippet "The Quick brown fox" "quick" 4)
  <= PyText.len "quick" + 4 + 6
  /\ exists before hit after,
      MCPServer.get_snippet "The Quick brown fox" "quick" 4
      = before +:+ hit +:+ after
      /\ lower hit = lower "quick".
Proof.
  destruct (snippet_keeps_the_match "The Quick brown fox" "quick" 4
              ltac:(lia)) as (Hb & Hk & _).
  split; [exact Hb|].
  apply Hk. exists "The ", "Quick", " brown fox". split; reflexivity.
Defined.

(* ===================================================================== *)
(** * The vector index as a store *)
(* ===================================================================== *)

Section VectorIndexStore.
Context `{EG : EmbeddingGateway} `{SI : !SimilarityIndex}.

(** X23.  [add_documents] on an index whose [embeddings] mirror it -- as
    after the constructor and after every [add_documents] -- fails when
    the embedder fails and when the batch is empty (the one-axis array of
    an empty batch raises [IndexError] at [vectors.shape[1]] on first use
    and [ValueError] in [np.vstack] afterwards), and then it changes
    nothing.  Otherwise it completes, the mirror is kept, and the
    documents are appended in order: document [i] of the batch is the text
    at position [len(text_chunks) + i], and its vector is at position
    [ntotal + i] of the index. *)
Theorem add_documents_appends_in_order
        (docs : list string) (v : VectorIndex.t) :
  VectorIndex.embeddings v = VectorIndex.index v ->
  match encode_error docs, docs with
  | Some e, _ => VectorIndex.add_documents docs v = (v, Raise e)
  | None, [] =>
      exists e,
        VectorIndex.add_documents docs v = (v, Raise e)
        /\ exn_type e = match VectorIndex.index v with
                        | None => "IndexError"
                        | Some _ => "ValueError"
                        end
  | None, _ :: _ =>
      exists v',
        VectorIndex.add_documents docs v = (v', Ok tt)
        /\ VectorIndex.embeddings v' = VectorIndex.index v'
        /\ VectorIndex.index v' <> None
        /\ forall (i : nat) d,
             docs !! i = Some d ->
             VectorIndex.text_chunks v'
               !! (length (VectorIndex.text_chunks v) + i)%nat = Some d
             /\ VectorIndex.vectors v' !! (VectorIndex.ntotal v + i)%nat
                = Some (embed d)
  end.
Proof.
  intros Hm.
  unfold VectorIndex.add_documents, bind, call, get, modify, encode.
  destruct (encode_error docs) as [e|]; [reflexivity|].
  assert (forall (i : nat) d (ts : list string) (vs : list vec),
             docs !! i = Some d ->
             (ts ++ docs) !! (length ts + i)%nat = Some d
             /\ (vs ++ map embed docs) !! (length vs + i)%nat
                = Some (embed d)) as Hlook.
  { intros i d ts vs Hd. split.
    - now rewrite lookup_app_r, Nat.add_comm, Nat.add_sub by lia.
    - rewrite lookup_app_r, Nat.add_comm, Nat.add_sub by lia.
      change (map embed docs) with (embed <$> docs).
      now rewrite list_lookup_fmap, Hd. }
  unfold VectorIndex.ntotal, VectorIndex.vectors.
  destruct v as [ix ts es]. simpl in Hm. subst es.
  destruct docs as [|d0 ds].
  - destruct ix as [ix|]; simpl; eexists; split; reflexivity.
  - destruct ix as [ix|]; simpl.
    + eexists. split; [reflexivity|]. simpl.
      split; [reflexivity|]. split; [discriminate|].
      intros i d Hd. now apply Hlook.
    + eexists. split; [reflexivity|]. simpl.
      split; [reflexivity|]. split; [discriminate|].
      intros i d Hd. apply (Hlook i d ts []). exact Hd.
Qed.

End VectorIndexStore.

Lemma add_documents_appends_witness :
  exists v',
    @VectorIndex.add_documents Demo.embedding ["x y"; "z"] VectorIndex.init
    = (v', Ok tt)
    /\ VectorIndex.embeddings v' = VectorIndex.index v'
    /\ VectorIndex.index v' <> None
    /\ forall (i : nat) d,
         ["x y"; "z"] !! i = Some d ->
         VectorIndex.text_chunks v'
           !! (length (VectorIndex.text_chunks
                         (@VectorIndex.init Demo.embedding)) + i)%nat
         = Some d
         /\ VectorIndex.vectors v'
              !! (VectorIndex.ntotal (@VectorIndex.init Demo.embedding) + i)%nat
            = Some (@embed Demo.embedding d).
Proof.
  exact (@add_documents_appends_in_order Demo.embedding ["x y"; "z"]
           VectorIndex.init eq_refl).
Defined.

(* ===================================================================== *)
(** * Content without a word *)
(* ===================================================================== *)

Section WordlessContent.
Context `{EG : EmbeddingGateway} `{SI : !SimilarityIndex} `{FS : FileSystem}.

Lemma add_documents_empty (v : VectorIndex.t) :
  encode_error [] = None ->
  exists e,
    VectorIndex.add_documents [] v = (v, Raise e)
    /\ exn_type e = match VectorIndex.index v with
                    | None => "IndexError"
                    | Some _ => "ValueError"
                    end.
Proof.
  intros He.
  unfold VectorIndex.add_documents, bind, call, get, modify, encode.
  rewrite He. simpl.
  destruct (VectorIndex.index v); simpl.
  - unfold VectorIndex.vstack.
    destruct (VectorIndex.embeddings v); simpl; eexists; split; reflexivity.
  - eexists. split; reflexivity.
Qed.

(** X25.  A new file whose content is not empty and has no word -- a text
    file of blanks and line breaks -- is not ingested: the content passes
    the test for indexable content, the chunker returns no chunk, and
    [add_documents] raises on the empty batch once the embedder has
    answered ([IndexError] on first use of the index, [ValueError]
    afterwards).  [ingest_file] returns the error dictionary with the
    message of that exception, and the server is as before: the file is not
    stored. *)
Theorem wordless_file_is_refused
        (s : MCPServer.t) (file_path file_hash : string)
        (metadata : option (dict string)) (size : Z) (content : string) :
  path_exists file_path = true ->
  MCPServer.get_file_hash file_path = Some file_hash ->
  stat_st_size file_path = Returned size ->
  dict_mem file_hash (MCPServer.ingested_files s) = false ->
  MCPServer.extract_content file_path (MCPServer.file_type_of file_path)
    size s = (s, Ok content) ->
  MCPServer.indexable content = true -> split content = [] ->
  encode_error [] = None ->
  exists e,
    MCPServer.ingest_file file_path metadata s
    = (s, Ok [("error", PStr ("Error ingesting file: " +:+ exn_msg e))])
    /\ exn_type e
       = match VectorIndex.index (MCPServer.vector_index s) with
         | None => "IndexError"
         | Some _ => "ValueError"
         end.
Proof.
  intros Hex Hh Hsz Hm Hc Hi Hw He.
  destruct (add_documents_empty (MCPServer.vector_index s) He)
    as (e & Ha & Ht).
  exists e. split; [|exact Ht].
  unfold MCPServer.ingest_file, try_except, MCPServer.ingest_file_body.
  rewrite Hex. change (negb true) with false. cbv iota.
  erewrite bind_ok by (unfold run_loop; rewrite Hh; reflexivity).
  erewrite bind_ok by (unfold call; rewrite Hsz; reflexivity).
  erewrite bind_ok by reflexivity. rewrite Hm.
  erewrite bind_ok by exact Hc.
  fold (MCPServer.indexable content). rewrite Hi.
  erewrite bind_raise; [reflexivity|].
  unfold MCPServer.chunk_text. rewrite Hw. simpl.
  erewrite bind_ok by reflexivity.
  erewrite bind_raise;
    [|unfold MCPServer.on_vector_index, zoom; simpl; rewrite Ha; reflexivity].
  unfold MCPServer.set_vector_index. now rewrite server_eta.
Qed.

End WordlessContent.

Lemma wordless_file_witness :
  exists e,
    @MCPServer.ingest_file Demo.embedding Demo.blank_disk "blank.txt" None
      (MCPServer.init [])
    = (MCPServer.init [],
       Ok [("error", PStr ("Error ingesting file: " +:+ exn_msg e))])
    /\ exn_type e = "IndexError".
Proof.
  apply (@wordless_file_is_refused Demo.embedding Demo.blank_disk
           (MCPServer.init []) "blank.txt" "sha2" None 2 "  ");
    reflexivity.
Defined.
